(** * Wallet balance checker: a shallow embedding of [src/App.tsx]

    The development follows the component [App] of the repository: the
    pure helpers ([isValidEthereumAddress], [formatAmount], [formatMoney],
    [addToRecent]), the asynchronous handler [fetchBalances] as a
    transition on the component's state, the cells of a table row, and,
    from the earlier revision of the component that still built a market
    table, the page upsert of [setTopTokens] and the effect that loads the
    pages one after the other.

    Conventions.
    - A JavaScript string is a [string]: one character per UTF-16 code unit.
      Only code units below 256 are representable; every character the
      address validator accepts is ASCII.
    - A JavaScript number is a binary64 float ([PrimFloat.float]); what is
      proved of its arithmetic rests on the specification of the primitive
      operations ([FloatAxioms]).
    - The built-in functions the component calls ([RegExp.prototype.test],
      [Array.prototype.sort], [Number.prototype.toFixed], [toExponential],
      [toPrecision], [Intl.NumberFormat]) are written out after their
      specifications in ECMA-262 and ECMA-402.
    - The component's state is a record; a handler is a function on it,
      split at its [await] into the part before and the part after it. The
      updates of one part are taken together, as React applies them when
      it batches; [rendered] adds the states in between, for a React that
      renders after each update issued outside an event handler. *)

From Stdlib Require Import ZArith List String Ascii Bool Lia.
From Stdlib Require Import Floats Sorted Permutation.
From stdpp Require Import base option gmap strings.
Import ListNotations.

Set Warnings "-inexact-float,-register-all".
Local Open Scope string_scope.
#[local] Arguments String.append !_ _ / : simpl nomatch.

(* ================================================================= *)
(** ** Regular expressions, as far as the validator's literal needs them *)

Module Regex.

(** The syntax of the pattern between the anchors [^] and [$]. A character
    class is a list of inclusive ranges. *)
Inductive regex : Type :=
  | Void
  | Eps
  | Chr (c : ascii)
  | Class (ranges : list (ascii * ascii))
  | Cat (r1 r2 : regex)
  | Alt (r1 r2 : regex)
  | Star (r : regex).

(** [r+] *)
Definition Plus (r : regex) : regex := Cat r (Star r).

Definition in_range (c : ascii) (rg : ascii * ascii) : bool :=
  (nat_of_ascii (fst rg) <=? nat_of_ascii c)%nat
  && (nat_of_ascii c <=? nat_of_ascii (snd rg))%nat.

Definition in_class (ranges : list (ascii * ascii)) (c : ascii) : bool :=
  existsb (in_range c) ranges.

(** The language of a pattern. *)
Inductive matches : regex -> string -> Prop :=
  | MEps : matches Eps ""
  | MChr c : matches (Chr c) (String c "")
  | MClass rs c : in_class rs c = true -> matches (Class rs) (String c "")
  | MCat r1 r2 s1 s2 :
      matches r1 s1 -> matches r2 s2 -> matches (Cat r1 r2) (s1 ++ s2)
  | MAltL r1 r2 s : matches r1 s -> matches (Alt r1 r2) s
  | MAltR r1 r2 s : matches r2 s -> matches (Alt r1 r2) s
  | MStarNil r : matches (Star r) ""
  | MStarCons r s1 s2 :
      matches r s1 -> matches (Star r) s2 -> matches (Star r) (s1 ++ s2).

(** The matcher: Brzozowski derivatives. *)
Fixpoint nullable (r : regex) : bool :=
  match r with
  | Void => false
  | Eps => true
  | Chr _ => false
  | Class _ => false
  | Cat r1 r2 => nullable r1 && nullable r2
  | Alt r1 r2 => nullable r1 || nullable r2
  | Star _ => true
  end.

Fixpoint deriv (c : ascii) (r : regex) : regex :=
  match r with
  | Void => Void
  | Eps => Void
  | Chr d => if Ascii.eqb c d then Eps else Void
  | Class rs => if in_class rs c then Eps else Void
  | Cat r1 r2 =>
      if nullable r1
      then Alt (Cat (deriv c r1) r2) (deriv c r2)
      else Cat (deriv c r1) r2
  | Alt r1 r2 => Alt (deriv c r1) (deriv c r2)
  | Star r1 => Cat (deriv c r1) (Star r1)
  end.

Fixpoint full_match (r : regex) (s : string) : bool :=
  match s with
  | EmptyString => nullable r
  | String c s' => full_match (deriv c r) s'
  end.

(** [/^body$/.test(s)]: without the [m] flag the anchors are the two ends
    of the input, so the test succeeds exactly when all of [s] matches
    [body]. *)
Definition test_anchored (body : regex) (s : string) : bool :=
  full_match body s.

End Regex.

(* ================================================================= *)
(** ** [isValidEthereumAddress] *)

(** Truthiness of a string: [!address] holds of the empty string only. *)
Definition truthy_string (s : string) : bool :=
  match s with EmptyString => false | String _ _ => true end.

(** The body of [/^0x[a-fA-F0-9]+$/]. *)
Definition address_pattern : Regex.regex :=
  Regex.Cat (Regex.Chr "0")
    (Regex.Cat (Regex.Chr "x")
       (Regex.Plus (Regex.Class [("a", "f"); ("A", "F"); ("0", "9")]%char))).

Definition isValidEthereumAddress (address : string) : bool :=
  if negb (truthy_string address) then false
  else if negb (Regex.test_anchored address_pattern address) then false
  else (String.length address =? 42)%nat.

(* ================================================================= *)
(** ** Numbers and their conversions to strings *)

(** A field of a JSON payload that should hold a number may hold [null] or
    be absent. *)
Inductive jsnumber : Type :=
  | Num (x : float)
  | Null
  | Undefined.

(** [ToNumber] on such a field. *)
Definition ToNumber (v : jsnumber) : float :=
  match v with
  | Num x => x
  | Null => 0%float
  | Undefined => nan
  end.

Module NumberToString.

Local Open Scope Z_scope.

Definition pow10 (k : nat) : Z := 10 ^ Z.of_nat k.

(** The magnitude [m * 2^e] of a finite non-zero float as a fraction of
    two positive integers. *)
Definition fraction_of (m : positive) (e : Z) : Z * Z :=
  if 0 <=? e then (Zpos m * 2 ^ e, 1) else (Zpos m, 2 ^ (- e)).

(** The integer [n] for which [n - p/q] is as close to zero as possible,
    the larger one if there are two. *)
Definition nearest_int (p q : Z) : Z := (2 * p + q) / (2 * q).

(** The fraction [(p/q) / 10^k], [k] of either sign. *)
Definition scale10 (p q k : Z) : Z * Z :=
  (p * 10 ^ Z.max 0 (- k), q * 10 ^ Z.max 0 k).

(** The integer nearest to [(p/q) / 10^k], the larger one if there are
    two. *)
Definition nearest_scaled (p q k : Z) : Z :=
  let (p', q') := scale10 p q k in nearest_int p' q'.

Definition digit_char (d : Z) : ascii := ascii_of_nat (48 + Z.to_nat d).

Fixpoint decimal_aux (fuel : nat) (n : Z) (acc : string) : string :=
  match fuel with
  | O => acc
  | S fuel' =>
      let acc' := String (digit_char (n mod 10)) acc in
      if n / 10 =? 0 then acc' else decimal_aux fuel' (n / 10) acc'
  end.

(** The decimal representation of [n >= 0], no leading zeros, ["0"] for 0. *)
Definition decimal (n : Z) : string :=
  decimal_aux (S (Z.to_nat (Z.log2 n))) n "".

Fixpoint zeros (k : nat) : string :=
  match k with O => "" | S k' => String "0" (zeros k') end.

Fixpoint take (k : nat) (s : string) : string :=
  match k, s with
  | S k', String c s' => String c (take k' s')
  | _, _ => ""
  end.

Fixpoint drop (k : nat) (s : string) : string :=
  match k, s with
  | S k', String _ s' => drop k' s'
  | _, _ => s
  end.

(** The largest [e] with [10^e <= p/q], for positive [p] and [q]: the
    difference of the digit counts, or one less. *)
Definition ilog10 (p q : Z) : Z :=
  let e :=
    Z.of_nat (String.length (decimal p)) - Z.of_nat (String.length (decimal q)) in
  let (p', q') := scale10 p q e in
  if q' <=? p' then e else e - 1.

(** [e] and [n] with [10^d <= n < 10^(d+1)] and [n * 10^(e-d)] as close
    to [p/q] as possible, the larger product if there are two. *)
Definition scientific (d : nat) (p q : Z) : Z * Z :=
  let e := ilog10 p q in
  let n := nearest_scaled p q (e - Z.of_nat d) in
  if pow10 (S d) <=? n then (e + 1, pow10 d) else (e, n).

(** The digits of [n] with the decimal point [f] places from the right,
    padded on the left so that a digit precedes the point. *)
Definition point_at (f : nat) (m : string) : string :=
  match f with
  | O => m
  | S _ =>
      let k := String.length m in
      let m := if (k <=? f)%nat then zeros (f + 1 - k) ++ m else m in
      let k := String.length m in
      take (k - f) m ++ "." ++ drop (k - f) m
  end.

Definition sign_string (s : bool) : string := if s then "-" else "".

(** The suffix ["e+d"] or ["e-d"] of the exponential notation. *)
Definition exponent_part (e : Z) : string :=
  "e" ++ (if e <? 0 then "-" else "+") ++ decimal (Z.abs e).

(** [a.b] with [a] the first digit of [m]. *)
Definition mantissa_part (m : string) : string :=
  match m with
  | String a EmptyString => m
  | String a b => String a ("." ++ b)
  | EmptyString => m
  end.

(** [Number::toString] on the values that are not finite. *)
Definition non_finite (x : spec_float) : string :=
  match x with
  | S754_infinity false => "Infinity"
  | S754_infinity true => "-Infinity"
  | _ => "NaN"
  end.

(** *** The shortest digits that read back as the number

    [Number::toString] takes integers [n], [k] and [s] with [k >= 1],
    [10^(k-1) <= s < 10^k], the number nearest to [s * 10^(n-k)] being the
    given one, and [k] as small as possible; of several such [s] the one
    nearest to the number, as the engines choose. The number is
    [m * 2^e]; the decimal is kept as [s * 10^t], [t = n - k]. *)

(** [s * 10^t] as a fraction. *)
Definition decimal_fraction (s t : Z) : Z * Z :=
  (s * 10 ^ Z.max 0 t, 10 ^ Z.max 0 (- t)).

(** [2^(e-2)], the quarter of the unit in the last place, as a fraction. *)
Definition quarter_ulp (e : Z) : Z * Z :=
  (2 ^ Z.max 0 (e - 2), 2 ^ Z.max 0 (2 - e)).

(** The midpoints to the two neighbours of [m * 2^e], in quarters of the
    unit in the last place. The neighbour below a power of two is half as
    far away, except at the least exponent. *)
Definition lower_midpoint (m : positive) (e : Z) : Z :=
  if (Zpos m =? 2 ^ 52) && (-1074 <? e) then 4 * Zpos m - 1
  else 4 * Zpos m - 2.

Definition upper_midpoint (m : positive) : Z := 4 * Zpos m + 2.

(** [s * 10^t] rounds to [m * 2^e]: it lies between the two midpoints,
    and may be one of them when [m] is even (a tie goes to the even
    mantissa). *)
Definition reads_back (m : positive) (e : Z) (s t : Z) : bool :=
  let (cn, cd) := decimal_fraction s t in
  let (un, ud) := quarter_ulp e in
  let closed := Z.even (Zpos m) in
  match lower_midpoint m e * un * cd ?= cn * ud with
  | Lt => true
  | Eq => closed
  | Gt => false
  end
  && match cn * ud ?= upper_midpoint m * un * cd with
     | Lt => true
     | Eq => closed
     | Gt => false
     end.

(** The multiple of [10^t] that reads back as [m * 2^e = p/q], if there is
    one: one of the two multiples around [p/q], the nearer if both do, the
    even one if they are as near. *)
Definition candidate (m : positive) (e : Z) (p q t : Z) : option Z :=
  let (p', q') := scale10 p q t in
  let s0 := p' / q' in
  let below := reads_back m e s0 t in
  let above := reads_back m e (s0 + 1) t in
  if below && above then
    match 2 * p' ?= (2 * s0 + 1) * q' with
    | Lt => Some s0
    | Gt => Some (s0 + 1)
    | Eq => Some (if Z.even s0 then s0 else s0 + 1)
    end
  else if below then Some s0
  else if above then Some (s0 + 1)
  else None.

(** The search over the number of digits [k], from [k] up; [n0] is the
    number of digits before the point of [p/q]. Seventeen digits always
    read back. *)
Fixpoint shortest_from (fuel : nat) (m : positive) (e : Z) (p q n0 k : Z)
  : Z * Z :=
  match fuel with
  | O => (nearest_scaled p q (n0 - k), n0 - k)
  | S fuel' =>
      match candidate m e p q (n0 - k) with
      | Some s => (s, n0 - k)
      | None => shortest_from fuel' m e p q n0 (k + 1)
      end
  end.

(** Trailing zeros of [s] moved into the exponent. *)
Fixpoint strip_trailing_zeros (fuel : nat) (s t : Z) : Z * Z :=
  match fuel with
  | O => (s, t)
  | S fuel' =>
      if (0 <? s) && (s mod 10 =? 0)
      then strip_trailing_zeros fuel' (s / 10) (t + 1)
      else (s, t)
  end.

(** [s] and [t] with [s * 10^t] the shortest decimal that reads back as
    [m * 2^e]. *)
Definition shortest (m : positive) (e : Z) : Z * Z :=
  let (p, q) := fraction_of m e in
  let (s, t) := shortest_from 17 m e p q (ilog10 p q + 1) 1 in
  strip_trailing_zeros 20 s t.

(** [Number::toString] in radix 10 *)
Definition Number_toString (x : float) : string :=
  match Prim2SF x with
  | S754_zero _ => "0"
  | S754_finite sg m e =>
      let (s, t) := shortest m e in
      let ds := decimal s in
      let k := Z.of_nat (String.length ds) in
      let n := t + k in
      sign_string sg ++
      (if (-5 <=? n) && (n <=? 21) then
         if k <=? n then ds ++ zeros (Z.to_nat (n - k))
         else if 0 <? n
         then take (Z.to_nat n) ds ++ "." ++ drop (Z.to_nat n) ds
         else "0." ++ zeros (Z.to_nat (- n)) ++ ds
       else mantissa_part ds ++ exponent_part (n - 1))
  | nf => non_finite nf
  end.

(** [Number.prototype.toFixed(f)] *)
Definition toFixed (x : float) (f : nat) : string :=
  match Prim2SF x with
  | S754_zero _ => point_at f (decimal 0)
  | S754_finite s m e =>
      let (p, q) := fraction_of m e in
      if 10 ^ 21 * q <=? p then Number_toString x
      else sign_string s ++ point_at f (decimal (nearest_int (p * pow10 f) q))
  | nf => non_finite nf
  end.

(** [Number.prototype.toExponential(f)] *)
Definition toExponential (x : float) (f : nat) : string :=
  match Prim2SF x with
  | S754_zero _ => mantissa_part (zeros (S f)) ++ exponent_part 0
  | S754_finite s m e =>
      let (p, q) := fraction_of m e in
      let (e10, n) := scientific f p q in
      sign_string s ++ mantissa_part (decimal n) ++ exponent_part e10
  | nf => non_finite nf
  end.

(** [Number.prototype.toPrecision(p)], [p >= 1] *)
Definition toPrecision (x : float) (prec : nat) : string :=
  match Prim2SF x with
  | S754_zero _ => mantissa_part (zeros prec)
  | S754_finite s m e =>
      let (p, q) := fraction_of m e in
      let (e10, n) := scientific (prec - 1) p q in
      let m := decimal n in
      sign_string s ++
      (if (e10 <? -6) || (Z.of_nat prec <=? e10)
       then mantissa_part m ++ exponent_part e10
       else if e10 =? Z.of_nat prec - 1 then m
       else if 0 <=? e10
       then take (Z.to_nat (e10 + 1)) m ++ "." ++ drop (Z.to_nat (e10 + 1)) m
       else "0." ++ zeros (Z.to_nat (- (e10 + 1))) ++ m)
  | nf => non_finite nf
  end.

(** *** [Intl.NumberFormat('en-US', { maximumFractionDigits: 2 })]

    The formatter is written after ECMA-402: [FormatNumericToString] with
    fraction digits between 0 and 2, rounding mode half-expand, grouping
    in threes with commas. What is rounded is the decimal the digits of
    [Number::toString] denote: engines format through ICU, which starts
    from the shortest digits that read back as the number. *)

(** Removal of at most [cut] trailing zeros, the characters given last
    first. *)
Fixpoint strip_zeros_rev (cut : nat) (rev_m : list ascii) : list ascii :=
  match cut, rev_m with
  | S cut', c :: rest =>
      if Ascii.eqb c "0" then strip_zeros_rev cut' rest else rev_m
  | _, _ => rev_m
  end.

Definition strip_point_rev (rev_m : list ascii) : list ascii :=
  match rev_m with
  | c :: rest => if Ascii.eqb c "." then rest else rev_m
  | [] => rev_m
  end.

(** [ToRawFixed]: [n / 10^maxFraction] nearest to [p/q], a tie going away
    from zero (rounding mode half-expand), then the trailing zeros beyond
    [minFraction] removed. *)
Definition ToRawFixed (p q : Z) (minFraction maxFraction : nat) : string :=
  let n := nearest_int (p * pow10 maxFraction) q in
  let m := point_at maxFraction (decimal n) in
  let r := strip_zeros_rev (maxFraction - minFraction) (rev (list_ascii_of_string m)) in
  string_of_list_ascii (rev (strip_point_rev r)).

(** Grouping separators every three digits from the right, the digits
    given last first. *)
Fixpoint group_rev (k : nat) (rev_digits : list ascii) : list ascii :=
  match rev_digits with
  | [] => []
  | c :: rest =>
      match k, rest with
      | S (S (S _)), _ :: _ => c :: ","%char :: group_rev 1 rest
      | _, _ => c :: group_rev (S k) rest
      end
  end.

Definition group_integer (digits : string) : string :=
  string_of_list_ascii (rev (group_rev 1 (rev (list_ascii_of_string digits)))).

Fixpoint split_point (s : string) : string * string :=
  match s with
  | EmptyString => ("", "")
  | String c s' =>
      if Ascii.eqb c "." then ("", s)
      else let (a, b) := split_point s' in (String c a, b)
  end.

Definition Intl_NumberFormat_format (x : float) : string :=
  match Prim2SF x with
  | S754_nan => "NaN"
  | S754_infinity s => sign_string s ++ "∞"
  | S754_zero s => sign_string s ++ "0"
  | S754_finite sg m e =>
      let (s, t) := shortest m e in
      let (p, q) := decimal_fraction s t in
      let (int, frac) := split_point (ToRawFixed p q 0 2) in
      sign_string sg ++ group_integer int ++ frac
  end.

End NumberToString.

(* ================================================================= *)
(** ** [formatAmount] *)

Definition formatAmount (amount : float) : string :=
  if (amount =? 0)%float then "0"
  else if (amount <? 0.0001)%float then NumberToString.toExponential amount 4
  else if (amount <? 1)%float then NumberToString.toPrecision amount 4
  else if (amount <? 1000)%float then NumberToString.toFixed amount 4
  else NumberToString.Intl_NumberFormat_format amount.

(* ================================================================= *)
(** ** [Array.prototype.sort] with a comparator *)

Section ArraySort.

Context {A : Type}.
Variable comparefn : A -> A -> float.

(** [SortCompare]: the comparator's result, [NaN] read as [+0]. *)
Definition SortCompare (x y : A) : float :=
  let v := comparefn x y in
  if is_nan v then 0%float else v.

(** The sort is stable: of two elements that compare equal the one that
    came first stays first. It is modelled as an insertion sort, each
    element placed before the already sorted elements that came after it
    unless the comparator puts it behind them. The order in which an engine
    calls the comparator is its own; for a consistent comparator the result
    is this one. *)
Fixpoint sort_insert (x : A) (sorted : list A) : list A :=
  match sorted with
  | [] => [x]
  | y :: rest =>
      if (0 <? SortCompare x y)%float then y :: sort_insert x rest
      else x :: sorted
  end.

Definition Array_sort (l : list A) : list A :=
  fold_right sort_insert [] l.

End ArraySort.

(* ================================================================= *)
(** ** The component [App] *)

(** [interface TokenBalance]. [usd_value] is declared a number; the wallet
    provider sends [null] for a token it has no price for. *)
Record TokenBalance : Type := {
  token_address : string;
  symbol : string;
  name : string;
  logo : option string;
  thumbnail : option string;
  decimals : float;
  balance : string;
  balance_formatted : string;
  possible_spam : bool;
  verified_contract : bool;
  usd_price : float;
  usd_value : jsnumber;
  native_token : bool;
  portfolio_percentage : float;
  usd_price_24hr_percent_change : float;
  usd_price_24hr_usd_change : float
}.

(** A value of a JSON payload or of a field of an error object, with
    [undefined] for a field that is absent. [JObject] is an object as
    [JSON.parse] makes them, without a property [toString] of its own (with
    one, a template literal throws a [TypeError]; such payloads are not
    modelled). *)
Inductive jsvalue : Type :=
  | JUndefined
  | JNull
  | JBoolean (b : bool)
  | JNumber (x : float)
  | JString (s : string)
  | JArray (elements : list jsvalue)
  | JObject.

(** [ToBoolean]: what [||] tests. *)
Definition ToBoolean (v : jsvalue) : bool :=
  match v with
  | JUndefined | JNull => false
  | JBoolean b => b
  | JNumber x => negb ((x =? 0)%float || is_nan x)
  | JString s => truthy_string s
  | JArray _ | JObject => true
  end.

(** [ToString]: what a template literal makes of a value. An array is
    joined as [Array.prototype.join] does, with commas, [null] and
    [undefined] elements giving nothing. *)
Fixpoint ToString (v : jsvalue) : string :=
  match v with
  | JUndefined => "undefined"
  | JNull => "null"
  | JBoolean b => if b then "true" else "false"
  | JNumber x => NumberToString.Number_toString x
  | JString s => s
  | JArray elements =>
      (fix join (l : list jsvalue) : string :=
         match l with
         | [] => ""
         | element :: rest =>
             let text :=
               match element with
               | JUndefined | JNull => ""
               | _ => ToString element
               end in
             match rest with
             | [] => text
             | _ :: _ => text ++ "," ++ join rest
             end
         end) elements
  | JObject => "[object Object]"
  end.

(** The error object a rejected request is caught with: [error.response]
    with its [status] and [data?.message], and [error.message]. *)
Record ErrorResponse : Type := {
  status : Z;
  data_message : jsvalue
}.

Record RequestError : Type := {
  response : option ErrorResponse;
  message : jsvalue
}.

(** How the awaited request ends. An exception thrown inside the [try]
    block after the response arrived (a payload without a [result] array)
    is caught by the same handler: it is a [Rejected] with no [response]. *)
Inductive Outcome : Type :=
  | Resolved (result : list TokenBalance)
  | Rejected (err : RequestError).

(** The state of the component, with the two pieces of the outside world
    its handlers write to: the entry [recentAddresses] of [localStorage]
    (kept as the array that [JSON.stringify] serialises) and the log of
    requests sent to the wallet provider. *)
Record State : Type := {
  address : string;
  loading : bool;
  balances : list TokenBalance;
  allBalances : list TokenBalance;
  showAll : bool;
  totalValue : float;
  error : option string;
  showSuggestions : bool;
  recentAddresses : list string;
  localStorage_recentAddresses : option (list string);
  requests : list string
}.

(** The state at the first render, [stored] being what [localStorage]
    holds. *)
Definition initial_State (stored : option (list string)) : State := {|
  address := "";
  loading := false;
  balances := [];
  allBalances := [];
  showAll := false;
  totalValue := 0%float;
  error := None;
  showSuggestions := false;
  recentAddresses := [];
  localStorage_recentAddresses := stored;
  requests := []
|}.

Definition setAddress (v : string) (s : State) : State :=
  {| address := v; loading := loading s; balances := balances s;
     allBalances := allBalances s; showAll := showAll s;
     totalValue := totalValue s; error := error s;
     showSuggestions := showSuggestions s;
     recentAddresses := recentAddresses s;
     localStorage_recentAddresses := localStorage_recentAddresses s;
     requests := requests s |}.

Definition setLoading (v : bool) (s : State) : State :=
  {| address := address s; loading := v; balances := balances s;
     allBalances := allBalances s; showAll := showAll s;
     totalValue := totalValue s; error := error s;
     showSuggestions := showSuggestions s;
     recentAddresses := recentAddresses s;
     localStorage_recentAddresses := localStorage_recentAddresses s;
     requests := requests s |}.

Definition setBalances (v : list TokenBalance) (s : State) : State :=
  {| address := address s; loading := loading s; balances := v;
     allBalances := allBalances s; showAll := showAll s;
     totalValue := totalValue s; error := error s;
     showSuggestions := showSuggestions s;
     recentAddresses := recentAddresses s;
     localStorage_recentAddresses := localStorage_recentAddresses s;
     requests := requests s |}.

Definition setAllBalances (v : list TokenBalance) (s : State) : State :=
  {| address := address s; loading := loading s; balances := balances s;
     allBalances := v; showAll := showAll s;
     totalValue := totalValue s; error := error s;
     showSuggestions := showSuggestions s;
     recentAddresses := recentAddresses s;
     localStorage_recentAddresses := localStorage_recentAddresses s;
     requests := requests s |}.

Definition setShowAll (v : bool) (s : State) : State :=
  {| address := address s; loading := loading s; balances := balances s;
     allBalances := allBalances s; showAll := v;
     totalValue := totalValue s; error := error s;
     showSuggestions := showSuggestions s;
     recentAddresses := recentAddresses s;
     localStorage_recentAddresses := localStorage_recentAddresses s;
     requests := requests s |}.

Definition setTotalValue (v : float) (s : State) : State :=
  {| address := address s; loading := loading s; balances := balances s;
     allBalances := allBalances s; showAll := showAll s;
     totalValue := v; error := error s;
     showSuggestions := showSuggestions s;
     recentAddresses := recentAddresses s;
     localStorage_recentAddresses := localStorage_recentAddresses s;
     requests := requests s |}.

Definition setError (v : option string) (s : State) : State :=
  {| address := address s; loading := loading s; balances := balances s;
     allBalances := allBalances s; showAll := showAll s;
     totalValue := totalValue s; error := v;
     showSuggestions := showSuggestions s;
     recentAddresses := recentAddresses s;
     localStorage_recentAddresses := localStorage_recentAddresses s;
     requests := requests s |}.

Definition setShowSuggestions (v : bool) (s : State) : State :=
  {| address := address s; loading := loading s; balances := balances s;
     allBalances := allBalances s; showAll := showAll s;
     totalValue := totalValue s; error := error s;
     showSuggestions := v;
     recentAddresses := recentAddresses s;
     localStorage_recentAddresses := localStorage_recentAddresses s;
     requests := requests s |}.

Definition setRecentAddresses (v : list string) (s : State) : State :=
  {| address := address s; loading := loading s; balances := balances s;
     allBalances := allBalances s; showAll := showAll s;
     totalValue := totalValue s; error := error s;
     showSuggestions := showSuggestions s;
     recentAddresses := v;
     localStorage_recentAddresses := localStorage_recentAddresses s;
     requests := requests s |}.

(** [localStorage.setItem('recentAddresses', JSON.stringify(v))] *)
Definition localStorage_setItem (v : list string) (s : State) : State :=
  {| address := address s; loading := loading s; balances := balances s;
     allBalances := allBalances s; showAll := showAll s;
     totalValue := totalValue s; error := error s;
     showSuggestions := showSuggestions s;
     recentAddresses := recentAddresses s;
     localStorage_recentAddresses := Some v;
     requests := requests s |}.

(** [moralisApi.get(url, ...)]: the request leaves. *)
Definition moralisApi_get (url : string) (s : State) : State :=
  {| address := address s; loading := loading s; balances := balances s;
     allBalances := allBalances s; showAll := showAll s;
     totalValue := totalValue s; error := error s;
     showSuggestions := showSuggestions s;
     recentAddresses := recentAddresses s;
     localStorage_recentAddresses := localStorage_recentAddresses s;
     requests := requests s ++ [url] |}.

(** *** [addToRecent] *)

Definition addToRecent (newAddress : string) (s : State) : State :=
  let updated :=
    firstn 5
      (newAddress ::
       List.filter (fun addr => negb (String.eqb addr newAddress))
         (recentAddresses s)) in
  let s := setRecentAddresses updated s in
  localStorage_setItem updated s.

(** *** [fetchBalances] *)

Definition msg_enter_address : string := "Lütfen bir cüzdan adresi girin".
Definition msg_key_not_found : string := "Moralis API anahtarı bulunamadı!".
Definition msg_invalid_address : string :=
  "Geçersiz Ethereum adresi! Adres 0x ile başlamalı ve 42 karakter uzunluğunda olmalıdır.".
Definition msg_fallback : string := "Veri çekilirken bir hata oluştu".
Definition msg_rate_limit : string :=
  "API istek limiti aşıldı. Lütfen biraz bekleyip tekrar deneyin.".

(** Truthiness of a value that is a string or absent. *)
Definition truthy (v : option string) : bool :=
  match v with
  | Some s => truthy_string s
  | None => false
  end.

(** [error.response?.status === 429] *)
Definition status_is_429 (err : RequestError) : bool :=
  match response err with
  | Some r => (status r =? 429)%Z
  | None => false
  end.

(** [error.response?.data?.message] *)
Definition payload_message (err : RequestError) : jsvalue :=
  match response err with
  | Some r => data_message r
  | None => JUndefined
  end.

(** The value of the variable [errorMessage] at the end of the [catch]
    block. *)
Definition errorMessage_value (err : RequestError) : jsvalue :=
  if status_is_429 err then JString msg_rate_limit
  else if ToBoolean (payload_message err) then payload_message err
  else if ToBoolean (message err) then message err
  else JString msg_fallback.

(** What the template literal of [setError] makes of it. *)
Definition errorMessage (err : RequestError) : string :=
  ToString (errorMessage_value err).

Definition tokens_url (addr : string) : string :=
  "/wallets/" ++ addr ++ "/tokens".

(** The handler up to its [await]: the three guards, then the entry in
    the recent list, the reset of the display and the request. The second
    component tells whether a request is now awaited. [MORALIS_API_KEY] is
    the build-time value of [VITE_MORALIS_API_KEY], absent when unset. *)
Definition fetchBalances_submit (MORALIS_API_KEY : option string) (s : State)
  : State * bool :=
  if negb (truthy_string (address s)) then
    (setError (Some msg_enter_address) s, false)
  else if negb (truthy MORALIS_API_KEY) then
    (setError (Some msg_key_not_found) s, false)
  else if negb (isValidEthereumAddress (address s)) then
    (setError (Some msg_invalid_address) s, false)
  else
    let addr := address s in
    let s := addToRecent addr s in
    let s := setLoading true s in
    let s := setError None s in
    let s := setBalances [] s in
    let s := setAllBalances [] s in
    let s := setShowAll false s in
    (moralisApi_get (tokens_url addr) s, true).

(** [token.usd_value] as a number. *)
Definition usd (token : TokenBalance) : float := ToNumber (usd_value token).

(** The handler from the [await] on: the [try] block's remainder when the
    request resolved, the [catch] block when it was rejected, then
    [finally]. *)
Definition fetchBalances_settle (o : Outcome) (s : State) : State :=
  let s :=
    match o with
    | Resolved result =>
        let validTokens :=
          List.filter
            (fun token => negb (possible_spam token) && (0 <? usd token)%float)
            result in
        let sortedBalances :=
          Array_sort (fun a b => (usd b - usd a)%float) validTokens in
        let s := setAllBalances sortedBalances s in
        let filteredBalances :=
          List.filter (fun token => (10 <=? usd token)%float) sortedBalances in
        let s := setBalances filteredBalances s in
        let total :=
          fold_left (fun acc token => (acc + usd token)%float)
            sortedBalances 0%float in
        setTotalValue total s
    | Rejected err =>
        setError (Some ("Hata: " ++ errorMessage err)) s
    end in
  setLoading false s.

(** One whole run of the handler, the request ending in [o]. *)
Definition fetchBalances (MORALIS_API_KEY : option string) (o : Outcome)
  (s : State) : State :=
  let (s', awaiting) := fetchBalances_submit MORALIS_API_KEY s in
  if awaiting then fetchBalances_settle o s' else s'.

(** *** What the component renders *)

Inductive Body : Type :=
  | ShowLoading
  | ShowTable (rows : list TokenBalance) (total : float)
  | ShowNothing.

Record View : Type := {
  banner : option string;
  body : Body;
  button_disabled : bool
}.

Definition render (s : State) : View := {|
  banner := if truthy (error s) then error s else None;
  body :=
    if loading s then ShowLoading
    else match balances s with
         | _ :: _ =>
             ShowTable (if showAll s then allBalances s else balances s)
               (totalValue s)
         | [] => ShowNothing
         end;
  button_disabled := loading s
|}.

(** *** The events of the component *)

Section Events.

Variable MORALIS_API_KEY : option string.

(** The effect that runs after the first render:
    [if (saved) setRecentAddresses(JSON.parse(saved))]. *)
Definition load_recentAddresses (s : State) : State :=
  match localStorage_recentAddresses s with
  | Some saved => setRecentAddresses saved s
  | None => s
  end.

Inductive step : State -> State -> Prop :=
  | step_mount s :
      step s (load_recentAddresses s)
  | step_type v s :
      step s (setAddress v s)
  | step_focus s :
      step s (setShowSuggestions true s)
  | step_click_outside s :
      step s (setShowSuggestions false s)
  | step_pick addr s :
      showSuggestions s = true ->
      List.In addr (recentAddresses s) ->
      step s (setShowSuggestions false (setAddress addr s))
  | step_check s :
      loading s = false ->
      step s (fst (fetchBalances_submit MORALIS_API_KEY s))
  | step_settle o s :
      loading s = true ->
      step s (fetchBalances_settle o s)
  | step_toggle s :
      loading s = false ->
      balances s <> [] ->
      step s (setShowAll (negb (showAll s)) s).

Inductive reachable : State -> Prop :=
  | reachable_initial stored : reachable (initial_State stored)
  | reachable_step s s' : reachable s -> step s s' -> reachable s'.

End Events.

(** *** The same handlers, one state update at a time

    Updates issued after an [await] are applied together only where React
    batches them outside event handlers (React 18); before that each one
    is rendered on its own. The lists below give the updates of the two
    halves of [fetchBalances] in the order they are issued, so that what
    holds in between can be stated too. *)

Definition apply_all (updates : list (State -> State)) (s : State) : State :=
  fold_left (fun s' update => update s') updates s.

Definition submit_updates (s : State) : list (State -> State) :=
  let addr := address s in
  let updated :=
    firstn 5
      (addr ::
       List.filter (fun a => negb (String.eqb a addr)) (recentAddresses s)) in
  [ setRecentAddresses updated;
    localStorage_setItem updated;
    setLoading true;
    setError None;
    setBalances [];
    setAllBalances [];
    setShowAll false;
    moralisApi_get (tokens_url addr) ].

Definition settle_updates (o : Outcome) : list (State -> State) :=
  match o with
  | Resolved result =>
      let validTokens :=
        List.filter
          (fun token => negb (possible_spam token) && (0 <? usd token)%float)
          result in
      let sortedBalances :=
        Array_sort (fun a b => (usd b - usd a)%float) validTokens in
      [ setAllBalances sortedBalances;
        setBalances
          (List.filter (fun token => (10 <=? usd token)%float) sortedBalances);
        setTotalValue
          (fold_left (fun acc token => (acc + usd token)%float)
             sortedBalances 0%float);
        setLoading false ]
  | Rejected err =>
      [ setError (Some ("Hata: " ++ errorMessage err));
        setLoading false ]
  end.

Section Renders.

Variable MORALIS_API_KEY : option string.

(** The states a render can see: those between events, and those in the
    middle of a run of [fetchBalances], after some of its updates. *)
Inductive rendered : State -> Prop :=
  | rendered_between s :
      reachable MORALIS_API_KEY s -> rendered s
  | rendered_submitting s applied rest :
      reachable MORALIS_API_KEY s ->
      loading s = false ->
      snd (fetchBalances_submit MORALIS_API_KEY s) = true ->
      submit_updates s = (applied ++ rest)%list ->
      rendered (apply_all applied s)
  | rendered_settling o s applied rest :
      reachable MORALIS_API_KEY s ->
      loading s = true ->
      settle_updates o = (applied ++ rest)%list ->
      rendered (apply_all applied s).

End Renders.

(* ================================================================= *)
(** ** The market table of the earlier revision *)

Record TopToken : Type := {
  top_id : string;
  top_symbol : string;
  top_name : string;
  top_image : string;
  top_current_price : float
}.

(** One element of [response.data] of the market-data provider. *)
Record MarketRow : Type := {
  row_id : string;
  row_symbol : string;
  row_name : string;
  row_image : string;
  row_current_price : jsnumber
}.

(** [v || 0] on a number field: zero, [NaN], [null] and an absent field
    are falsy. *)
Definition number_or_zero (v : jsnumber) : float :=
  match v with
  | Num x => if (x =? 0)%float || is_nan x then 0%float else x
  | Null | Undefined => 0%float
  end.

Section MarketTable.

(** [String.prototype.toUpperCase]; its case mapping is left open. *)
Variable toUpperCase : string -> string.

Definition entry_of (token : MarketRow) : TopToken := {|
  top_id := row_id token;
  top_symbol := toUpperCase (row_symbol token);
  top_name := row_name token;
  top_current_price := number_or_zero (row_current_price token);
  top_image := row_image token
|}.

(** The updater passed to [setTopTokens]: a copy of the previous table
    with the page's tokens written into it by id, in order. *)
Definition upsertPage (page : list MarketRow) (prevTokens : gmap string TopToken)
  : gmap string TopToken :=
  fold_left
    (fun updatedTokens token => <[row_id token := entry_of token]> updatedTokens)
    page prevTokens.

End MarketTable.

(* ================================================================= *)
(** ** Notions used in the statements *)

(** A hexadecimal digit, [0-9a-fA-F]. *)
Definition is_hex_digit (c : ascii) : bool :=
  let n := nat_of_ascii c in
  ((48 <=? n) && (n <=? 57) || (97 <=? n) && (n <=? 102)
   || (65 <=? n) && (n <=? 70))%nat.

Fixpoint all_hex (s : string) : bool :=
  match s with
  | EmptyString => true
  | String c s' => is_hex_digit c && all_hex s'
  end.

(** [s] is [0x] followed by one or more hexadecimal digits and nothing
    else: what [^0x[0-9a-fA-F]+$] describes. *)
Definition hex_address_form (s : string) : Prop :=
  exists h : string, s = "0x" ++ h /\ h <> "" /\ all_hex h = true.


(** The class [[a-fA-F0-9]] of the address pattern. *)
Definition hex_class : list (ascii * ascii) :=
  [("a", "f"); ("A", "F"); ("0", "9")]%char.


(** The list [addToRecent] computes. *)
Definition recent_update (a : string) (l : list string) : list string :=
  firstn 5 (a :: List.filter (fun addr => negb (String.eqb addr a)) l).


(** A token for the examples. *)
Definition sample_token (sym : string) (spam : bool) (value : jsnumber)
  : TokenBalance := {|
  token_address := "0x" ++ sym;
  symbol := sym;
  name := sym;
  logo := None;
  thumbnail := None;
  decimals := 18%float;
  balance := "1";
  balance_formatted := "1";
  possible_spam := spam;
  verified_contract := true;
  usd_price := 1%float;
  usd_value := value;
  native_token := false;
  portfolio_percentage := 0%float;
  usd_price_24hr_percent_change := 0%float;
  usd_price_24hr_usd_change := 0%float
|}.



(** The entry the last row of [page] with id [k] gives, if there is one. *)
Fixpoint last_entry (toUpperCase : string -> string) (k : string)
  (page : list MarketRow) : option TopToken :=
  match page with
  | [] => None
  | token :: rest =>
      match last_entry toUpperCase k rest with
      | Some e => Some e
      | None =>
          if String.eqb (row_id token) k
          then Some (entry_of toUpperCase token) else None
      end
  end.

(** The place of a positive binary64 value among the positive values: the
    mantissa scaled to the least exponent, and a number above all of them
    for the infinity. *)
Definition rank (x : spec_float) : Z :=
  match x with
  | S754_finite _ m e => (Zpos m * 2 ^ (e + 1074))%Z
  | S754_infinity _ => (2 ^ 2100)%Z
  | _ => 0%Z
  end.

(** A valid binary64 value above zero. *)
Definition positive_float (X : spec_float) : Prop :=
  valid_binary X = true /\ SFltb (S754_zero false) X = true.

(** [a] may stand before [b] in a list in descending order of
    [usd_value]. *)
Definition descending (a b : TokenBalance) : Prop :=
  (usd b <=? usd a)%float = true.

(** The tokens that pass the filter of [fetchBalances]. *)
Definition is_valid_token (token : TokenBalance) : bool :=
  negb (possible_spam token) && (0 <? usd token)%float.

Definition at_least_10 (token : TokenBalance) : bool :=
  (10 <=? usd token)%float.

(** [reduce((acc, token) => acc + token.usd_value, 0)] *)
Definition sum_usd (l : list TokenBalance) : float :=
  fold_left (fun acc token => (acc + usd token)%float) l 0%float.

(** The comparator handed to [sort]. *)
Definition by_usd_descending (a b : TokenBalance) : float :=
  (usd b - usd a)%float.

(** A token with a positive [usd_value]. *)
Definition valued (token : TokenBalance) : Prop :=
  (0 <? usd token)%float = true.

(** The state after a run of [fetchBalances] on a valid address that found
    three tokens, worth 5, 15 and 10 USD. *)
Definition state_after_fetch : State :=
  fetchBalances_settle
    (Resolved [sample_token "AAA" false (Num 5);
               sample_token "BBB" false (Num 15);
               sample_token "CCC" false (Num 10)])
    (fst (fetchBalances_submit (Some "key")
            (setAddress "0x52908400098527886E0F7030069857D2E4169EE7"
               (initial_State None)))).

(** What holds of the two lists in every state of the component between
    events: they agree, and they are empty while a request is awaited. *)
Definition lists_agree (s : State) : Prop :=
  balances s = List.filter at_least_10 (allBalances s)
  /\ StronglySorted descending (allBalances s)
  /\ (loading s = true -> balances s = [] /\ allBalances s = []).

(** What holds of them at every render. *)
Definition lists_nested (s : State) : Prop :=
  sublist (balances s) (allBalances s)
  /\ StronglySorted descending (allBalances s)
  /\ StronglySorted descending (balances s)
  /\ (loading s = false ->
      balances s = List.filter at_least_10 (allBalances s)).

(** *** The shapes of formatted amounts *)

Definition is_digit (c : ascii) : bool :=
  ((48 <=? nat_of_ascii c) && (nat_of_ascii c <=? 57))%nat.

Fixpoint all_digits (s : string) : bool :=
  match s with
  | EmptyString => true
  | String c s' => is_digit c && all_digits s'
  end.

(** One or more digits. *)
Definition digits (s : string) : bool :=
  truthy_string s && all_digits s.

Definition strip_sign (s : string) : string :=
  match s with
  | String "-" s' => s'
  | _ => s
  end.

(** The part before the first occurrence of [c] and the part after it, if
    [c] occurs. *)
Fixpoint split_at (c : ascii) (s : string) : option (string * string) :=
  match s with
  | EmptyString => None
  | String d s' =>
      if Ascii.eqb d c then Some ("", s')
      else match split_at c s' with
           | Some (a, b) => Some (String d a, b)
           | None => None
           end
  end.

(** Digits, a point, and exactly [f] digits, after an optional sign:
    fixed notation with [f] decimal places. *)
Definition fixed_form (f : nat) (s : string) : bool :=
  match split_at "." (strip_sign s) with
  | Some (int, frac) => digits int && all_digits frac && (String.length frac =? f)%nat
  | None => false
  end.

(** One digit, a point, exactly [f] digits, then [e], a sign and the
    digits of the exponent, after an optional sign: exponential notation
    with [f] fractional digits. *)
Definition exponential_form (f : nat) (s : string) : bool :=
  match split_at "e" (strip_sign s) with
  | Some (mantissa, String sg exponent) =>
      fixed_form f mantissa
      && (match split_at "." mantissa with
          | Some (int, _) => (String.length int =? 1)%nat
          | None => false
          end)
      && (Ascii.eqb sg "+" || Ascii.eqb sg "-")
      && digits exponent
  | _ => false
  end.

Fixpoint drop_leading_zeros (s : string) : string :=
  match s with
  | String "0" s' => drop_leading_zeros s'
  | _ => s
  end.

Fixpoint remove_point (s : string) : string :=
  match s with
  | EmptyString => ""
  | String c s' => if Ascii.eqb c "." then remove_point s' else String c (remove_point s')
  end.

(** Plain decimal notation (digits, a point, digits) whose digits, from
    the first one that is not zero, are exactly [p]: [p] significant
    digits. *)
Definition precision_form (p : nat) (s : string) : bool :=
  match split_at "." s with
  | Some (int, frac) =>
      digits int && digits frac
      && (String.length (drop_leading_zeros (remove_point s)) =? p)%nat
  | None => false
  end.

(** Groups of three digits, each after a comma. *)
Fixpoint comma_groups (l : list ascii) : bool :=
  match l with
  | [] => true
  | c :: a :: b :: d :: rest =>
      Ascii.eqb c "," && is_digit a && is_digit b && is_digit d
      && comma_groups rest
  | _ => false
  end.

(** One to three digits, then groups of three digits after commas. *)
Definition grouped_integer (s : string) : bool :=
  match list_ascii_of_string s with
  | a :: rest =>
      is_digit a
      && (comma_groups rest
          || match rest with
             | b :: rest' =>
                 is_digit b
                 && (comma_groups rest'
                     || match rest' with
                        | c :: rest'' => is_digit c && comma_groups rest''
                        | [] => false
                        end)
             | [] => false
             end)
  | [] => false
  end.

(** A grouped integer, alone or followed by a point and one to [f]
    digits. *)
Definition grouped_form (f : nat) (s : string) : bool :=
  match split_at "." s with
  | Some (int, frac) =>
      grouped_integer int && digits frac && (String.length frac <=? f)%nat
  | None => grouped_integer s
  end.

(** [c] does not occur in [s]. *)
Fixpoint lacks (c : ascii) (s : string) : bool :=
  match s with
  | EmptyString => true
  | String d s' => negb (Ascii.eqb d c) && lacks c s'
  end.

(** [10^k <= p/q] and [p/q < 10^k] for positive [p] and [q], [k] of
    either sign, without division. *)
Definition above_pow10 (p q k : Z) : Prop :=
  (q * 10 ^ Z.max 0 k <= p * 10 ^ Z.max 0 (- k))%Z.

Definition below_pow10 (p q k : Z) : Prop :=
  (p * 10 ^ Z.max 0 (- k) < q * 10 ^ Z.max 0 k)%Z.

(** [grouped_integer] on the list of characters. *)
Definition head_groups (l : list ascii) : bool :=
  match l with
  | a :: rest =>
      is_digit a
      && (comma_groups rest
          || match rest with
             | b :: rest' =>
                 is_digit b
                 && (comma_groups rest'
                     || match rest' with
                        | c :: rest'' => is_digit c && comma_groups rest''
                        | [] => false
                        end)
             | [] => false
             end)
  | [] => false
  end.

Definition digit_or_comma (c : ascii) : bool :=
  is_digit c || Ascii.eqb c ",".

(** [Number.isFinite]: neither [NaN] nor an infinity. *)
Definition isFinite (a : float) : bool :=
  match Prim2SF a with
  | S754_zero _ | S754_finite _ _ _ => true
  | _ => false
  end.

(** Case analysis on the three guards of [fetchBalances], [tac] closing
    each case in which a guard stops the run. *)
Ltac through_guards tac :=
  unfold fetchBalances_submit in *;
  destruct (negb (truthy_string (address _))); [tac|];
  destruct (negb (truthy _)); [tac|];
  destruct (negb (isValidEthereumAddress (address _))); [tac|].
(* ================================================================= *)
(** ** [formatMoney] and the cells of a table row *)

(** [Intl.NumberFormat('en-US', { style: 'currency', currency: 'USD',
    minimumFractionDigits: 2, maximumFractionDigits: 2 })]: the sign, the
    dollar sign, the integer digits in groups of three and two fraction
    digits, rounded as [Intl_NumberFormat_format] rounds. *)
Definition formatMoney (amount : float) : string :=
  match Prim2SF amount with
  | S754_nan => "$NaN"
  | S754_infinity s => NumberToString.sign_string s ++ "$∞"
  | S754_zero s =>
      let (int, frac) :=
        NumberToString.split_point (NumberToString.ToRawFixed 0 1 2 2) in
      NumberToString.sign_string s ++ "$"
      ++ NumberToString.group_integer int ++ frac
  | S754_finite sg m e =>
      let (s, t) := NumberToString.shortest m e in
      let (p, q) := NumberToString.decimal_fraction s t in
      let (int, frac) :=
        NumberToString.split_point (NumberToString.ToRawFixed p q 2 2) in
      NumberToString.sign_string sg ++ "$"
      ++ NumberToString.group_integer int ++ frac
  end.

(** A cell of the table with its colour class. *)
Record Cell : Type := {
  className : string;
  text : string
}.

(** [change > 0 ? 'text-green-400' : change < 0 ? 'text-red-400' : ''] *)
Definition change_class (change : float) : string :=
  if (0 <? change)%float then "text-green-400"
  else if (change <? 0)%float then "text-red-400"
  else "".

(** [change > 0 ? '+' : ''] *)
Definition change_sign (change : float) : string :=
  if (0 <? change)%float then "+" else "".

(** The price cell: a dollar sign and [token.usd_price.toFixed(4)]. *)
Definition price_cell (token : TokenBalance) : string :=
  "$" ++ NumberToString.toFixed (usd_price token) 4.

(** The value cell: [formatMoney(token.usd_value)]. *)
Definition value_cell (token : TokenBalance) : string :=
  formatMoney (usd token).

(** The two lines of the cell of the change over 24 hours. *)
Definition percent_change_cell (token : TokenBalance) : Cell :=
  let change := usd_price_24hr_percent_change token in
  {| className := change_class change;
     text := change_sign change ++ NumberToString.toFixed change 2 ++ "%" |}.

Definition usd_change_cell (token : TokenBalance) : Cell :=
  let change := usd_price_24hr_usd_change token in
  {| className := "text-sm " ++ change_class change;
     text := change_sign change ++ formatMoney change |}.

(** The line under the table: [Total Value: {formatMoney(totalValue)}]. *)
Definition total_line (total : float) : string :=
  "Total Value: " ++ formatMoney total.
(* ================================================================= *)
(** ** The loading of the market table (earlier revision)

    The effect of the earlier revision that fetches the pages of the
    market listing one after the other. Its dependencies are
    [[currentPage, marketDataLoading]]: it runs after the first render and
    after every render in which one of the two has changed (a development
    build under [StrictMode] runs the effect of the first render twice; that
    run is not modelled). A page number is an integer; the counter never
    leaves the range in which binary64 arithmetic on integers is exact. *)

(** How the awaited page request ends. *)
Inductive PageOutcome : Type :=
  | PageResolved (data : list MarketRow)
  | PageRejected.

(** The callback handed to [setTimeout]: [setCurrentPage] with one of the
    two updaters of the effect. *)
Inductive Timer : Type :=
  | NextPage   (* setCurrentPage(prev => prev + 1) *)
  | SamePage.  (* setCurrentPage(prev => prev) *)

(** The three pieces of state the effect reads and writes, and around
    them: whether the effect is due (a dependency has changed since it last
    ran), the requests in flight, each with the value of [currentPage] its
    closure holds, the timers set and not yet fired, and the pages requested
    so far. *)
Record Market : Type := {
  topTokens : gmap string TopToken;
  marketDataLoading : bool;
  currentPage : Z;
  effect_due : bool;
  awaited_pages : list Z;
  timers : list Timer;
  page_requests : list Z
}.

(** The state at the first render; the effect is due after it. *)
Definition initial_Market : Market := {|
  topTokens := ∅;
  marketDataLoading := true;
  currentPage := 1;
  effect_due := true;
  awaited_pages := [];
  timers := [];
  page_requests := []
|}.

Definition setTopTokens
  (updater : gmap string TopToken -> gmap string TopToken) (m : Market)
  : Market :=
  {| topTokens := updater (topTokens m);
     marketDataLoading := marketDataLoading m;
     currentPage := currentPage m;
     effect_due := effect_due m;
     awaited_pages := awaited_pages m;
     timers := timers m;
     page_requests := page_requests m |}.

(** An update of a dependency makes the effect due if it changes the
    value. *)
Definition setCurrentPage (updater : Z -> Z) (m : Market) : Market :=
  let v := updater (currentPage m) in
  {| topTokens := topTokens m;
     marketDataLoading := marketDataLoading m;
     currentPage := v;
     effect_due := effect_due m || negb (v =? currentPage m)%Z;
     awaited_pages := awaited_pages m;
     timers := timers m;
     page_requests := page_requests m |}.

Definition setMarketDataLoading (v : bool) (m : Market) : Market :=
  {| topTokens := topTokens m;
     marketDataLoading := v;
     currentPage := currentPage m;
     effect_due := effect_due m || negb (Bool.eqb v (marketDataLoading m));
     awaited_pages := awaited_pages m;
     timers := timers m;
     page_requests := page_requests m |}.

(** [setTimeout(callback, 100)] *)
Definition setTimeout (callback : Timer) (m : Market) : Market :=
  {| topTokens := topTokens m;
     marketDataLoading := marketDataLoading m;
     currentPage := currentPage m;
     effect_due := effect_due m;
     awaited_pages := awaited_pages m;
     timers := timers m ++ [callback];
     page_requests := page_requests m |}.

(** [coingeckoApi.get('/coins/markets', { params: { ..., page } })]: the
    request leaves and is awaited. *)
Definition coingeckoApi_get (page : Z) (m : Market) : Market :=
  {| topTokens := topTokens m;
     marketDataLoading := marketDataLoading m;
     currentPage := currentPage m;
     effect_due := effect_due m;
     awaited_pages := awaited_pages m ++ [page];
     timers := timers m;
     page_requests := page_requests m ++ [page] |}.

(** The effect has run. *)
Definition effect_done (m : Market) : Market :=
  {| topTokens := topTokens m;
     marketDataLoading := marketDataLoading m;
     currentPage := currentPage m;
     effect_due := false;
     awaited_pages := awaited_pages m;
     timers := timers m;
     page_requests := page_requests m |}.

(** The request for [page] is no longer awaited. *)
Fixpoint without_page (page : Z) (l : list Z) : list Z :=
  match l with
  | [] => []
  | p :: rest => if (p =? page)%Z then rest else p :: without_page page rest
  end.

Definition settled (page : Z) (m : Market) : Market :=
  {| topTokens := topTokens m;
     marketDataLoading := marketDataLoading m;
     currentPage := currentPage m;
     effect_due := effect_due m;
     awaited_pages := without_page page (awaited_pages m);
     timers := timers m;
     page_requests := page_requests m |}.

Section MarketLoading.

Variable toUpperCase : string -> string.

(** The body of the effect, up to the [await] of [fetchMarketData]:
    [if (marketDataLoading && currentPage <= 10) fetchMarketData()]. *)
Definition market_effect (m : Market) : Market :=
  let m := effect_done m in
  if marketDataLoading m && (currentPage m <=? 10)%Z
  then coingeckoApi_get (currentPage m) m
  else m.

(** [fetchMarketData] from its [await] on, [currentPage] being the page
    the request was sent for: the [try] block's remainder when the request
    resolved, the [catch] block when it was rejected. *)
Definition fetchMarketData_settle (currentPage : Z) (o : PageOutcome)
  (m : Market) : Market :=
  match o with
  | PageResolved data =>
      let m := setTopTokens (upsertPage toUpperCase data) m in
      if (currentPage <? 10)%Z then setTimeout NextPage m
      else setMarketDataLoading false m
  | PageRejected => setTimeout SamePage m
  end.

(** A timer fires. *)
Definition run_timer (callback : Timer) (m : Market) : Market :=
  match callback with
  | NextPage => setCurrentPage (fun prev => prev + 1)%Z m
  | SamePage => setCurrentPage (fun prev => prev) m
  end.

Definition timer_fired (m : Market) : Market :=
  {| topTokens := topTokens m;
     marketDataLoading := marketDataLoading m;
     currentPage := currentPage m;
     effect_due := effect_due m;
     awaited_pages := awaited_pages m;
     timers := tl (timers m);
     page_requests := page_requests m |}.

(** What can happen to the market state: the effect runs when it is due, a
    request in flight ends, the oldest timer fires. *)
Inductive market_step : Market -> Market -> Prop :=
  | market_step_effect m :
      effect_due m = true ->
      market_step m (market_effect m)
  | market_step_settle page o m :
      In page (awaited_pages m) ->
      market_step m (fetchMarketData_settle page o (settled page m))
  | market_step_timer callback rest m :
      timers m = callback :: rest ->
      market_step m (run_timer callback (timer_fired m)).

Inductive market_reachable : Market -> Prop :=
  | market_reachable_initial : market_reachable initial_Market
  | market_reachable_step m m' :
      market_reachable m -> market_step m m' -> market_reachable m'.

(** The states that follow [m], after any number of steps. *)
Inductive market_steps (m : Market) : Market -> Prop :=
  | market_steps_refl : market_steps m m
  | market_steps_step m' m'' :
      market_steps m m' -> market_step m' m'' -> market_steps m m''.

(** One page loaded: the effect runs if it is due, the request it sent, if
    any, resolves with [data], and the timer set then, if any, fires. *)
Definition load_page (m : Market) (data : list MarketRow) : Market :=
  let m := if effect_due m then market_effect m else m in
  match awaited_pages m with
  | page :: _ =>
      let m := fetchMarketData_settle page (PageResolved data) (settled page m) in
      match timers m with
      | callback :: _ => run_timer callback (timer_fired m)
      | [] => m
      end
  | [] => m
  end.

(** The market state after the requests have resolved with [pages], one
    after the other. *)
Definition load_pages (pages : list (list MarketRow)) : Market :=
  fold_left load_page pages initial_Market.

End MarketLoading.
(* ================================================================= *)
(** ** Notions used in the statements on sessions and on the display *)

(** The states that follow [s0], after any number of events. *)
Inductive reachable_from (MORALIS_API_KEY : option string) (s0 : State)
  : State -> Prop :=
  | reachable_from_start : reachable_from MORALIS_API_KEY s0 s0
  | reachable_from_step s s' :
      reachable_from MORALIS_API_KEY s0 s ->
      step MORALIS_API_KEY s s' ->
      reachable_from MORALIS_API_KEY s0 s'.

(** A recent list as [addToRecent] keeps it: no address twice, at most
    five, each one accepted by the validator. *)
Definition recent_list (l : list string) : Prop :=
  List.NoDup l /\ (length l <= 5)%nat
  /\ Forall (fun a => isValidEthereumAddress a = true) l.

(** What [localStorage] holds is such a list, if it holds one. *)
Definition stored_recent_list (stored : option (list string)) : Prop :=
  match stored with
  | Some l => recent_list l
  | None => True
  end.

(** The url of a request for the tokens of an accepted address. *)
Definition request_for_address (url : string) : Prop :=
  exists a : string, url = tokens_url a /\ isValidEthereumAddress a = true.

(** The component with two addresses in its recent list, a third one
    typed in. *)
Definition state_with_recent : State :=
  setAddress "0x52908400098527886E0F7030069857D2E4169EE7"
    (load_recentAddresses
       (initial_State
          (Some ["0xde709f2102306220921060314715629080e2fb77";
                 "0x27b1fdb04752bbc536007a920d24acb045561c26"]))).

(** The tokens of a response that are listed and shown without
    [Show all]. *)
Definition shown_by_default (token : TokenBalance) : bool :=
  is_valid_token token && at_least_10 token.

(** Tokens with the [usd_value] [v]. *)
Definition valued_at (v : float) (token : TokenBalance) : bool :=
  (usd token =? v)%float.

(** What a step keeps of the recent list and of the storage. *)
Definition recent_kept (s : State) : Prop :=
  recent_list (recentAddresses s)
  /\ stored_recent_list (localStorage_recentAddresses s).

(** The recent list is empty or what the storage holds. *)
Definition recent_stored (s : State) : Prop :=
  recentAddresses s = []
  \/ localStorage_recentAddresses s = Some (recentAddresses s).

(** The requests of a session. *)
Definition requests_kept (key : option string) (s : State) : Prop :=
  Forall request_for_address (requests s)
  /\ (truthy key = false -> requests s = []).

(** What holds of the listed tokens and of the total between events: the
    tokens passed the filter, and the total is their sum whenever there is
    a token to show. *)
Definition table_consistent (s : State) : Prop :=
  Forall (fun token => is_valid_token token = true) (allBalances s)
  /\ (balances s <> [] -> totalValue s = sum_usd (allBalances s)).

(** *** The shapes of formatted money and of the change cells *)

(** The first character of [s] is [c]. *)
Definition first_is (c : ascii) (s : string) : bool :=
  match s with
  | String d _ => Ascii.eqb d c
  | EmptyString => false
  end.

Definition starts_with_digit (s : string) : bool :=
  match s with
  | String d _ => is_digit d
  | EmptyString => false
  end.

(** A dollar sign, a grouped integer, a point and exactly two digits,
    after an optional sign. *)
Definition money_form (s : string) : bool :=
  match strip_sign s with
  | String "$" number =>
      match split_at "." number with
      | Some (int, frac) =>
          grouped_integer int && all_digits frac
          && (String.length frac =? 2)%nat
      | None => false
      end
  | _ => false
  end.

(** The number [-0]. *)
Definition is_negative_zero (x : float) : bool :=
  match Prim2SF x with
  | S754_zero true => true
  | _ => false
  end.

(** *** The loading of the market table *)

(** The pages [1, ..., n]. *)
Definition pages_up_to (n : nat) : list Z := map Z.of_nat (seq 1 n).

(** The states of the loading: the effect is due for page [k]; the request
    for page [k] is awaited; the timer that moves on to the next page is
    set; a request has failed, the timer it set pending or fired; all ten
    pages are there. *)
Definition market_phase (m : Market) : Prop :=
  exists k : nat,
    (1 <= k <= 10)%nat /\ currentPage m = Z.of_nat k
    /\ ((effect_due m = true /\ marketDataLoading m = true
         /\ awaited_pages m = [] /\ timers m = []
         /\ page_requests m = pages_up_to (k - 1))
        \/ (effect_due m = false /\ marketDataLoading m = true
            /\ awaited_pages m = [Z.of_nat k] /\ timers m = []
            /\ page_requests m = pages_up_to k)
        \/ (effect_due m = false /\ marketDataLoading m = true
            /\ awaited_pages m = [] /\ timers m = [NextPage]
            /\ page_requests m = pages_up_to k /\ (k < 10)%nat)
        \/ (effect_due m = false /\ marketDataLoading m = true
            /\ awaited_pages m = []
            /\ (timers m = [SamePage] \/ timers m = [])
            /\ page_requests m = pages_up_to k)
        \/ (marketDataLoading m = false
            /\ awaited_pages m = [] /\ timers m = []
            /\ page_requests m = pages_up_to 10 /\ k = 10%nat)).

(** The loading has come to a halt in the state it had in [m0]. *)
Definition market_halted (m0 m : Market) : Prop :=
  effect_due m = false /\ awaited_pages m = []
  /\ (timers m = [SamePage] \/ timers m = [])
  /\ topTokens m = topTokens m0
  /\ marketDataLoading m = marketDataLoading m0
  /\ currentPage m = currentPage m0
  /\ page_requests m = page_requests m0.

(** All pages are there. *)
Definition market_ready (m : Market) : Prop :=
  marketDataLoading m = false /\ awaited_pages m = [] /\ timers m = [].

(** *** Reading a formatted number back *)

Definition digit_value (c : ascii) : Z := (Z.of_nat (nat_of_ascii c) - 48)%Z.

(** The number the digits of [s] spell after [acc], the other characters
    (sign, point, separators) skipped. *)
Fixpoint read_digits (acc : Z) (s : string) : Z :=
  match s with
  | EmptyString => acc
  | String c s' =>
      read_digits (if is_digit c then 10 * acc + digit_value c else acc)%Z s'
  end.

Definition digits_value (s : string) : Z := read_digits 0 s.

(** The magnitude of a finite number as a fraction. *)
Definition exact_fraction (a : float) : Z * Z :=
  match Prim2SF a with
  | S754_finite _ m e => NumberToString.fraction_of m e
  | _ => (0%Z, 1%Z)
  end.

(** The fields of a market state after the updates of a step. *)
Ltac market_fields :=
  cbn [topTokens marketDataLoading currentPage effect_due awaited_pages timers
       page_requests market_effect effect_done coingeckoApi_get
       fetchMarketData_settle settled setTopTokens setTimeout
       setMarketDataLoading setCurrentPage run_timer timer_fired
       without_page tl app] in *.
(* ================================================================= *)
(** * Facts *)

(** ** The matcher decides the language *)

Section RegexFacts.

Import Regex.

Lemma append_empty_inv (s1 s2 : string) :
  s1 ++ s2 = "" -> s1 = "" /\ s2 = "".
Proof. destruct s1; simpl; [auto | discriminate]. Qed.

Lemma append_cons_inv (s1 s2 : string) c s :
  s1 ++ s2 = String c s ->
  (s1 = "" /\ s2 = String c s) \/ (exists t, s1 = String c t /\ s = t ++ s2).
Proof.
  destruct s1 as [|a t]; simpl; intros H.
  - left; auto.
  - injection H as -> <-. right; eauto.
Qed.

Lemma append_empty_r (s : string) : s ++ "" = s.
Proof. induction s; simpl; congruence. Qed.

Lemma append_assoc' (a b c : string) : (a ++ b) ++ c = a ++ (b ++ c).
Proof. induction a; simpl; congruence. Qed.

Lemma matches_empty_nullable (r : regex) (s : string) :
  matches r s -> s = "" -> nullable r = true.
Proof.
  induction 1 as [| | |r1 r2 s1 s2 _ IH1 _ IH2|r1 r2 s _ IH|r1 r2 s _ IH| |];
    simpl; intros E; try discriminate; auto.
  - apply append_empty_inv in E as [-> ->]. rewrite IH1, IH2; auto.
  - rewrite IH; auto.
  - rewrite IH; auto using orb_true_r.
Qed.

Lemma nullable_matches (r : regex) : nullable r = true <-> matches r "".
Proof.
  split.
  - induction r; simpl; intros H; try discriminate.
    + constructor.
    + apply andb_true_iff in H as [H1 H2].
      change "" with ("" ++ ""). constructor; auto.
    + apply orb_true_iff in H as [H|H]; [apply MAltL | apply MAltR]; auto.
    + constructor.
  - intros H. eapply matches_empty_nullable; eauto.
Qed.

Lemma matches_Cat_cons r1 r2 c s :
  matches (Cat r1 r2) (String c s) <->
  (exists s1 s2, s = s1 ++ s2 /\ matches r1 (String c s1) /\ matches r2 s2)
  \/ (matches r1 "" /\ matches r2 (String c s)).
Proof.
  split.
  - intros H. inv H.
    match goal with E : _ ++ _ = String _ _ |- _ =>
      apply append_cons_inv in E as [[-> ->]|[t [-> ->]]] end.
    + right; auto.
    + left; eauto.
  - intros [(s1 & s2 & -> & H1 & H2)|[H1 H2]].
    + change (String c (s1 ++ s2)) with (String c s1 ++ s2). constructor; auto.
    + change (String c s) with ("" ++ String c s). constructor; auto.
Qed.

Lemma matches_Star_inv (r' : regex) (w : string) :
  matches r' w -> forall r c s, r' = Star r -> w = String c s ->
  exists s1 s2, s = s1 ++ s2 /\ matches r (String c s1) /\ matches (Star r) s2.
Proof.
  induction 1 as [| | | | | | |r0 s1 s2 H1 _ H2 IH2]; intros ra ca ta Er Ew;
    try discriminate.
  injection Er as ->.
  apply append_cons_inv in Ew as [[-> ->]|[t [-> ->]]].
  - eapply IH2; eauto.
  - eauto.
Qed.

Lemma matches_Star_cons r c s :
  matches (Star r) (String c s) <->
  exists s1 s2, s = s1 ++ s2 /\ matches r (String c s1) /\ matches (Star r) s2.
Proof.
  split.
  - intros H. eapply matches_Star_inv; eauto.
  - intros (s1 & s2 & -> & H1 & H2).
    change (String c (s1 ++ s2)) with (String c s1 ++ s2). constructor; auto.
Qed.

Lemma deriv_matches (r : regex) : forall c s,
  matches (deriv c r) s <-> matches r (String c s).
Proof.
  induction r as [| |d|rs|r1 IH1 r2 IH2|r1 IH1 r2 IH2|r IH]; intros c s; simpl.
  - split; intros H; inv H.
  - split; intros H; inv H.
  - destruct (Ascii.eqb_spec c d) as [->|Hne]; split; intros H; inv H;
      try constructor; congruence.
  - destruct (in_class rs c) eqn:E; split; intros H; inv H;
      try constructor; congruence.
  - rewrite matches_Cat_cons. destruct (nullable r1) eqn:En.
    + split.
      * intros H. inv H.
        -- match goal with H : matches (Cat _ _) _ |- _ => inv H end.
           left. do 2 eexists. rewrite <- IH1. eauto.
        -- right. rewrite <- IH2. split; auto. apply nullable_matches; auto.
      * intros [(s1 & s2 & -> & H1 & H2)|[H1 H2]].
        -- apply MAltL. constructor; auto. apply IH1; auto.
        -- apply MAltR. apply IH2; auto.
    + split.
      * intros H. inv H.
        left. do 2 eexists. rewrite <- IH1. eauto.
      * intros [(s1 & s2 & -> & H1 & H2)|[H1 H2]].
        -- constructor; auto. apply IH1; auto.
        -- apply nullable_matches in H1. congruence.
  - split; intros H; inv H.
    + apply MAltL, IH1; auto.
    + apply MAltR, IH2; auto.
    + apply MAltL, IH1; auto.
    + apply MAltR, IH2; auto.
  - rewrite matches_Star_cons. split.
    + intros H. inv H.
      do 2 eexists. rewrite <- IH. eauto.
    + intros (s1 & s2 & -> & H1 & H2). constructor; auto. apply IH; auto.
Qed.

Lemma full_match_matches (s : string) : forall r,
  full_match r s = true <-> matches r s.
Proof.
  induction s as [|c s IH]; intros r; simpl.
  - apply nullable_matches.
  - rewrite IH. apply deriv_matches.
Qed.

End RegexFacts.

(** ** The address validator *)

Section ValidatorFacts.

Import Regex.

Lemma in_class_hex (c : ascii) : in_class hex_class c = is_hex_digit c.
Proof.
  unfold in_class, hex_class, is_hex_digit, in_range.
  cbn [existsb fst snd].
  change (nat_of_ascii "a") with 97%nat. change (nat_of_ascii "f") with 102%nat.
  change (nat_of_ascii "A") with 65%nat. change (nat_of_ascii "F") with 70%nat.
  change (nat_of_ascii "0") with 48%nat. change (nat_of_ascii "9") with 57%nat.
  generalize (nat_of_ascii c). intros n.
  repeat match goal with
         | |- context [(?a <=? ?b)%nat] => destruct (Nat.leb_spec a b)
         end; simpl; try reflexivity; lia.
Qed.

Lemma matches_Class_inv rs s :
  matches (Class rs) s -> exists c, s = String c "" /\ in_class rs c = true.
Proof. intros H; inv H; eauto. Qed.

Lemma matches_Chr_inv d s : matches (Chr d) s -> s = String d "".
Proof. intros H; inv H; auto. Qed.

Lemma star_hex_all_hex (h : string) :
  matches (Star (Class hex_class)) h <-> all_hex h = true.
Proof.
  induction h as [|c h IH]; simpl.
  - split; [reflexivity | constructor].
  - rewrite matches_Star_cons, andb_true_iff, <- IH, <- in_class_hex. split.
    + intros (s1 & s2 & -> & H1 & H2).
      apply matches_Class_inv in H1 as (c' & E & Hc). injection E as <- ->.
      auto.
    + intros [Hc Hs]. exists "", h. repeat split; auto. constructor; auto.
Qed.

Lemma address_pattern_language (s : string) :
  matches address_pattern s <-> hex_address_form s.
Proof.
  unfold address_pattern, Plus, hex_address_form. fold hex_class. split.
  - intros H. inv H.
    match goal with H : matches (Chr _) _ |- _ => apply matches_Chr_inv in H as -> end.
    match goal with H : matches (Cat _ _) _ |- _ => inv H end.
    match goal with H : matches (Chr _) _ |- _ => apply matches_Chr_inv in H as -> end.
    match goal with H : matches (Cat _ _) _ |- _ => inv H end.
    match goal with H : matches (Class _) _ |- _ =>
      apply matches_Class_inv in H as (c & -> & Hc) end.
    match goal with H : matches (Star _) ?t |- _ => exists (String c t) end.
    simpl. repeat split; [discriminate|].
    rewrite <- in_class_hex, Hc. simpl. apply star_hex_all_hex; auto.
  - intros (h & -> & Hne & Hh). destruct h as [|c h]; [congruence|].
    simpl in Hh. apply andb_true_iff in Hh as [Hc Hh].
    change ("0x" ++ String c h) with ("0" ++ ("x" ++ (String c "" ++ h))).
    repeat constructor.
    + rewrite in_class_hex; auto.
    + apply star_hex_all_hex; auto.
Qed.

Lemma isValidEthereumAddress_true (s : string) :
  isValidEthereumAddress s = true <->
  hex_address_form s /\ String.length s = 42.
Proof.
  unfold isValidEthereumAddress, test_anchored.
  rewrite <- address_pattern_language, <- full_match_matches.
  generalize (full_match address_pattern s). intros b.
  destruct s as [|c s]; destruct b; cbn [truthy_string negb].
  - split; [discriminate | intros [_ H]; discriminate].
  - split; [discriminate | intros [H _]; discriminate].
  - rewrite Nat.eqb_eq. tauto.
  - split; [discriminate | intros [H _]; discriminate].
Qed.

Lemma all_hex_app (a b : string) :
  all_hex (a ++ b) = all_hex a && all_hex b.
Proof.
  induction a as [|c a IH]; simpl; auto. rewrite IH, andb_assoc; auto.
Qed.

Lemma append_inj_l (p a b : string) : p ++ a = p ++ b -> a = b.
Proof. induction p; simpl; intros H; auto. injection H; auto. Qed.

End ValidatorFacts.

(** ** Runs of [fetchBalances] that stop at a guard *)

Lemma fetchBalances_submit_stops (key : option string) (s : State) :
  snd (fetchBalances_submit key s) = false ->
  exists msg,
    fetchBalances_submit key s = (setError (Some msg) s, false).
Proof.
  through_guards eauto. simpl. discriminate.
Qed.

Lemma fetchBalances_submit_passes (key : option string) (s : State) :
  snd (fetchBalances_submit key s) = true <->
  truthy key = true /\ isValidEthereumAddress (address s) = true.
Proof.
  unfold fetchBalances_submit.
  assert (Hv : isValidEthereumAddress (address s) = true ->
               truthy_string (address s) = true).
  { unfold isValidEthereumAddress. destruct (truthy_string (address s)); auto. }
  destruct (truthy_string (address s)) eqn:Ea; simpl.
  - destruct (truthy key); simpl.
    + destruct (isValidEthereumAddress (address s)); simpl; intuition congruence.
    + intuition congruence.
  - split; [discriminate|]. intros [_ H]. apply Hv in H. congruence.
Qed.

Lemma fetchBalances_rejected_address (key : option string) (o : Outcome) (s : State) :
  isValidEthereumAddress (address s) = false ->
  snd (fetchBalances_submit key s) = false.
Proof.
  intros H. destruct (snd (fetchBalances_submit key s)) eqn:E; auto.
  apply fetchBalances_submit_passes in E as [_ E]. congruence.
Qed.

(** C1. The address validator accepts a string exactly when it is [0x]
    followed by one or more hexadecimal digits and has 42 characters. It
    rejects the empty string, a string with a character that is not a
    hexadecimal digit after the prefix, and a string whose length is not 42;
    it accepts [0x] followed by 40 hexadecimal digits. When the validator
    rejects the submitted address no request is sent. *)
Theorem isValidEthereumAddress_spec :
  (forall s : string,
     isValidEthereumAddress s = true <->
     hex_address_form s /\ String.length s = 42)
  /\ isValidEthereumAddress "" = false
  /\ (forall (h t : string) (c : ascii),
        is_hex_digit c = false ->
        isValidEthereumAddress ("0x" ++ h ++ String c t) = false)
  /\ (forall s : string,
        String.length s <> 42 -> isValidEthereumAddress s = false)
  /\ (forall h : string,
        all_hex h = true -> String.length h = 40 ->
        isValidEthereumAddress ("0x" ++ h) = true)
  /\ (forall (key : option string) (o : Outcome) (s : State),
        isValidEthereumAddress (address s) = false ->
        requests (fetchBalances key o s) = requests s).
Proof.
  split; [exact isValidEthereumAddress_true|].
  split; [reflexivity|].
  split.
  { intros h t c Hc.
    destruct (isValidEthereumAddress _) eqn:E; auto.
    apply isValidEthereumAddress_true in E as [(h' & E & _ & Hh) _].
    apply (append_inj_l "0x") in E. subst h'.
    rewrite all_hex_app in Hh. simpl in Hh. rewrite Hc in Hh.
    rewrite andb_false_r in Hh. discriminate. }
  split.
  { intros s Hl. destruct (isValidEthereumAddress s) eqn:E; auto.
    apply isValidEthereumAddress_true in E as [_ E]. congruence. }
  split.
  { intros h Hh Hl. apply isValidEthereumAddress_true. split.
    - exists h. repeat split; auto. intros ->. discriminate.
    - simpl. rewrite Hl. reflexivity. }
  intros key o s Hv. unfold fetchBalances.
  pose proof (fetchBalances_rejected_address key o s Hv) as Hs.
  destruct (fetchBalances_submit_stops key s Hs) as [msg ->]. reflexivity.
Qed.

(** ** The recent-address list *)

Lemma recentAddresses_addToRecent (a : string) (s : State) :
  recentAddresses (addToRecent a s) = recent_update a (recentAddresses s).
Proof. reflexivity. Qed.

Lemma filter_neq_remove (a : string) (l : list string) :
  List.filter (fun addr => negb (String.eqb addr a)) l = remove string_dec a l.
Proof.
  induction l as [|x l IH]; simpl; auto.
  destruct (string_dec a x) as [->|Hne].
  - rewrite String.eqb_refl. simpl. auto.
  - destruct (String.eqb_spec x a); [congruence|]. simpl. congruence.
Qed.

Lemma filter_neq_notin (a : string) (l : list string) :
  ~ In a l -> List.filter (fun addr => negb (String.eqb addr a)) l = l.
Proof.
  induction l as [|x l IH]; simpl; intros H; auto.
  destruct (String.eqb_spec x a) as [->|Hne]; simpl.
  - tauto.
  - rewrite IH; tauto.
Qed.

Lemma notin_filter_neq (a : string) (l : list string) :
  ~ In a (List.filter (fun addr => negb (String.eqb addr a)) l).
Proof.
  rewrite filter_In. intros [_ H]. rewrite String.eqb_refl in H. discriminate.
Qed.

Lemma notin_firstn {A} (a : A) (n : nat) (l : list A) :
  ~ In a l -> ~ In a (firstn n l).
Proof.
  revert n; induction l as [|x l IH]; intros [|n]; simpl; try tauto.
  intros H [E|E]; [tauto|]. apply (IH n); tauto.
Qed.

Lemma count_occ_notin (a : string) (l : list string) :
  ~ In a l -> count_occ string_dec l a = 0.
Proof. intros H. apply count_occ_not_In; auto. Qed.

Lemma recent_update_twice (a : string) (l : list string) :
  recent_update a (recent_update a l) = recent_update a l.
Proof.
  unfold recent_update.
  set (f := List.filter (fun addr => negb (String.eqb addr a)) l).
  change (firstn 5 (a :: f)) with (a :: firstn 4 f).
  simpl List.filter. rewrite String.eqb_refl. simpl negb. cbv iota.
  rewrite filter_neq_notin
    by (apply notin_firstn, notin_filter_neq).
  change (firstn 5 (a :: firstn 4 f)) with (a :: firstn 4 (firstn 4 f)).
  rewrite firstn_firstn. reflexivity.
Qed.

Lemma firstn_removelast {A} (l : list A) (n : nat) :
  length l = S n -> firstn n l = removelast l.
Proof.
  revert n; induction l as [|x l IH]; intros n H; simpl in H; [discriminate|].
  injection H as H. destruct l as [|y l].
  - simpl in H. subst n. reflexivity.
  - destruct n as [|n]; [discriminate|].
    change (x :: firstn n (y :: l) = x :: removelast (y :: l)).
    rewrite IH; auto.
Qed.

Lemma last_notin_removelast (l : list string) (d : string) :
  List.NoDup l -> l <> [] -> ~ In (List.last l d) (removelast l).
Proof.
  induction l as [|x l IH]; intros Hnd Hne; [congruence|].
  destruct l as [|y l]; [simpl; tauto|].
  inversion Hnd as [|? ? Hx Hnd']; subst.
  change (~ In (List.last (y :: l) d) (x :: removelast (y :: l))).
  intros [E|E].
  - apply Hx. rewrite E.
    destruct (exists_last (l := y :: l)) as (l' & z & E'); [discriminate|].
    rewrite E'. rewrite List.last_last. apply in_or_app. right. left. reflexivity.
  - revert E. apply IH; auto; discriminate.
Qed.

(** C6. A run of [fetchBalances] that passes the guards (the key is set
    and the address is valid) puts the address at the front of the recent
    list, with every earlier entry equal to it removed and the list cut to
    five entries, and stores that list, whatever the outcome of the
    request. Adding an address twice gives the same list as adding it once,
    with the address once, at the front. Adding an address that is not
    among five distinct entries drops the last, oldest, entry. *)
Theorem addToRecent_on_validation :
  (forall (key : option string) (o : Outcome) (s : State),
     truthy key = true ->
     isValidEthereumAddress (address s) = true ->
     recentAddresses (fetchBalances key o s)
     = firstn 5 (address s :: remove string_dec (address s) (recentAddresses s))
     /\ localStorage_recentAddresses (fetchBalances key o s)
        = Some (recentAddresses (fetchBalances key o s)))
  /\ (forall (a : string) (s : State),
        hd_error (recentAddresses (addToRecent a s)) = Some a
        /\ count_occ string_dec (recentAddresses (addToRecent a s)) a = 1
        /\ length (recentAddresses (addToRecent a s)) <= 5
        /\ localStorage_recentAddresses (addToRecent a s)
           = Some (recentAddresses (addToRecent a s)))
  /\ (forall (a : string) (s : State),
        recentAddresses (addToRecent a (addToRecent a s))
        = recentAddresses (addToRecent a s))
  /\ (forall (a : string) (s : State),
        length (recentAddresses s) = 5 ->
        List.NoDup (recentAddresses s) ->
        ~ In a (recentAddresses s) ->
        recentAddresses (addToRecent a s) = a :: removelast (recentAddresses s)
        /\ ~ In (List.last (recentAddresses s) "") (recentAddresses (addToRecent a s))).
Proof.
  split.
  { intros key o s Hk Hv. unfold fetchBalances.
    assert (Hp : snd (fetchBalances_submit key s) = true)
      by (apply fetchBalances_submit_passes; auto).
    through_guards discriminate.
    rewrite <- filter_neq_remove. destruct o; split; reflexivity. }
  split.
  { intros a s. rewrite recentAddresses_addToRecent. unfold recent_update.
    set (f := List.filter (fun addr => negb (String.eqb addr a)) (recentAddresses s)).
    change (firstn 5 (a :: f)) with (a :: firstn 4 f).
    repeat split.
    - simpl. destruct (string_dec a a); [|congruence].
      rewrite count_occ_notin; auto. apply notin_firstn, notin_filter_neq.
    - simpl. pose proof (firstn_le_length 4 f). lia. }
  split.
  { intros a s. rewrite !recentAddresses_addToRecent. apply recent_update_twice. }
  intros a s Hl Hnd Hin. rewrite recentAddresses_addToRecent. unfold recent_update.
  rewrite filter_neq_notin by auto.
  change (firstn 5 (a :: recentAddresses s)) with (a :: firstn 4 (recentAddresses s)).
  rewrite (firstn_removelast _ 4) by auto. split; [reflexivity|].
  intros [E|E].
  - apply Hin. rewrite E. destruct (recentAddresses s) as [|x l]; [discriminate|].
    destruct (exists_last (l := x :: l)) as (l' & z & E'); [discriminate|].
    rewrite E', List.last_last. apply in_or_app. right. left. reflexivity.
  - revert E. apply last_notin_removelast; auto.
    intros E. rewrite E in Hl. discriminate.
Qed.

(** ** Error reporting *)





(** ** Guards come before the request *)

Lemma requests_fetchBalances_stopped (key : option string) (o : Outcome) (s : State) :
  snd (fetchBalances_submit key s) = false ->
  requests (fetchBalances key o s) = requests s.
Proof.
  intros H. unfold fetchBalances.
  destruct (fetchBalances_submit_stops key s H) as [msg ->]. reflexivity.
Qed.

Lemma isValidEthereumAddress_length (a : string) :
  isValidEthereumAddress a = true -> String.length a = 42.
Proof. intros H. apply isValidEthereumAddress_true in H. tauto. Qed.

(** C8. A run of [fetchBalances] on a non-empty address whose length is
    not 42 (41 characters, say) ends with a validation error and sends no
    request: the invalid-address message when the key is set, the
    key-not-found message when it is not. A run on a valid address with the
    key unset ends with the key-not-found message and sends no request.
    Both are shown on a 41-character and on a valid address. *)
Theorem fetchBalances_guards :
  (forall (key : option string) (o : Outcome) (s : State),
     address s <> "" ->
     String.length (address s) <> 42 ->
     error (fetchBalances key o s)
     = Some (if truthy key then msg_invalid_address else msg_key_not_found)
     /\ requests (fetchBalances key o s) = requests s)
  /\ (forall (key : option string) (o : Outcome) (s : State),
        isValidEthereumAddress (address s) = true ->
        truthy key = false ->
        error (fetchBalances key o s) = Some msg_key_not_found
        /\ requests (fetchBalances key o s) = requests s)
  /\ (String.length "0x52908400098527886E0F7030069857D2E4169EE" = 41
      /\ error
        (fetchBalances (Some "key") (Resolved [])
           (setAddress "0x52908400098527886E0F7030069857D2E4169EE"
              (initial_State None)))
      = Some msg_invalid_address
      /\ requests
           (fetchBalances (Some "key") (Resolved [])
              (setAddress "0x52908400098527886E0F7030069857D2E4169EE"
                 (initial_State None)))
         = [])
  /\ (error
        (fetchBalances None (Resolved [])
           (setAddress "0x52908400098527886E0F7030069857D2E4169EE7"
              (initial_State None)))
      = Some msg_key_not_found
      /\ requests
           (fetchBalances None (Resolved [])
              (setAddress "0x52908400098527886E0F7030069857D2E4169EE7"
                 (initial_State None)))
         = []).
Proof.
  split.
  { intros key o s Hne Hl.
    assert (Hv : isValidEthereumAddress (address s) = false).
    { destruct (isValidEthereumAddress (address s)) eqn:E; auto.
      apply isValidEthereumAddress_length in E. congruence. }
    unfold fetchBalances, fetchBalances_submit. rewrite Hv.
    destruct (address s) as [|c a]; [congruence|]. simpl.
    destruct (truthy key); simpl; auto. }
  split.
  { intros key o s Hv Hk.
    unfold fetchBalances, fetchBalances_submit. rewrite Hk.
    assert (Ht : truthy_string (address s) = true).
    { unfold isValidEthereumAddress in Hv.
      destruct (truthy_string (address s)); [auto | discriminate]. }
    rewrite Ht. simpl. auto. }
  split; repeat split.
Qed.

(** ** What an error leaves on the screen *)



(** ** The market table *)

Section MarketTableFacts.

Variable toUpperCase : string -> string.

Lemma upsertPage_lookup (page : list MarketRow) :
  forall (m : gmap string TopToken) (k : string),
    upsertPage toUpperCase page m !! k
    = match last_entry toUpperCase k page with
      | Some e => Some e
      | None => m !! k
      end.
Proof.
  induction page as [|token rest IH]; intros m k; simpl; [reflexivity|].
  unfold upsertPage in *. simpl. rewrite IH.
  destruct (last_entry toUpperCase k rest); [reflexivity|].
  destruct (String.eqb_spec (row_id token) k) as [->|Hne].
  - apply lookup_insert_eq.
  - apply lookup_insert_ne; auto.
Qed.

End MarketTableFacts.

(** C10. Writing a page of market rows into the table twice gives the
    table that writing it once gives, whatever the table and the page. *)
Theorem upsertPage_idempotent :
  forall (toUpperCase : string -> string) (page : list MarketRow)
         (m : gmap string TopToken),
    upsertPage toUpperCase page (upsertPage toUpperCase page m)
    = upsertPage toUpperCase page m.
Proof.
  intros toUpperCase page m. apply map_eq. intros k.
  rewrite !upsertPage_lookup.
  destruct (last_entry toUpperCase k page); reflexivity.
Qed.

(** ** Binary64 arithmetic: the sign of a difference *)

Section SpecFloatFacts.

Local Open Scope Z_scope.

Lemma digits2_pos_bounds (m : positive) :
  2 ^ (Zpos (digits2_pos m) - 1) <= Zpos m < 2 ^ Zpos (digits2_pos m).
Proof.
  induction m as [m IH|m IH|]; simpl digits2_pos.
  - rewrite Pos2Z.inj_succ. pose proof (Pos2Z.inj_xI m).
    replace (Z.succ (Zpos (digits2_pos m)) - 1)
      with (Z.succ (Zpos (digits2_pos m) - 1)) by lia.
    rewrite !Z.pow_succ_r by lia. lia.
  - rewrite Pos2Z.inj_succ. pose proof (Pos2Z.inj_xO m).
    replace (Z.succ (Zpos (digits2_pos m)) - 1)
      with (Z.succ (Zpos (digits2_pos m) - 1)) by lia.
    rewrite !Z.pow_succ_r by lia. lia.
  - cbv. split; [discriminate | reflexivity].
Qed.

Lemma bounded_inv (m : positive) (e : Z) :
  bounded prec emax m e = true ->
  -1074 <= e <= 971
  /\ Zpos (digits2_pos m) <= 53
  /\ (-1074 < e -> Zpos (digits2_pos m) = 53).
Proof.
  unfold bounded, canonical_mantissa, fexp, emin, prec, emax.
  rewrite andb_true_iff, Z.eqb_eq, Z.leb_le. lia.
Qed.

Lemma Pos_iter_xO (d m : positive) :
  Zpos (Pos.iter xO m d) = Zpos m * 2 ^ Zpos d.
Proof.
  induction d as [|d IH] using Pos.peano_ind.
  - simpl. lia.
  - rewrite Pos.iter_succ, Pos2Z.inj_succ, Z.pow_succ_r by lia.
    pose proof (Pos2Z.inj_xO (Pos.iter xO m d)). lia.
Qed.

Lemma shl_align_value (m : positive) (e ez : Z) :
  ez <= e -> Zpos (fst (shl_align m e ez)) = Zpos m * 2 ^ (e - ez).
Proof.
  intros H. unfold shl_align.
  destruct (ez - e) as [|d|d] eqn:E; simpl fst.
  - replace (e - ez) with 0 by lia. lia.
  - lia.
  - rewrite Pos_iter_xO. replace (e - ez) with (Zpos d) by lia. reflexivity.
Qed.

(** The comparison of two valid positive finite numbers is the comparison
    of their mantissas once aligned on the smaller exponent. *)
Lemma SFcompare_aligned (mx my : positive) (ex ey : Z) :
  bounded prec emax mx ex = true ->
  bounded prec emax my ey = true ->
  SFcompare (S754_finite false mx ex) (S754_finite false my ey)
  = Some (Zpos (fst (shl_align mx ex (Z.min ex ey)))
          ?= Zpos (fst (shl_align my ey (Z.min ex ey)))).
Proof.
  intros Hx Hy. apply bounded_inv in Hx as (Hex & Hdx & Hnx).
  apply bounded_inv in Hy as (Hey & Hdy & Hny).
  pose proof (digits2_pos_bounds mx) as Bx.
  pose proof (digits2_pos_bounds my) as By.
  rewrite !shl_align_value by lia.
  simpl SFcompare. f_equal.
  destruct (Z.compare_spec ex ey) as [E|E|E].
  - subst ey. rewrite Z.min_id, Z.sub_diag, !Z.mul_1_r.
    rewrite Pos.compare_cont_spec.
    change (Zpos mx ?= Zpos my) with (mx ?= my)%positive.
    destruct (mx ?= my)%positive; reflexivity.
  - rewrite Z.min_l, Z.sub_diag, Z.mul_1_r by lia.
    symmetry. apply Z.compare_lt_iff.
    rewrite Hny in By by lia.
    assert (2 ^ 53 <= 2 ^ 52 * 2 ^ (ey - ex)).
    { rewrite <- Z.pow_add_r by lia. apply Z.pow_le_mono_r; lia. }
    assert (Zpos mx < 2 ^ 53).
    { eapply Z.lt_le_trans; [apply Bx|]. apply Z.pow_le_mono_r; lia. }
    change (53 - 1) with 52 in By. nia.
  - rewrite Z.min_r, Z.sub_diag, Z.mul_1_r by lia.
    symmetry. apply Z.compare_gt_iff.
    rewrite Hnx in Bx by lia.
    assert (2 ^ 53 <= 2 ^ 52 * 2 ^ (ex - ey)).
    { rewrite <- Z.pow_add_r by lia. apply Z.pow_le_mono_r; lia. }
    assert (Zpos my < 2 ^ 53).
    { eapply Z.lt_le_trans; [apply By|]. apply Z.pow_le_mono_r; lia. }
    change (53 - 1) with 52 in Bx. nia.
Qed.

Lemma shr_1_m (mrs : shr_record) :
  0 <= shr_m mrs -> shr_m (shr_1 mrs) = shr_m mrs / 2.
Proof.
  intros H. rewrite <- Z.div2_div.
  destruct mrs as [m r s]. simpl in H.
  destruct m as [|[p|p|]|p]; try reflexivity; lia.
Qed.

Lemma iter_pos_shr_1_m (p : positive) :
  forall mrs : shr_record,
    0 <= shr_m mrs ->
    shr_m (SpecFloat.iter_pos shr_1 p mrs) = shr_m mrs / 2 ^ Zpos p.
Proof.
  induction p as [p IH|p IH|]; intros mrs H; simpl SpecFloat.iter_pos.
  - assert (Hp : 0 < 2 ^ Zpos p) by (apply Z.pow_pos_nonneg; lia).
    assert (H1 : 0 <= shr_m (shr_1 mrs)).
    { rewrite shr_1_m by auto. apply Z.div_pos; lia. }
    assert (H2 : 0 <= shr_m (SpecFloat.iter_pos shr_1 p (shr_1 mrs))).
    { rewrite IH by auto. apply Z.div_pos; lia. }
    rewrite IH, IH, shr_1_m by auto.
    rewrite !Z.div_div by lia.
    f_equal.
    replace (Zpos p~1) with (1 + Zpos p + Zpos p) by lia.
    rewrite !Z.pow_add_r by lia. lia.
  - assert (Hp : 0 < 2 ^ Zpos p) by (apply Z.pow_pos_nonneg; lia).
    assert (H2 : 0 <= shr_m (SpecFloat.iter_pos shr_1 p mrs)).
    { rewrite IH by auto. apply Z.div_pos; lia. }
    rewrite IH, IH by auto.
    rewrite !Z.div_div by lia.
    f_equal.
    replace (Zpos p~0) with (Zpos p + Zpos p) by lia.
    rewrite !Z.pow_add_r by lia. lia.
  - rewrite shr_1_m by auto. reflexivity.
Qed.

Lemma shr_m_record_of_loc (m : Z) (l : location) :
  shr_m (shr_record_of_loc m l) = m.
Proof. destruct l as [|[]]; reflexivity. Qed.

(** Rounding a positive mantissa at an exponent that is not below the
    least one never shifts it to zero. *)
Lemma shr_fexp_positive (m e : Z) (l : location) :
  0 < m -> -1074 <= e ->
  0 < shr_m (fst (shr_fexp prec emax m e l))
  /\ -1074 <= snd (shr_fexp prec emax m e l).
Proof.
  intros Hm He. unfold shr_fexp, shr, fexp, emin, prec, emax.
  destruct m as [|p|p]; try lia. simpl Zdigits2.
  pose proof (digits2_pos_bounds p) as B.
  set (d := Zpos (digits2_pos p)) in *.
  destruct (Z.max (d + e - 53) (3 - 1024 - 53) - e) as [|n|n] eqn:E; simpl fst; simpl snd.
  - rewrite shr_m_record_of_loc. lia.
  - rewrite iter_pos_shr_1_m by (rewrite shr_m_record_of_loc; lia).
    rewrite shr_m_record_of_loc. split; [|lia].
    apply Z.div_str_pos. split; [apply Z.pow_pos_nonneg; lia|].
    eapply Z.le_trans; [|apply B]. apply Z.pow_le_mono_r; lia.
  - rewrite shr_m_record_of_loc. lia.
Qed.

Lemma round_nearest_even_ge (m : Z) (l : location) :
  m <= round_nearest_even m l.
Proof.
  unfold round_nearest_even. destruct l as [|[]]; try destruct (Z.even m); lia.
Qed.

Lemma binary_round_aux_positive (m e : Z) (l : location) :
  0 < m -> -1074 <= e ->
  SFltb (S754_zero false) (binary_round_aux prec emax false m e l) = true.
Proof.
  intros Hm He. unfold binary_round_aux.
  destruct (shr_fexp_positive m e l Hm He) as [H1 H2].
  destruct (shr_fexp prec emax m e l) as [mrs' e'] eqn:E1. simpl in H1, H2.
  pose proof (round_nearest_even_ge (shr_m mrs') (loc_of_shr_record mrs')) as Hr.
  set (m1 := round_nearest_even (shr_m mrs') (loc_of_shr_record mrs')) in *.
  destruct (shr_fexp_positive m1 e' loc_Exact) as [H3 H4]; [lia | lia |].
  destruct (shr_fexp prec emax m1 e' loc_Exact) as [mrs'' e''] eqn:E2.
  simpl in H3, H4.
  destruct (shr_m mrs'') as [|q|q]; try lia.
  destruct (e'' <=? emax - prec); reflexivity.
Qed.

Lemma binary_round_aux_negative (m e : Z) (l : location) :
  SFltb (S754_zero false) (binary_round_aux prec emax true m e l) = false.
Proof.
  unfold binary_round_aux.
  destruct (shr_fexp prec emax m e l) as [mrs' e'].
  destruct (shr_fexp prec emax _ e' loc_Exact) as [mrs'' e''].
  destruct (shr_m mrs'') as [|q|q]; try reflexivity.
  destruct (e'' <=? emax - prec); reflexivity.
Qed.

Lemma binary_normalize_sign (D e : Z) :
  -1074 <= e ->
  SFltb (S754_zero false) (binary_normalize prec emax D e false) = (0 <? D).
Proof.
  intros He. unfold binary_normalize, binary_round.
  destruct D as [|p|p].
  - reflexivity.
  - destruct (shl_align p e _) as [mz ez] eqn:E.
    assert (-1074 <= ez).
    { unfold shl_align in E.
      destruct (fexp prec emax (Zpos (digits2_pos p) + e) - e) eqn:E';
        injection E as <- <-; try lia.
      unfold fexp, emin, prec, emax in *. lia. }
    rewrite binary_round_aux_positive by lia. reflexivity.
  - destruct (shl_align p e _) as [mz ez].
    rewrite binary_round_aux_negative. reflexivity.
Qed.

(** For valid positive numbers the difference [y - x], rounded, is
    positive exactly when [x < y]. *)
Lemma SFsub_positive_iff (X Y : spec_float) :
  valid_binary X = true ->
  valid_binary Y = true ->
  SFltb (S754_zero false) X = true ->
  SFltb (S754_zero false) Y = true ->
  SFltb (S754_zero false) (SF64sub Y X) = SFltb X Y.
Proof.
  intros VX VY PX PY.
  destruct X as [sx|sx| |sx mx ex]; try discriminate;
    destruct sx; try discriminate;
    destruct Y as [sy|sy| |sy my ey]; try discriminate;
    destruct sy; try discriminate; try reflexivity.
  simpl in VX, VY.
  unfold SFltb at 2. rewrite SFcompare_aligned by auto.
  unfold SF64sub, SFsub. cbv zeta. unfold cond_Zopp.
  apply bounded_inv in VX as (Hex & _). apply bounded_inv in VY as (Hey & _).
  rewrite binary_normalize_sign by lia.
  rewrite (Z.min_comm ey ex).
  set (a := Zpos (fst (shl_align mx ex (Z.min ex ey)))).
  set (b := Zpos (fst (shl_align my ey (Z.min ex ey)))).
  destruct (Z.compare_spec a b); destruct (Z.ltb_spec 0 (b - a)); auto; lia.
Qed.

End SpecFloatFacts.

(** ** The order of positive numbers *)

Section PositiveOrder.

Local Open Scope Z_scope.

Lemma rank_finite_bound (m : positive) (e : Z) :
  bounded prec emax m e = true ->
  0 < rank (S754_finite false m e) < 2 ^ 2100.
Proof.
  intros H. apply bounded_inv in H as (He & Hd & _).
  pose proof (digits2_pos_bounds m) as B. simpl rank.
  assert (HP : 0 < 2 ^ (e + 1074)) by (apply Z.pow_pos_nonneg; lia).
  assert (HM : Zpos m < 2 ^ 53).
  { eapply Z.lt_le_trans; [apply B|]. apply Z.pow_le_mono_r; lia. }
  assert (HK : 2 ^ (e + 1074) <= 2 ^ 2045) by (apply Z.pow_le_mono_r; lia).
  assert (HT : 2 ^ 53 * 2 ^ 2045 < 2 ^ 2100) by (vm_compute; reflexivity).
  revert HP HM HK HT.
  generalize (2 ^ (e + 1074)) (2 ^ 53) (2 ^ 2045) (2 ^ 2100).
  intros P M K T HP HM HK HT. split; [lia|].
  apply Z.le_lt_trans with (Zpos m * K); [nia|].
  apply Z.lt_trans with (M * K); [nia|lia].
Qed.

Lemma SFcompare_rank (X Y : spec_float) :
  positive_float X -> positive_float Y ->
  SFcompare X Y = Some (rank X ?= rank Y).
Proof.
  intros [VX PX] [VY PY].
  destruct X as [sx|sx| |sx mx ex]; try discriminate;
    destruct sx; try discriminate;
    destruct Y as [sy|sy| |sy my ey]; try discriminate;
    destruct sy; try discriminate.
  - reflexivity.
  - simpl in VY. pose proof (rank_finite_bound my ey VY) as B.
    simpl SFcompare. f_equal. symmetry. apply Z.compare_gt_iff.
    change (rank (S754_infinity false)) with (2 ^ 2100). lia.
  - simpl in VX. pose proof (rank_finite_bound mx ex VX) as B.
    simpl SFcompare. f_equal. symmetry. apply Z.compare_lt_iff.
    change (rank (S754_infinity false)) with (2 ^ 2100). lia.
  - simpl in VX, VY. rewrite SFcompare_aligned by auto. f_equal.
    apply bounded_inv in VX as (Hex & _). apply bounded_inv in VY as (Hey & _).
    rewrite !shl_align_value by lia. simpl rank.
    pose proof (Z.le_min_l ex ey). pose proof (Z.le_min_r ex ey).
    assert (-1074 <= Z.min ex ey) by lia.
    generalize dependent (Z.min ex ey). intros ez ? ? ?.
    replace (ex + 1074) with ((ex - ez) + (ez + 1074)) by lia.
    replace (ey + 1074) with ((ey - ez) + (ez + 1074)) by lia.
    rewrite (Z.pow_add_r 2 (ex - ez)), (Z.pow_add_r 2 (ey - ez)) by lia.
    rewrite !Z.mul_assoc.
    assert (0 < 2 ^ (ez + 1074)) by (apply Z.pow_pos_nonneg; lia).
    apply Zmult_compare_compat_r. lia.
Qed.

End PositiveOrder.

Section FloatOrder.

Local Open Scope float_scope.

Lemma Prim2SF_positive (x : float) :
  (0 <? x) = true -> positive_float (Prim2SF x).
Proof.
  intros H. split; [apply Prim2SF_valid|].
  rewrite FloatAxioms.ltb_spec in H. exact H.
Qed.

Lemma ltb_rank (x y : float) :
  (0 <? x) = true -> (0 <? y) = true ->
  (x <? y) = (rank (Prim2SF x) <? rank (Prim2SF y))%Z.
Proof.
  intros Hx Hy. rewrite FloatAxioms.ltb_spec. unfold SFltb.
  rewrite SFcompare_rank by (apply Prim2SF_positive; auto).
  unfold Z.ltb. destruct (_ ?= _)%Z; reflexivity.
Qed.

Lemma leb_rank (x y : float) :
  (0 <? x) = true -> (0 <? y) = true ->
  (x <=? y) = (rank (Prim2SF x) <=? rank (Prim2SF y))%Z.
Proof.
  intros Hx Hy. rewrite FloatAxioms.leb_spec. unfold SFleb.
  rewrite SFcompare_rank by (apply Prim2SF_positive; auto).
  unfold Z.leb. destruct (_ ?= _)%Z; reflexivity.
Qed.

(** [y - x > 0] exactly when [x < y], for positive [x] and [y]. *)
Lemma sub_positive_ltb (x y : float) :
  (0 <? x) = true -> (0 <? y) = true ->
  (0 <? y - x) = (x <? y).
Proof.
  intros Hx Hy. rewrite (FloatAxioms.ltb_spec 0), (FloatAxioms.ltb_spec x), FloatAxioms.sub_spec.
  apply Prim2SF_positive in Hx as [VX PX].
  apply Prim2SF_positive in Hy as [VY PY].
  apply SFsub_positive_iff; auto.
Qed.

Lemma SFcompare_refl (X : spec_float) :
  X <> S754_nan -> SFcompare X X = Some Eq.
Proof.
  destruct X as [s|s| |s m e]; intros H; try congruence.
  - reflexivity.
  - destruct s; reflexivity.
  - simpl. rewrite Z.compare_refl, Pos.compare_cont_refl. destruct s; reflexivity.
Qed.

Lemma is_nan_not_positive (v : float) :
  is_nan v = true -> (0 <? v) = false.
Proof.
  unfold is_nan. rewrite FloatAxioms.eqb_spec, FloatAxioms.ltb_spec. unfold SFeqb.
  destruct (Prim2SF v) as [s|s| |s m e] eqn:E; try reflexivity;
    rewrite SFcompare_refl by discriminate; discriminate.
Qed.

End FloatOrder.

(** ** [Array.prototype.sort] *)

Section ArraySortFacts.

Context {A : Type}.
Variable comparefn : A -> A -> float.

Lemma SortCompare_positive (x y : A) :
  (0 <? SortCompare comparefn x y)%float = (0 <? comparefn x y)%float.
Proof.
  unfold SortCompare. destruct (is_nan (comparefn x y)) eqn:E; [|reflexivity].
  rewrite (is_nan_not_positive _ E). reflexivity.
Qed.

Lemma sort_insert_Permutation (x : A) (l : list A) :
  Permutation (sort_insert comparefn x l) (x :: l).
Proof.
  induction l as [|y l IH]; simpl; [reflexivity|].
  destruct (0 <? SortCompare comparefn x y)%float; [|reflexivity].
  rewrite IH. apply perm_swap.
Qed.

Lemma Array_sort_Permutation (l : list A) :
  Permutation (Array_sort comparefn l) l.
Proof.
  induction l as [|x l IH]; simpl; [reflexivity|].
  rewrite sort_insert_Permutation, IH. reflexivity.
Qed.

Lemma Array_sort_In (l : list A) (x : A) :
  In x (Array_sort comparefn l) <-> In x l.
Proof.
  split; apply Permutation_in;
    [|symmetry]; apply Array_sort_Permutation.
Qed.

End ArraySortFacts.

(** ** The lists of a successful fetch *)

Section TokenOrder.

Lemma descending_rank (a b : TokenBalance) :
  valued a -> valued b ->
  descending a b <-> (rank (Prim2SF (usd b)) <= rank (Prim2SF (usd a)))%Z.
Proof.
  intros Ha Hb. unfold descending. rewrite leb_rank by auto.
  apply Z.leb_le.
Qed.

Lemma descending_trans (a b c : TokenBalance) :
  valued a -> valued b -> valued c ->
  descending a b -> descending b c -> descending a c.
Proof.
  intros Ha Hb Hc. rewrite !descending_rank by auto. lia.
Qed.

Lemma comparator_positive (a b : TokenBalance) :
  valued a -> valued b ->
  (0 <? SortCompare by_usd_descending a b)%float = (usd a <? usd b)%float.
Proof.
  intros Ha Hb. rewrite SortCompare_positive. unfold by_usd_descending.
  apply sub_positive_ltb; auto.
Qed.

(** Placed behind: [a] goes after [b] only if [b] is worth at least as
    much. *)
Lemma placed_behind (a b : TokenBalance) :
  valued a -> valued b ->
  (0 <? SortCompare by_usd_descending a b)%float = true -> descending b a.
Proof.
  intros Ha Hb. rewrite comparator_positive, ltb_rank by auto.
  rewrite descending_rank by auto. rewrite Z.ltb_lt. lia.
Qed.

Lemma placed_before (a b : TokenBalance) :
  valued a -> valued b ->
  (0 <? SortCompare by_usd_descending a b)%float = false -> descending a b.
Proof.
  intros Ha Hb. rewrite comparator_positive, ltb_rank by auto.
  rewrite descending_rank by auto. rewrite Z.ltb_ge. lia.
Qed.

Lemma sort_insert_Forall (P : TokenBalance -> Prop) x l :
  P x -> Forall P l -> Forall P (sort_insert by_usd_descending x l).
Proof.
  intros Hx Hl. eapply Permutation_Forall.
  - symmetry. apply sort_insert_Permutation.
  - constructor; auto.
Qed.

Lemma sort_insert_sorted (x : TokenBalance) (l : list TokenBalance) :
  valued x -> Forall valued l ->
  StronglySorted descending l ->
  StronglySorted descending (sort_insert by_usd_descending x l).
Proof.
  intros Hx Hv Hs. induction Hs as [|y l Hs IH Hy]; simpl.
  - repeat constructor.
  - inversion Hv as [|? ? Vy Vl]; subst.
    destruct (0 <? SortCompare by_usd_descending x y)%float eqn:E.
    + constructor; [apply IH; auto|].
      apply sort_insert_Forall; auto. apply placed_behind; auto.
    + pose proof (placed_before x y Hx Vy E) as Hxy.
      constructor; [constructor; auto|].
      constructor; auto.
      rewrite List.Forall_forall in *. intros z Hz.
      apply descending_trans with y; auto.
Qed.

Lemma Array_sort_sorted (l : list TokenBalance) :
  Forall valued l ->
  StronglySorted descending (Array_sort by_usd_descending l).
Proof.
  induction 1 as [|x l Hx Hl IH]; simpl; [constructor|].
  apply sort_insert_sorted; auto.
  eapply Permutation_Forall; [symmetry; apply Array_sort_Permutation|]; auto.
Qed.

Lemma filter_valid_valued (l : list TokenBalance) :
  Forall valued (List.filter is_valid_token l).
Proof.
  apply List.Forall_forall. intros t Ht. apply filter_In in Ht as [_ Ht].
  unfold is_valid_token in Ht. apply andb_true_iff in Ht. exact (proj2 Ht).
Qed.

Lemma StronglySorted_filter {A} (R : A -> A -> Prop) (f : A -> bool) (l : list A) :
  StronglySorted R l -> StronglySorted R (List.filter f l).
Proof.
  induction 1 as [|x l Hs IH Hx]; simpl; [constructor|].
  destruct (f x); auto. constructor; auto.
  rewrite List.Forall_forall in *. intros y Hy. apply filter_In in Hy. apply Hx, Hy.
Qed.

End TokenOrder.

(** The state a resolved request leaves. *)
Lemma fetchBalances_settle_Resolved (result : list TokenBalance) (s : State) :
  allBalances (fetchBalances_settle (Resolved result) s)
  = Array_sort by_usd_descending (List.filter is_valid_token result)
  /\ balances (fetchBalances_settle (Resolved result) s)
     = List.filter at_least_10 (allBalances (fetchBalances_settle (Resolved result) s))
  /\ totalValue (fetchBalances_settle (Resolved result) s)
     = sum_usd (allBalances (fetchBalances_settle (Resolved result) s)).
Proof. repeat split. Qed.

Lemma fetchBalances_passed (key : option string) (o : Outcome) (s : State) :
  snd (fetchBalances_submit key s) = true ->
  fetchBalances key o s = fetchBalances_settle o (fst (fetchBalances_submit key s)).
Proof.
  intros H. unfold fetchBalances.
  destruct (fetchBalances_submit key s) as [s' aw]. simpl in *. subst aw.
  reflexivity.
Qed.

(** C2. After a run of [fetchBalances] whose request resolved, the list
    of all balances is in descending order of [usd_value] (it is the
    valid tokens of the response, sorted), the filtered list is the
    sublist of it with [usd_value >= 10], and the total is the sum of
    [usd_value] over the list of all balances; on the sample response the
    sum over the filtered list is a different number. *)
Theorem fetchBalances_success_lists :
  (forall (key : option string) (result : list TokenBalance) (s : State),
     snd (fetchBalances_submit key s) = true ->
     StronglySorted descending (allBalances (fetchBalances key (Resolved result) s))
     /\ Permutation (allBalances (fetchBalances key (Resolved result) s))
          (List.filter is_valid_token result)
     /\ balances (fetchBalances key (Resolved result) s)
        = List.filter at_least_10
            (allBalances (fetchBalances key (Resolved result) s))
     /\ totalValue (fetchBalances key (Resolved result) s)
        = sum_usd (allBalances (fetchBalances key (Resolved result) s)))
  /\ (allBalances state_after_fetch
      = [sample_token "BBB" false (Num 15);
         sample_token "CCC" false (Num 10);
         sample_token "AAA" false (Num 5)]
      /\ balances state_after_fetch
         = [sample_token "BBB" false (Num 15);
            sample_token "CCC" false (Num 10)]
      /\ totalValue state_after_fetch = 30%float
      /\ sum_usd (balances state_after_fetch) = 25%float).
Proof.
  split.
  - intros key result s Hp. rewrite fetchBalances_passed by auto.
    destruct (fetchBalances_settle_Resolved result (fst (fetchBalances_submit key s)))
      as (Ea & Eb & Et).
    rewrite Eb, Et, Ea. repeat split.
    + apply Array_sort_sorted, filter_valid_valued.
    + apply Array_sort_Permutation.
  - repeat split; vm_compute; reflexivity.
Qed.

(** ** The two lists in every reachable state *)

Lemma sublist_filter_of {A} (f : A -> bool) (l : list A) :
  sublist (List.filter f l) l.
Proof.
  induction l as [|x l IH]; simpl; [constructor|].
  destruct (f x); [apply sublist_skip | apply sublist_cons]; auto.
Qed.

(** The updates applied one by one give what the handler gives. *)
Lemma apply_all_settle_updates (o : Outcome) (s : State) :
  apply_all (settle_updates o) s = fetchBalances_settle o s.
Proof. destruct o; reflexivity. Qed.

Lemma apply_all_submit_updates (key : option string) (s : State) :
  snd (fetchBalances_submit key s) = true ->
  apply_all (submit_updates s) s = fst (fetchBalances_submit key s).
Proof.
  through_guards discriminate. reflexivity.
Qed.

Lemma lists_agree_initial (stored : option (list string)) :
  lists_agree (initial_State stored).
Proof. split; [reflexivity|]. split; [constructor | discriminate]. Qed.

Lemma lists_agree_submit (key : option string) (s : State) :
  loading s = false ->
  lists_agree s -> lists_agree (fst (fetchBalances_submit key s)).
Proof.
  intros Hl H. through_guards ltac:(exact H).
  split; [reflexivity|]. split; [constructor | auto].
Qed.

Lemma lists_agree_settle (o : Outcome) (s : State) :
  lists_agree s -> lists_agree (fetchBalances_settle o s).
Proof.
  intros (E & Hs & _). destruct o as [result|err].
  - destruct (fetchBalances_settle_Resolved result s) as (Ea & Eb & _).
    split; [exact Eb|]. split; [|discriminate]. rewrite Ea.
    apply Array_sort_sorted, filter_valid_valued.
  - split; [exact E|]. split; [exact Hs | discriminate].
Qed.

Lemma lists_agree_step (key : option string) (s s' : State) :
  step key s s' -> lists_agree s -> lists_agree s'.
Proof.
  intros Hstep H. destruct Hstep; try exact H.
  - unfold load_recentAddresses.
    destruct (localStorage_recentAddresses s); exact H.
  - apply lists_agree_submit; auto.
  - apply lists_agree_settle; auto.
Qed.

Lemma lists_agree_reachable (key : option string) (s : State) :
  reachable key s -> lists_agree s.
Proof.
  induction 1 as [stored|s s' _ IH Hstep].
  - apply lists_agree_initial.
  - eapply lists_agree_step; eauto.
Qed.

Lemma lists_agree_nested (s : State) : lists_agree s -> lists_nested s.
Proof.
  intros (E & Hs & _). unfold lists_nested. rewrite E.
  split; [apply sublist_filter_of|]. split; [exact Hs|].
  split; [apply StronglySorted_filter; exact Hs | reflexivity].
Qed.

(** A part of a list of updates that has been applied is the list cut at
    some length. *)
Lemma applied_firstn {A} (l applied rest : list A) :
  l = (applied ++ rest)%list -> applied = firstn (length applied) l.
Proof. intros ->. rewrite firstn_app, Nat.sub_diag, firstn_all. simpl. rewrite app_nil_r. reflexivity. Qed.

Lemma lists_nested_submitting (s : State) (applied rest : list (State -> State)) :
  lists_agree s -> loading s = false ->
  submit_updates s = (applied ++ rest)%list ->
  lists_nested (apply_all applied s).
Proof.
  intros H Hl E. pose proof (lists_agree_nested s H) as (N1 & N2 & N3 & N4).
  rewrite (applied_firstn _ _ _ E). unfold submit_updates.
  destruct (length applied) as [|[|[|[|[|[|[|[|n]]]]]]]];
    cbn [firstn]; rewrite ?firstn_nil;
    cbn [apply_all fold_left]; unfold lists_nested;
    cbn [balances allBalances loading setRecentAddresses localStorage_setItem
         setLoading setError setBalances setAllBalances setShowAll
         moralisApi_get];
    repeat split; auto using sublist_nil_l; try constructor; try discriminate.
Qed.

Lemma lists_nested_settling (o : Outcome) (s : State)
  (applied rest : list (State -> State)) :
  lists_agree s -> loading s = true ->
  settle_updates o = (applied ++ rest)%list ->
  lists_nested (apply_all applied s).
Proof.
  intros H Hl E. pose proof (lists_agree_nested s H) as (N1 & N2 & N3 & N4).
  destruct H as (_ & _ & H). destruct (H Hl) as [Eb Ea].
  rewrite (applied_firstn _ _ _ E).
  destruct o as [result|err]; unfold settle_updates.
  - pose proof (Array_sort_sorted _ (filter_valid_valued result)) as Hs.
    destruct (length applied) as [|[|[|[|n]]]];
      cbn [firstn]; rewrite ?firstn_nil;
      cbn [apply_all fold_left]; unfold lists_nested;
      cbn [balances allBalances loading setTotalValue
           setLoading setError setBalances setAllBalances];
      rewrite ?Eb, ?Ea, ?Hl;
      repeat split; auto using sublist_nil_l, sublist_filter_of;
      try discriminate; try constructor;
      try (apply StronglySorted_filter; exact Hs).
  - destruct (length applied) as [|[|n]];
      cbn [firstn]; rewrite ?firstn_nil;
      cbn [apply_all fold_left]; unfold lists_nested;
      cbn [balances allBalances loading setLoading setError];
      rewrite ?Eb, ?Ea, ?Hl;
      repeat split; auto using sublist_nil_l; try discriminate;
      try constructor.
Qed.

Lemma lists_nested_rendered (key : option string) (s : State) :
  rendered key s -> lists_nested s.
Proof.
  intros [s' Hr|s' applied rest Hr Hl _ E|o s' applied rest Hr Hl E].
  - apply lists_agree_nested, (lists_agree_reachable key); exact Hr.
  - eapply lists_nested_submitting; eauto using lists_agree_reachable.
  - eapply lists_nested_settling; eauto using lists_agree_reachable.
Qed.

(** C3. At every render, between events or in the middle of a run of
    [fetchBalances], the filtered list is a sublist of the list of all
    balances, in the same order, and both are in descending order of
    [usd_value]. Whenever no request is awaited, and in every state
    between events, the filtered list is the list of all balances
    restricted to the entries with [usd_value >= 10]: exactly those
    entries. *)
Theorem balances_sublist_of_allBalances :
  forall (key : option string) (s : State),
    rendered key s ->
    sublist (balances s) (allBalances s)
    /\ StronglySorted descending (allBalances s)
    /\ StronglySorted descending (balances s)
    /\ (loading s = false \/ reachable key s ->
        balances s = List.filter at_least_10 (allBalances s)
        /\ forall token : TokenBalance,
             In token (balances s) <->
             In token (allBalances s) /\ (10 <=? usd token)%float = true).
Proof.
  intros key s Hr. destruct (lists_nested_rendered key s Hr) as (N1 & N2 & N3 & N4).
  split; [exact N1|]. split; [exact N2|]. split; [exact N3|].
  intros H.
  assert (E : balances s = List.filter at_least_10 (allBalances s)).
  { destruct H as [H|H]; [exact (N4 H)|].
    apply (lists_agree_reachable key s H). }
  split; [exact E|]. intros token. rewrite E, filter_In. unfold at_least_10.
  tauto.
Qed.

Lemma state_after_fetch_reachable : reachable (Some "key") state_after_fetch.
Proof.
  unfold state_after_fetch.
  eapply reachable_step.
  - eapply reachable_step.
    + eapply reachable_step.
      * apply (reachable_initial _ None).
      * apply (step_type _ "0x52908400098527886E0F7030069857D2E4169EE7").
    + apply step_check. reflexivity.
  - apply step_settle. reflexivity.
Qed.

Lemma balances_sublist_of_allBalances_witness :
  sublist (balances state_after_fetch) (allBalances state_after_fetch)
  /\ StronglySorted descending (allBalances state_after_fetch)
  /\ StronglySorted descending (balances state_after_fetch)
  /\ (loading state_after_fetch = false
       \/ reachable (Some "key") state_after_fetch ->
      balances state_after_fetch
      = List.filter at_least_10 (allBalances state_after_fetch)
      /\ forall token : TokenBalance,
           In token (balances state_after_fetch) <->
           In token (allBalances state_after_fetch)
           /\ (10 <=? usd token)%float = true).
Proof.
  apply (balances_sublist_of_allBalances (Some "key") state_after_fetch).
  apply rendered_between. apply state_after_fetch_reachable.
Defined.

(** ** Which tokens are shown at all *)

Lemma not_positive_without_value (token : TokenBalance) :
  usd_value token = Null \/ usd_value token = Undefined
  \/ usd_value token = Num 0 \/ usd_value token = Num (-0) ->
  (0 <? usd token)%float = false.
Proof.
  unfold usd. intros [-> | [-> | [-> | ->]]]; reflexivity.
Qed.

(** C9. After a resolved request the list of all balances holds exactly
    the tokens of the response that are not flagged as possible spam and
    have a [usd_value] above zero; a token flagged as spam, or whose
    [usd_value] is [null], absent or zero, is in neither list, and the
    total is the sum over the list of all balances. *)
Theorem only_valid_tokens_listed :
  forall (result : list TokenBalance) (s : State),
    (forall token : TokenBalance,
       In token (allBalances (fetchBalances_settle (Resolved result) s)) <->
       In token result /\ possible_spam token = false
       /\ (0 <? usd token)%float = true)
    /\ (forall token : TokenBalance,
          In token (balances (fetchBalances_settle (Resolved result) s)) ->
          In token (allBalances (fetchBalances_settle (Resolved result) s)))
    /\ (forall token : TokenBalance,
          possible_spam token = true
          \/ usd_value token = Null \/ usd_value token = Undefined
          \/ usd_value token = Num 0 \/ usd_value token = Num (-0) ->
          ~ In token (allBalances (fetchBalances_settle (Resolved result) s))
          /\ ~ In token (balances (fetchBalances_settle (Resolved result) s)))
    /\ totalValue (fetchBalances_settle (Resolved result) s)
       = sum_usd (allBalances (fetchBalances_settle (Resolved result) s)).
Proof.
  intros result s.
  destruct (fetchBalances_settle_Resolved result s) as (Ea & Eb & Et).
  assert (Hall : forall token,
    In token (allBalances (fetchBalances_settle (Resolved result) s)) <->
    In token result /\ possible_spam token = false
    /\ (0 <? usd token)%float = true).
  { intros token. rewrite Ea, Array_sort_In, filter_In.
    unfold is_valid_token. rewrite andb_true_iff, negb_true_iff. tauto. }
  assert (Hsub : forall token,
    In token (balances (fetchBalances_settle (Resolved result) s)) ->
    In token (allBalances (fetchBalances_settle (Resolved result) s))).
  { intros token. rewrite Eb. intros H. apply filter_In in H. tauto. }
  split; [exact Hall|]. split; [exact Hsub|]. split; [|exact Et].
  intros token H.
  assert (Hn : ~ In token (allBalances (fetchBalances_settle (Resolved result) s))).
  { intros Hin. apply Hall in Hin as (_ & Hs & Hv).
    destruct H as [H|H]; [congruence|].
    apply not_positive_without_value in H. congruence. }
  split; [exact Hn|]. intros Hin. apply Hn, Hsub, Hin.
Qed.

(** ** Decimal digits *)

Section DecimalFacts.

Import NumberToString.
Local Open Scope Z_scope.

Lemma digit_cases (d : Z) :
  0 <= d < 10 ->
  d = 0 \/ d = 1 \/ d = 2 \/ d = 3 \/ d = 4 \/ d = 5 \/ d = 6 \/ d = 7
  \/ d = 8 \/ d = 9.
Proof. lia. Qed.

Lemma is_digit_digit_char (d : Z) :
  0 <= d < 10 -> is_digit (digit_char d) = true.
Proof.
  intros H. apply digit_cases in H.
  repeat (destruct H as [->|H]; [reflexivity|]). subst; reflexivity.
Qed.

Lemma digit_char_nonzero (d : Z) (s : string) :
  1 <= d < 10 ->
  drop_leading_zeros (String (digit_char d) s) = String (digit_char d) s.
Proof.
  intros H. assert (H' : 0 <= d < 10) by lia. apply digit_cases in H'.
  destruct H' as [->|H']; [lia|].
  repeat (destruct H' as [->|H']; [reflexivity|]). subst; reflexivity.
Qed.

Lemma all_digits_app (a b : string) :
  all_digits (a ++ b) = all_digits a && all_digits b.
Proof.
  induction a as [|c a IH]; simpl; auto. rewrite IH, andb_assoc; auto.
Qed.

Lemma length_app (a b : string) :
  String.length (a ++ b) = (String.length a + String.length b)%nat.
Proof. induction a as [|c a IH]; simpl; auto. Qed.

(** What [decimal_aux] puts in front of the accumulator. *)
Lemma decimal_aux_spec (fuel : nat) :
  forall (n : Z) (acc : string),
    0 <= n -> n < 10 ^ Z.of_nat fuel -> (0 < fuel)%nat ->
    exists ds : string,
      decimal_aux fuel n acc = ds ++ acc
      /\ all_digits ds = true
      /\ (1 <= String.length ds)%nat
      /\ (0 < n ->
          10 ^ (Z.of_nat (String.length ds) - 1) <= n
          /\ n < 10 ^ Z.of_nat (String.length ds)
          /\ forall t, drop_leading_zeros (ds ++ t) = ds ++ t)
      /\ (n = 0 -> ds = "0").
Proof.
  induction fuel as [|fuel IH]; intros n acc Hn Hlt Hf; [lia|].
  simpl decimal_aux.
  assert (Hd : 0 <= n mod 10 < 10) by (apply Z.mod_pos_bound; lia).
  pose proof (Z.div_mod n 10 ltac:(lia)) as Hdm.
  destruct (Z.eqb_spec (n / 10) 0) as [Hq|Hq].
  - exists (String (digit_char (n mod 10)) "").
    cbn [String.append all_digits String.length].
    rewrite is_digit_digit_char by auto.
    split; [reflexivity|]. split; [reflexivity|]. split; [lia|].
    split.
    + intros Hpos. change (Z.of_nat 1 - 1) with 0. change (Z.of_nat 1) with 1.
      rewrite Z.pow_0_r, Z.pow_1_r. split; [lia|]. split; [lia|].
      intros t. apply digit_char_nonzero. lia.
    + intros ->. reflexivity.
  - assert (Hq' : 0 < n / 10) by (pose proof (Z.div_pos n 10); lia).
    assert (Hlt' : n / 10 < 10 ^ Z.of_nat fuel).
    { apply Z.div_lt_upper_bound; [lia|].
      rewrite Nat2Z.inj_succ, Z.pow_succ_r in Hlt by lia. lia. }
    assert (Hf' : (0 < fuel)%nat).
    { destruct fuel; [simpl in Hlt'; lia | lia]. }
    destruct (IH (n / 10) (String (digit_char (n mod 10)) acc)
                ltac:(lia) Hlt' Hf')
      as (ds & E & Hall & Hlen & Hpos & _).
    destruct (Hpos Hq') as (Hlo & Hhi & Hlead).
    exists (ds ++ String (digit_char (n mod 10)) "").
    rewrite E, append_assoc'. cbn [String.append].
    rewrite all_digits_app, Hall. cbn [all_digits andb].
    rewrite is_digit_digit_char by auto.
    rewrite length_app. cbn [String.length].
    split; [reflexivity|]. split; [reflexivity|]. split; [lia|].
    split; [|lia]. intros _.
    replace (Z.of_nat (String.length ds + 1) - 1)
      with (Z.succ (Z.of_nat (String.length ds) - 1)) by lia.
    replace (Z.of_nat (String.length ds + 1))
      with (Z.succ (Z.of_nat (String.length ds))) by lia.
    rewrite !Z.pow_succ_r by lia.
    split; [lia|]. split; [lia|].
    intros t. rewrite append_assoc'. apply Hlead.
Qed.

Lemma decimal_fuel (n : Z) :
  0 <= n -> n < 10 ^ Z.of_nat (S (Z.to_nat (Z.log2 n))).
Proof.
  intros Hn. rewrite Nat2Z.inj_succ, Z2Nat.id by apply Z.log2_nonneg.
  destruct (Z.eq_dec n 0) as [->|Hne]; [reflexivity|].
  pose proof (Z.log2_spec n ltac:(lia)) as [_ H].
  eapply Z.lt_le_trans; [exact H|].
  apply Z.pow_le_mono_l. pose proof (Z.log2_nonneg n). lia.
Qed.

Lemma decimal_spec (n : Z) :
  0 <= n ->
  all_digits (decimal n) = true
  /\ (1 <= String.length (decimal n))%nat
  /\ (0 < n ->
      10 ^ (Z.of_nat (String.length (decimal n)) - 1) <= n
      /\ n < 10 ^ Z.of_nat (String.length (decimal n))
      /\ forall t, drop_leading_zeros (decimal n ++ t) = decimal n ++ t)
  /\ (n = 0 -> decimal n = "0").
Proof.
  intros Hn. unfold decimal.
  destruct (decimal_aux_spec (S (Z.to_nat (Z.log2 n))) n "" Hn
              (decimal_fuel n Hn) ltac:(lia))
    as (ds & E & H).
  rewrite E, append_empty_r. exact H.
Qed.

(** A number with [k] digits: [10^(k-1) <= n < 10^k]. *)
Lemma decimal_length (n : Z) (k : nat) :
  10 ^ (Z.of_nat k - 1) <= n < 10 ^ Z.of_nat k -> (0 < k)%nat ->
  String.length (decimal n) = k.
Proof.
  intros [Hlo Hhi] Hk.
  assert (Hn : 0 < n).
  { eapply Z.lt_le_trans; [|exact Hlo]. apply Z.pow_pos_nonneg; lia. }
  destruct (decimal_spec n ltac:(lia)) as (_ & Hlen & Hpos & _).
  destruct (Hpos Hn) as (Hlo' & Hhi' & _).
  set (j := String.length (decimal n)) in *.
  destruct (Nat.lt_total j k) as [Hlt|[Heq|Hgt]]; auto.
  - assert (10 ^ Z.of_nat j <= 10 ^ (Z.of_nat k - 1))
      by (apply Z.pow_le_mono_r; lia). lia.
  - assert (10 ^ Z.of_nat k <= 10 ^ (Z.of_nat j - 1))
      by (apply Z.pow_le_mono_r; lia). lia.
Qed.

End DecimalFacts.

(** ** Pieces of strings *)

Section StringFacts.

Import NumberToString.

Lemma all_digits_zeros (k : nat) : all_digits (zeros k) = true.
Proof. induction k; simpl; auto. Qed.

Lemma length_zeros (k : nat) : String.length (zeros k) = k.
Proof. induction k; simpl; auto. Qed.

Lemma take_drop (k : nat) (s : string) : take k s ++ drop k s = s.
Proof.
  revert s; induction k as [|k IH]; intros [|c s]; simpl; auto.
  rewrite IH; auto.
Qed.

Lemma length_take (k : nat) (s : string) :
  (k <= String.length s)%nat -> String.length (take k s) = k.
Proof.
  revert s; induction k as [|k IH]; intros [|c s]; simpl; intros H; auto.
  - lia.
  - rewrite IH; auto. lia.
Qed.

Lemma length_drop (k : nat) (s : string) :
  String.length (drop k s) = (String.length s - k)%nat.
Proof.
  revert s; induction k as [|k IH]; intros [|c s]; simpl; auto.
Qed.

Lemma all_digits_take (k : nat) (s : string) :
  all_digits s = true -> all_digits (take k s) = true.
Proof.
  revert s; induction k as [|k IH]; intros [|c s]; simpl; auto.
  rewrite !andb_true_iff. intros [? ?]; auto.
Qed.

Lemma all_digits_drop (k : nat) (s : string) :
  all_digits s = true -> all_digits (drop k s) = true.
Proof.
  revert s; induction k as [|k IH]; intros [|c s]; simpl; auto.
  rewrite !andb_true_iff. intros [? ?]; auto.
Qed.

Lemma lacks_app (c : ascii) (a b : string) :
  lacks c (a ++ b) = lacks c a && lacks c b.
Proof.
  induction a as [|d a IH]; simpl; auto. rewrite IH, andb_assoc; auto.
Qed.

Lemma all_digits_lacks (c : ascii) (s : string) :
  is_digit c = false -> all_digits s = true -> lacks c s = true.
Proof.
  intros Hc. induction s as [|d s IH]; simpl; auto.
  rewrite andb_true_iff. intros [Hd Hs]. rewrite IH by auto.
  destruct (Ascii.eqb_spec d c) as [->|]; [congruence | reflexivity].
Qed.

Lemma split_at_lacks (c : ascii) (a b : string) :
  lacks c a = true -> split_at c (a ++ String c b) = Some (a, b).
Proof.
  induction a as [|d a IH]; simpl.
  - intros _. rewrite Ascii.eqb_refl. reflexivity.
  - rewrite andb_true_iff, negb_true_iff. intros [-> H].
    rewrite IH by auto. reflexivity.
Qed.

Lemma split_at_none (c : ascii) (s : string) :
  lacks c s = true -> split_at c s = None.
Proof.
  induction s as [|d s IH]; simpl; auto.
  rewrite andb_true_iff, negb_true_iff. intros [-> H].
  rewrite IH by auto. reflexivity.
Qed.

Lemma strip_sign_digit (c : ascii) (s : string) :
  is_digit c = true -> strip_sign (String c s) = String c s.
Proof.
  destruct c as [[] [] [] [] [] [] [] []]; intros H; try reflexivity;
    discriminate.
Qed.

Lemma strip_sign_digits (s : string) :
  digits s = true -> strip_sign s = s.
Proof.
  unfold digits. destruct s as [|c s]; simpl; [discriminate|].
  rewrite andb_true_iff. intros [H _]. apply strip_sign_digit; auto.
Qed.

Lemma digits_app_l (a b : string) :
  digits a = true -> all_digits b = true -> digits (a ++ b) = true.
Proof.
  unfold digits. destruct a as [|c a]; simpl; [discriminate|].
  rewrite all_digits_app, !andb_true_iff. tauto.
Qed.

Lemma strip_sign_sign_string (sg : bool) (s : string) :
  digits s = true -> strip_sign (sign_string sg ++ s) = s.
Proof.
  intros H. destruct sg; simpl.
  - reflexivity.
  - apply strip_sign_digits; auto.
Qed.

Lemma strip_sign_sign_string_app (sg : bool) (a b : string) :
  digits a = true -> strip_sign (sign_string sg ++ a ++ b) = a ++ b.
Proof.
  intros H. destruct sg; simpl; [reflexivity|].
  unfold digits in H. destruct a as [|c a]; simpl in *; [discriminate|].
  apply andb_true_iff in H as [H _]. apply strip_sign_digit; auto.
Qed.

Lemma fixed_form_intro (f : nat) (sg : bool) (int frac : string) :
  digits int = true -> all_digits frac = true -> String.length frac = f ->
  fixed_form f (sign_string sg ++ int ++ "." ++ frac) = true.
Proof.
  intros Hi Hf Hl. unfold fixed_form.
  rewrite strip_sign_sign_string_app by auto.
  change ("." ++ frac) with (String "." frac).
  rewrite split_at_lacks.
  - rewrite Hi, Hf, Hl, Nat.eqb_refl. reflexivity.
  - apply all_digits_lacks; [reflexivity|].
    unfold digits in Hi. apply andb_true_iff in Hi. tauto.
Qed.

(** [point_at] splits the digits in two around the point. *)
Lemma point_at_parts (f : nat) (m : string) :
  (0 < f)%nat -> digits m = true ->
  exists int frac : string,
    point_at f m = int ++ "." ++ frac
    /\ digits int = true /\ all_digits frac = true
    /\ String.length frac = f
    /\ (f < String.length m -> int ++ frac = m)%nat.
Proof.
  intros Hf Hm. unfold digits in Hm. apply andb_true_iff in Hm as [Hne Hm].
  assert (Hlen : (1 <= String.length m)%nat)
    by (destruct m; [discriminate | simpl; lia]).
  destruct f as [|f]; [lia|]. unfold point_at.
  set (m' := if (String.length m <=? S f)%nat
             then zeros (S f + 1 - String.length m) ++ m else m).
  assert (Hm' : all_digits m' = true).
  { unfold m'. destruct (_ <=? _)%nat; auto.
    rewrite all_digits_app, all_digits_zeros; auto. }
  assert (Hl' : (S f + 1 <= String.length m')%nat).
  { unfold m'. destruct (Nat.leb_spec (String.length m) (S f)).
    - rewrite length_app, length_zeros. lia.
    - lia. }
  exists (take (String.length m' - S f) m'), (drop (String.length m' - S f) m').
  split; [reflexivity|]. split; [|split; [|split]].
  - unfold digits. rewrite all_digits_take by auto. rewrite andb_true_r.
    assert (H : String.length (take (String.length m' - S f) m')
                = (String.length m' - S f)%nat) by (apply length_take; lia).
    destruct (take (String.length m' - S f) m'); [simpl in H; lia | reflexivity].
  - apply all_digits_drop; auto.
  - rewrite length_drop. lia.
  - intros Hlt. rewrite take_drop. unfold m'.
    destruct (Nat.leb_spec (String.length m) (S f)); [lia | reflexivity].
Qed.

Lemma digits_decimal (n : Z) : (0 <= n)%Z -> digits (decimal n) = true.
Proof.
  intros Hn. destruct (decimal_spec n Hn) as (Ha & Hl & _).
  unfold digits. rewrite Ha, andb_true_r.
  destruct (decimal n); [simpl in Hl; lia | reflexivity].
Qed.

End StringFacts.

(** ** The exact value of a number *)

Section FractionFacts.

Import NumberToString.
Local Open Scope Z_scope.

Lemma fraction_of_positive (m : positive) (e : Z) :
  0 < fst (fraction_of m e) /\ 0 < snd (fraction_of m e).
Proof.
  unfold fraction_of. destruct (0 <=? e) eqn:E; cbn [fst snd].
  - apply Z.leb_le in E.
    assert (0 < 2 ^ e) by (apply Z.pow_pos_nonneg; lia). nia.
  - apply Z.leb_gt in E.
    assert (0 < 2 ^ (- e)) by (apply Z.pow_pos_nonneg; lia). lia.
Qed.

(** [p/q] is the value: [p * 2^1074 = rank * q]. *)
Lemma fraction_of_rank (s : bool) (m : positive) (e : Z) :
  -1074 <= e ->
  fst (fraction_of m e) * 2 ^ 1074
  = rank (S754_finite s m e) * snd (fraction_of m e).
Proof.
  intros He. unfold fraction_of, rank. destruct (0 <=? e) eqn:E; cbn [fst snd].
  - apply Z.leb_le in E. rewrite Z.pow_add_r by lia. lia.
  - apply Z.leb_gt in E. rewrite <- Z.mul_assoc, <- Z.pow_add_r by lia.
    replace (e + 1074 + - e) with 1074 by lia. reflexivity.
Qed.

Lemma nearest_int_nonneg (p q : Z) : 0 <= p -> 0 < q -> 0 <= nearest_int p q.
Proof. intros Hp Hq. unfold nearest_int. apply Z.div_pos; lia. Qed.

(** [nearest_int p q] is the integer nearest to [p/q], and of two nearest
    ones the larger. *)
Lemma nearest_int_closest (p q k : Z) :
  0 < q ->
  Z.abs (nearest_int p q * q - p) <= Z.abs (k * q - p)
  /\ (Z.abs (k * q - p) = Z.abs (nearest_int p q * q - p) ->
      k <= nearest_int p q).
Proof.
  intros Hq. unfold nearest_int.
  pose proof (Z.div_mod (2 * p + q) (2 * q) ltac:(lia)) as Hdm.
  pose proof (Z.mod_pos_bound (2 * p + q) (2 * q) ltac:(lia)) as Hm.
  set (n := (2 * p + q) / (2 * q)) in *. clearbody n.
  assert (Hlo : - q < 2 * (n * q - p)) by nia.
  assert (Hhi : 2 * (n * q - p) <= q) by nia.
  destruct (Z_lt_le_dec k n) as [Hk|Hk].
  - assert (k * q <= n * q - q) by nia. lia.
  - destruct (Z.eq_dec k n) as [->|Hne]; [lia|].
    assert (n * q + q <= k * q) by nia. lia.
Qed.

End FractionFacts.

(** ** [toFixed] *)

Lemma toFixed_fixed_form (a : float) (f : nat) (s : bool) (m : positive)
  (e : Z) :
  Prim2SF a = S754_finite s m e ->
  (fst (NumberToString.fraction_of m e)
   < 10 ^ 21 * snd (NumberToString.fraction_of m e))%Z ->
  (0 < f)%nat ->
  fixed_form f (NumberToString.toFixed a f) = true.
Proof.
  intros Ea Hlt Hf. unfold NumberToString.toFixed. rewrite Ea.
  destruct (fraction_of_positive m e) as [Hp Hq].
  destruct (NumberToString.fraction_of m e) as [p q]. cbn [fst snd] in *.
  destruct (Z.leb_spec (10 ^ 21 * q) p) as [H|_]; [lia|].
  assert (Hn : (0 <= NumberToString.nearest_int (p * NumberToString.pow10 f) q)%Z).
  { apply nearest_int_nonneg; auto. unfold NumberToString.pow10.
    assert (0 < 10 ^ Z.of_nat f)%Z by (apply Z.pow_pos_nonneg; lia). nia. }
  destruct (point_at_parts f _ Hf (digits_decimal _ Hn))
    as (int & frac & -> & Hi & Hfr & Hl & _).
  apply fixed_form_intro; auto.
Qed.

(** ** Decimal exponent and significant digits *)

Section ScientificFacts.

Import NumberToString.
Local Open Scope Z_scope.

Lemma pow10_pos (x : Z) : 0 <= x -> 0 < 10 ^ x.
Proof. intros H. apply Z.pow_pos_nonneg; lia. Qed.

Lemma pow10_shift_le (a b x y t : Z) :
  0 <= x -> 0 <= y -> 0 <= t ->
  (a * 10 ^ x <= b * 10 ^ y <-> a * 10 ^ (x + t) <= b * 10 ^ (y + t)).
Proof.
  intros Hx Hy Ht. rewrite !Z.pow_add_r, !Z.mul_assoc by lia.
  pose proof (pow10_pos t Ht) as HT. revert HT.
  generalize (a * 10 ^ x) (b * 10 ^ y) (10 ^ t). intros u v w Hw. nia.
Qed.

Lemma pow10_shift_lt (a b x y t : Z) :
  0 <= x -> 0 <= y -> 0 <= t ->
  (a * 10 ^ x < b * 10 ^ y <-> a * 10 ^ (x + t) < b * 10 ^ (y + t)).
Proof.
  intros Hx Hy Ht. rewrite !Z.pow_add_r, !Z.mul_assoc by lia.
  pose proof (pow10_pos t Ht) as HT. revert HT.
  generalize (a * 10 ^ x) (b * 10 ^ y) (10 ^ t). intros u v w Hw. nia.
Qed.

Lemma decimal_bounds (n : Z) :
  0 < n ->
  (1 <= String.length (decimal n))%nat
  /\ 10 ^ (Z.of_nat (String.length (decimal n)) - 1) <= n
  /\ n < 10 ^ Z.of_nat (String.length (decimal n)).
Proof.
  intros Hn. destruct (decimal_spec n ltac:(lia)) as (_ & Hl & Hpos & _).
  destruct (Hpos Hn) as (Hlo & Hhi & _). auto.
Qed.

Lemma below_not_above (p q k : Z) : below_pow10 p q k <-> ~ above_pow10 p q k.
Proof. unfold below_pow10, above_pow10. lia. Qed.

(** [ilog10 p q] is the decimal exponent of [p/q]. *)
Lemma ilog10_spec (p q : Z) :
  0 < p -> 0 < q ->
  above_pow10 p q (ilog10 p q) /\ below_pow10 p q (ilog10 p q + 1).
Proof.
  intros Hp Hq.
  destruct (decimal_bounds p Hp) as (Lp & Plo & Phi).
  destruct (decimal_bounds q Hq) as (Lq & Qlo & Qhi).
  unfold ilog10, scale10.
  set (lp := Z.of_nat (String.length (decimal p))) in *.
  set (lq := Z.of_nat (String.length (decimal q))) in *.
  assert (Hlp : 1 <= lp) by (unfold lp; lia).
  assert (Hlq : 1 <= lq) by (unfold lq; lia).
  clearbody lp lq. clear Lp Lq.
  assert (A : below_pow10 p q (lp - lq + 1)).
  { unfold below_pow10.
    apply (pow10_shift_lt p q _ _ (lq - 1 - Z.max 0 (- (lp - lq + 1))));
      try lia.
    replace (Z.max 0 (- (lp - lq + 1)) + (lq - 1 - Z.max 0 (- (lp - lq + 1))))
      with (lq - 1) by lia.
    replace (Z.max 0 (lp - lq + 1) + (lq - 1 - Z.max 0 (- (lp - lq + 1))))
      with lp by lia.
    pose proof (pow10_pos (lq - 1) ltac:(lia)) as H1. revert Phi Qlo H1.
    generalize (10 ^ lp) (10 ^ (lq - 1)). intros u v. nia. }
  assert (B : above_pow10 p q (lp - lq - 1)).
  { unfold above_pow10.
    apply (pow10_shift_le q p _ _ (lp - 1 - Z.max 0 (lp - lq - 1))); try lia.
    replace (Z.max 0 (lp - lq - 1) + (lp - 1 - Z.max 0 (lp - lq - 1)))
      with (lp - 1) by lia.
    replace (Z.max 0 (- (lp - lq - 1)) + (lp - 1 - Z.max 0 (lp - lq - 1)))
      with lq by lia.
    pose proof (pow10_pos (lp - 1) ltac:(lia)) as H1. revert Plo Qhi H1.
    generalize (10 ^ lq) (10 ^ (lp - 1)). intros u v. nia. }
  destruct (Z.leb_spec (q * 10 ^ Z.max 0 (lp - lq))
                       (p * 10 ^ Z.max 0 (- (lp - lq)))) as [H|H].
  - split; [exact H | exact A].
  - split; [exact B|].
    replace (lp - lq - 1 + 1) with (lp - lq) by lia. exact H.
Qed.

Lemma nearest_int_bounds (p q lo hi : Z) :
  0 < q -> q * lo <= p -> p < q * hi ->
  lo <= nearest_int p q <= hi.
Proof.
  intros Hq Hlo Hhi. unfold nearest_int. split.
  - apply Z.div_le_lower_bound; nia.
  - assert ((2 * p + q) / (2 * q) < hi + 1); [|lia].
    apply Z.div_lt_upper_bound; nia.
Qed.

(** [scientific d p q] is an exponent and [d + 1] significant digits. *)
Lemma scientific_spec (d : nat) (p q : Z) :
  0 < p -> 0 < q ->
  pow10 d <= snd (scientific d p q) < pow10 (S d)
  /\ (fst (scientific d p q) = ilog10 p q
      \/ (fst (scientific d p q) = ilog10 p q + 1
          /\ snd (scientific d p q) = pow10 d)).
Proof.
  intros Hp Hq. destruct (ilog10_spec p q Hp Hq) as [Ha Hb].
  unfold scientific, nearest_scaled, scale10.
  set (e := ilog10 p q) in *. clearbody e.
  set (k := e - Z.of_nat d).
  assert (Hlo : q * 10 ^ Z.max 0 k * pow10 d <= p * 10 ^ Z.max 0 (- k)).
  { unfold pow10. rewrite <- Z.mul_assoc, <- Z.pow_add_r by lia.
    unfold above_pow10 in Ha.
    apply (pow10_shift_le q p _ _ (Z.max 0 (- k) - Z.max 0 (- e))) in Ha;
      try (unfold k; lia).
    replace (Z.max 0 k + Z.of_nat d)
      with (Z.max 0 e + (Z.max 0 (- k) - Z.max 0 (- e))) by (unfold k; lia).
    replace (Z.max 0 (- e) + (Z.max 0 (- k) - Z.max 0 (- e)))
      with (Z.max 0 (- k)) in Ha by lia.
    exact Ha. }
  assert (Hhi : p * 10 ^ Z.max 0 (- k) < q * 10 ^ Z.max 0 k * pow10 (S d)).
  { unfold pow10. rewrite <- Z.mul_assoc, <- Z.pow_add_r by lia.
    unfold below_pow10 in Hb.
    apply (pow10_shift_lt p q _ _ (Z.max 0 (- k) - Z.max 0 (- (e + 1)))) in Hb;
      try (unfold k; lia).
    replace (Z.max 0 k + Z.of_nat (S d))
      with (Z.max 0 (e + 1) + (Z.max 0 (- k) - Z.max 0 (- (e + 1))))
      by (unfold k; lia).
    replace (Z.max 0 (- (e + 1)) + (Z.max 0 (- k) - Z.max 0 (- (e + 1))))
      with (Z.max 0 (- k)) in Hb by lia.
    exact Hb. }
  assert (Hq' : 0 < q * 10 ^ Z.max 0 k).
  { pose proof (pow10_pos (Z.max 0 k) ltac:(lia)). nia. }
  pose proof (nearest_int_bounds _ _ _ _ Hq' Hlo Hhi) as [Hn1 Hn2].
  assert (Hmono : pow10 d < pow10 (S d)).
  { unfold pow10. apply Z.pow_lt_mono_r; lia. }
  destruct (Z.leb_spec (pow10 (S d))
              (nearest_int (p * 10 ^ Z.max 0 (- k)) (q * 10 ^ Z.max 0 k)))
    as [H|H]; cbn [fst snd].
  - split; [lia|]. right. auto.
  - split; [lia|]. left. reflexivity.
Qed.

End ScientificFacts.

(** ** [toExponential] and [toPrecision] *)

Section NotationFacts.

Import NumberToString.

Lemma decimal_of_digits (n : Z) (d : nat) :
  (pow10 d <= n < pow10 (S d))%Z ->
  exists (c : ascii) (b : string),
    decimal n = String c b
    /\ is_digit c = true /\ all_digits b = true /\ String.length b = d
    /\ drop_leading_zeros (decimal n) = decimal n.
Proof.
  intros [Hlo Hhi]. unfold pow10 in *.
  assert (Hn : (0 < n)%Z).
  { eapply Z.lt_le_trans; [|exact Hlo]. apply Z.pow_pos_nonneg; lia. }
  assert (Hlen : String.length (decimal n) = S d).
  { apply decimal_length; [|lia].
    replace (Z.of_nat (S d) - 1)%Z with (Z.of_nat d) by lia. lia. }
  destruct (decimal_spec n ltac:(lia)) as (Hall & _ & Hpos & _).
  destruct (Hpos Hn) as (_ & _ & Hlead).
  specialize (Hlead ""). rewrite append_empty_r in Hlead.
  destruct (decimal n) as [|c b]; [discriminate|].
  simpl in Hall, Hlen. apply andb_true_iff in Hall as [Hc Hb].
  exists c, b. repeat split; auto.
Qed.

Lemma digits_exponent (e : Z) : digits (decimal (Z.abs e)) = true.
Proof. apply digits_decimal. lia. Qed.

Lemma exponential_form_intro (f : nat) (sg : bool) (c : ascii) (b : string)
  (e : Z) :
  (0 < f)%nat ->
  is_digit c = true -> all_digits b = true -> String.length b = f ->
  exponential_form f
    (sign_string sg ++ mantissa_part (String c b) ++ exponent_part e) = true.
Proof.
  intros Hf Hc Hb Hl.
  assert (Em : mantissa_part (String c b) = String c (String "." b)).
  { destruct b; [simpl in Hl; lia | reflexivity]. }
  rewrite Em. unfold exponential_form, exponent_part.
  assert (Es : forall t,
             strip_sign (sign_string sg ++ String c (String "." b) ++ t)
             = String c (String "." b) ++ t).
  { intros t. destruct sg; cbn [sign_string String.append]; [reflexivity|].
    apply strip_sign_digit; auto. }
  rewrite Es.
  assert (Ee : forall t,
             split_at "e" (String c (String "." b) ++ "e" ++ t)
             = Some (String c (String "." b), t)).
  { intros t. apply (split_at_lacks "e" (String c (String "." b)) t).
    cbn [lacks]. rewrite (all_digits_lacks "e" b) by auto.
    destruct (Ascii.eqb_spec c "e") as [->|]; [discriminate | reflexivity]. }
  rewrite Ee.
  assert (Ef : fixed_form f (String c (String "." b)) = true).
  { apply (fixed_form_intro f false (String c "") b); auto.
    unfold digits. cbn [truthy_string all_digits]. rewrite Hc. reflexivity. }
  assert (Ep : split_at "." (String c (String "." b)) = Some (String c "", b)).
  { apply (split_at_lacks "." (String c "") b). cbn [lacks].
    destruct (Ascii.eqb_spec c ".") as [->|]; [discriminate | reflexivity]. }
  destruct (e <? 0)%Z; cbn [String.append];
    rewrite Ef, Ep, digits_exponent; reflexivity.
Qed.

Lemma toExponential_form (a : float) (f : nat) (s : bool) (m : positive)
  (e : Z) :
  Prim2SF a = S754_finite s m e -> (0 < f)%nat ->
  exponential_form f (toExponential a f) = true.
Proof.
  intros Ea Hf. unfold toExponential. rewrite Ea.
  destruct (fraction_of_positive m e) as [Hp Hq].
  destruct (fraction_of m e) as [p q]. cbn [fst snd] in *.
  destruct (scientific_spec f p q Hp Hq) as [Hn _].
  destruct (scientific f p q) as [e10 n]. cbn [fst snd] in *.
  destruct (decimal_of_digits n f Hn) as (c & b & -> & Hc & Hb & Hl & _).
  apply exponential_form_intro; auto.
Qed.

Lemma remove_point_digits (s : string) :
  all_digits s = true -> remove_point s = s.
Proof.
  induction s as [|c s IH]; simpl; auto.
  rewrite andb_true_iff. intros [Hc Hs]. rewrite IH by auto.
  destruct (Ascii.eqb_spec c ".") as [->|]; [discriminate | reflexivity].
Qed.

Lemma drop_leading_zeros_zeros (k : nat) (t : string) :
  drop_leading_zeros (zeros k ++ t) = drop_leading_zeros t.
Proof. induction k; simpl; auto. Qed.

Lemma precision_form_small (z : nat) (m : string) (p : nat) :
  digits m = true -> String.length m = p ->
  drop_leading_zeros m = m ->
  precision_form p ("0." ++ zeros z ++ m) = true.
Proof.
  intros Hm Hl Hlead. unfold precision_form.
  assert (Ha : all_digits m = true)
    by (unfold digits in Hm; apply andb_true_iff in Hm; tauto).
  change ("0." ++ zeros z ++ m) with ("0" ++ String "." (zeros z ++ m)).
  rewrite split_at_lacks by reflexivity.
  assert (Hz : digits (zeros z ++ m) = true).
  { unfold digits. rewrite all_digits_app, all_digits_zeros, Ha.
    destruct z; simpl; [|reflexivity].
    unfold digits in Hm. apply andb_true_iff in Hm. rewrite (proj1 Hm).
    reflexivity. }
  rewrite Hz. simpl remove_point.
  rewrite remove_point_digits
    by (rewrite all_digits_app, all_digits_zeros, Ha; reflexivity).
  simpl drop_leading_zeros.
  rewrite drop_leading_zeros_zeros, Hlead, Hl, Nat.eqb_refl. reflexivity.
Qed.

(** The decimal exponent of a value in [[10^-4, 1)]. *)
Lemma ilog10_small (p q : Z) :
  (0 < p)%Z -> (0 < q)%Z -> (p < q)%Z -> (q <= 10 ^ 4 * p)%Z ->
  (-4 <= ilog10 p q <= -1)%Z.
Proof.
  intros Hp Hq Hlt Hge. destruct (ilog10_spec p q Hp Hq) as [Ha Hb].
  unfold above_pow10, below_pow10 in *.
  set (e := ilog10 p q) in *. clearbody e. split.
  - destruct (Z_le_gt_dec (-4) e) as [|Hc]; auto. exfalso.
    rewrite (Z.max_l 0 (e + 1)) in Hb by lia.
    rewrite (Z.max_r 0 (- (e + 1))) in Hb by lia.
    assert (10 ^ 4 <= 10 ^ (- (e + 1)))%Z by (apply Z.pow_le_mono_r; lia).
    revert Hb H. generalize (10 ^ (- (e + 1)))%Z. intros u Hb Hu.
    change (10 ^ 0)%Z with 1%Z in Hb. nia.
  - destruct (Z_le_gt_dec e (-1)) as [|Hc]; auto. exfalso.
    rewrite (Z.max_r 0 e) in Ha by lia.
    rewrite (Z.max_l 0 (- e)) in Ha by lia.
    assert (1 <= 10 ^ e)%Z by (pose proof (pow10_pos e ltac:(lia)); lia).
    revert Ha H. generalize (10 ^ e)%Z. intros u Ha Hu.
    change (10 ^ 0)%Z with 1%Z in Ha. nia.
Qed.

Lemma toPrecision_form (a : float) (m : positive) (e : Z) :
  Prim2SF a = S754_finite false m e ->
  (fst (fraction_of m e) < snd (fraction_of m e))%Z ->
  (snd (fraction_of m e) <= 10 ^ 4 * fst (fraction_of m e))%Z ->
  precision_form 4 (toPrecision a 4) = true.
Proof.
  intros Ea Hlt Hge. unfold toPrecision. rewrite Ea.
  destruct (fraction_of_positive m e) as [Hp Hq].
  destruct (fraction_of m e) as [p q]. cbn [fst snd] in *.
  pose proof (ilog10_small p q Hp Hq Hlt Hge) as He0.
  destruct (scientific_spec 3 p q Hp Hq) as [Hn He].
  change (4 - 1)%nat with 3%nat.
  destruct (scientific 3 p q) as [e10 n]. cbn [fst snd] in *.
  assert (He10 : (-4 <= e10 <= 0)%Z) by lia.
  destruct (Z.ltb_spec e10 (-6)); [lia|].
  destruct (Z.leb_spec (Z.of_nat 4) e10); [lia|].
  destruct (Z.eqb_spec e10 (Z.of_nat 4 - 1)); [lia|].
  cbn [orb sign_string String.append].
  destruct (Z.leb_spec 0 e10) as [Hz|Hz].
  - assert (e10 = 0%Z) by lia. subst e10.
    destruct He as [He|[_ ->]]; [lia|]. vm_compute. reflexivity.
  - destruct (decimal_of_digits n 3 Hn) as (c & b & E & Hc & Hb & Hl & Hlead).
    apply precision_form_small.
    + apply digits_decimal. unfold pow10 in Hn.
      pose proof (pow10_pos (Z.of_nat 3) ltac:(lia)). lia.
    + rewrite E. simpl. rewrite Hl. reflexivity.
    + exact Hlead.
Qed.

End NotationFacts.

(** ** Grouping and [Intl.NumberFormat] *)

Section GroupingFacts.

Import NumberToString.

Lemma list_ascii_app (a b : string) :
  list_ascii_of_string (a ++ b)
  = (list_ascii_of_string a ++ list_ascii_of_string b)%list.
Proof. induction a as [|c a IH]; simpl; [reflexivity|]. rewrite IH; reflexivity. Qed.

Lemma string_of_list_app (l1 l2 : list ascii) :
  string_of_list_ascii (l1 ++ l2)
  = string_of_list_ascii l1 ++ string_of_list_ascii l2.
Proof. induction l1 as [|c l IH]; simpl; [reflexivity|]. rewrite IH; reflexivity. Qed.

Lemma all_digits_forallb (s : string) :
  all_digits s = forallb is_digit (list_ascii_of_string s).
Proof. induction s as [|c s IH]; simpl; [reflexivity|]. rewrite IH; reflexivity. Qed.

Lemma lacks_string_of_list (c : ascii) (l : list ascii) :
  lacks c (string_of_list_ascii l)
  = forallb (fun d => negb (Ascii.eqb d c)) l.
Proof. induction l as [|d l IH]; simpl; [reflexivity|]. rewrite IH; reflexivity. Qed.

Lemma group_rev_step (k : nat) (c : ascii) (rest : list ascii) :
  group_rev k (c :: rest) = c :: group_rev (S k) rest
  \/ group_rev k (c :: rest) = c :: ","%char :: group_rev 1 rest.
Proof.
  destruct k as [|[|[|k]]]; destruct rest; auto.
Qed.

Lemma group_rev_chars (l : list ascii) :
  forall k : nat,
    forallb is_digit l = true ->
    forallb digit_or_comma (group_rev k l) = true.
Proof.
  induction l as [|c rest IH]; intros k H; [reflexivity|].
  cbn [forallb] in H. apply andb_true_iff in H as [Hc Hr].
  assert (Hd : digit_or_comma c = true)
    by (unfold digit_or_comma; rewrite Hc; reflexivity).
  destruct (group_rev_step k c rest) as [-> | ->]; cbn [forallb];
    rewrite Hd, IH by auto; reflexivity.
Qed.

(** Writing the digits from the right, [k - 1] of them already written
    since the last comma, leaves a grouped integer. *)
Lemma group_rev_groups (l : list ascii) :
  forall (k : nat) (suffix T : list ascii),
    l <> [] -> forallb is_digit l = true ->
    (1 <= k <= 3)%nat -> length suffix = (k - 1)%nat ->
    forallb is_digit suffix = true -> comma_groups T = true ->
    head_groups (rev (group_rev k l) ++ suffix ++ T)%list = true.
Proof.
  induction l as [|c rest IH]; intros k suffix T Hne Hl Hk Hs Hsd HT;
    [congruence|].
  simpl in Hl. apply andb_true_iff in Hl as [Hc Hr].
  destruct rest as [|r rest'].
  - (* the leftmost digit *)
    assert (E : group_rev k [c] = [c]) by (destruct k as [|[|[|k]]]; reflexivity).
    rewrite E. cbn [rev app].
    destruct k as [|[|[|[|k]]]]; try lia.
    + destruct suffix; [|discriminate]. cbn [app head_groups].
      rewrite Hc, HT. reflexivity.
    + destruct suffix as [|s1 [|]]; try discriminate. cbn [app head_groups].
      cbn [forallb] in Hsd. apply andb_true_iff in Hsd as [H1 _].
      rewrite Hc, H1, HT. cbn [andb orb]. rewrite orb_true_r. reflexivity.
    + destruct suffix as [|s1 [|s2 [|]]]; try discriminate.
      cbn [app head_groups]. cbn [forallb] in Hsd.
      apply andb_true_iff in Hsd as [H1 Hsd].
      apply andb_true_iff in Hsd as [H2 _].
      rewrite Hc, H1, H2, HT. cbn [andb orb]. rewrite !orb_true_r. reflexivity.
  - destruct k as [|[|[|[|k]]]]; try lia.
    + (* one digit in the group so far *)
      change (group_rev 1 (c :: r :: rest')) with (c :: group_rev 2 (r :: rest')).
      cbn [rev]. rewrite <- app_assoc. cbn [app].
      change (c :: suffix ++ T)%list with ((c :: suffix) ++ T)%list.
      apply IH; auto; try discriminate; try lia.
      * simpl. lia.
      * cbn [forallb]. rewrite Hc, Hsd. reflexivity.
    + change (group_rev 2 (c :: r :: rest')) with (c :: group_rev 3 (r :: rest')).
      cbn [rev]. rewrite <- app_assoc. cbn [app].
      change (c :: suffix ++ T)%list with ((c :: suffix) ++ T)%list.
      apply IH; auto; try discriminate; try lia.
      * simpl. lia.
      * cbn [forallb]. rewrite Hc, Hsd. reflexivity.
    + (* the group is full: a comma *)
      change (group_rev 3 (c :: r :: rest'))
        with (c :: ","%char :: group_rev 1 (r :: rest')).
      cbn [rev]. rewrite <- !app_assoc. cbn [app].
      destruct suffix as [|s1 [|s2 [|]]]; try discriminate.
      cbn [forallb] in Hsd.
      apply andb_true_iff in Hsd as [H1 Hsd].
      apply andb_true_iff in Hsd as [H2 _].
      change (","%char :: c :: [s1; s2] ++ T)%list
        with ([] ++ (","%char :: c :: s1 :: s2 :: T))%list.
      apply IH; auto; try discriminate; try lia.
      cbn [comma_groups]. rewrite Hc, H1, H2, HT. reflexivity.
Qed.

Lemma grouped_integer_group_integer (ds : string) :
  digits ds = true ->
  grouped_integer (group_integer ds) = true
  /\ lacks "." (group_integer ds) = true.
Proof.
  intros H. unfold digits in H. apply andb_true_iff in H as [Hne Ha].
  rewrite all_digits_forallb in Ha.
  assert (Hl : list_ascii_of_string ds <> [])
    by (destruct ds; [discriminate | simpl; discriminate]).
  assert (Hr : rev (list_ascii_of_string ds) <> []).
  { intros E. apply Hl. rewrite <- (rev_involutive (list_ascii_of_string ds)), E.
    reflexivity. }
  assert (Hd : forallb is_digit (rev (list_ascii_of_string ds)) = true).
  { rewrite forallb_forall in *. intros c Hc. apply Ha, in_rev; auto. }
  unfold group_integer. split.
  - unfold grouped_integer. rewrite list_ascii_of_string_of_list_ascii.
    fold (head_groups (rev (group_rev 1 (rev (list_ascii_of_string ds))))).
    pose proof (group_rev_groups _ 1 [] [] Hr Hd ltac:(lia)
                  eq_refl eq_refl eq_refl) as G.
    rewrite !app_nil_r in G. exact G.
  - rewrite lacks_string_of_list.
    pose proof (group_rev_chars _ 1 Hd) as G.
    rewrite forallb_forall in *. intros c Hc. apply in_rev in Hc.
    specialize (G c Hc). unfold digit_or_comma in G.
    destruct (Ascii.eqb_spec c ".") as [->|]; [discriminate | reflexivity].
Qed.

End GroupingFacts.

Section IntlFacts.

Import NumberToString.

Lemma split_point_lacks (a b : string) :
  lacks "." a = true -> split_point (a ++ String "." b) = (a, String "." b).
Proof.
  induction a as [|c a IH]; cbn [String.append split_point lacks].
  - intros _. reflexivity.
  - rewrite andb_true_iff, negb_true_iff. intros [-> H].
    rewrite IH by auto. reflexivity.
Qed.

Lemma split_point_none (a : string) :
  lacks "." a = true -> split_point a = (a, "").
Proof.
  induction a as [|c a IH]; cbn [split_point lacks].
  - intros _. reflexivity.
  - rewrite andb_true_iff, negb_true_iff. intros [-> H].
    rewrite IH by auto. reflexivity.
Qed.

Lemma digit_not_point (c : ascii) : is_digit c = true -> Ascii.eqb c "." = false.
Proof.
  intros H. destruct (Ascii.eqb_spec c ".") as [->|]; [discriminate | reflexivity].
Qed.

(** [ToRawFixed] with up to two fractional digits: the integer digits,
    alone or followed by a point and one or two digits. *)
Lemma ToRawFixed_parts (p q : Z) :
  (0 <= p)%Z -> (0 < q)%Z ->
  exists int0 : string,
    digits int0 = true
    /\ (ToRawFixed p q 0 2 = int0
        \/ exists fr : string,
             ToRawFixed p q 0 2 = int0 ++ String "." fr
             /\ digits fr = true /\ (String.length fr <= 2)%nat).
Proof.
  intros Hp Hq. unfold ToRawFixed.
  assert (Hn : (0 <= nearest_int (p * pow10 2) q)%Z).
  { apply nearest_int_nonneg; auto. unfold pow10. simpl. lia. }
  destruct (point_at_parts 2 _ ltac:(lia) (digits_decimal _ Hn))
    as (int0 & frac & -> & Hi & Hfr & Hl & _).
  exists int0. split; [exact Hi|].
  destruct frac as [|f1 [|f2 [|]]]; try discriminate.
  cbn [all_digits] in Hfr.
  apply andb_true_iff in Hfr as [H1 Hfr]. apply andb_true_iff in Hfr as [H2 _].
  change ("." ++ String f1 (String f2 "")) with (String "." (String f1 (String f2 ""))).
  rewrite list_ascii_app. cbn [list_ascii_of_string].
  rewrite rev_app_distr. cbn [rev app Nat.sub strip_zeros_rev].
  destruct (Ascii.eqb_spec f2 "0") as [->|N2].
  - destruct (Ascii.eqb_spec f1 "0") as [->|N1]; cbn [strip_point_rev].
    + left. cbn [Ascii.eqb Bool.eqb]. rewrite rev_involutive.
      apply string_of_list_ascii_of_string.
    + right. exists (String f1 ""). rewrite (digit_not_point f1 H1).
      cbn [rev]. rewrite rev_involutive, <- !app_assoc.
      rewrite string_of_list_app, string_of_list_ascii_of_string.
      split; [reflexivity|]. unfold digits. cbn. rewrite H1. auto.
  - right. exists (String f1 (String f2 "")).
    cbn [strip_point_rev]. rewrite (digit_not_point f2 H2).
    cbn [rev]. rewrite rev_involutive, <- !app_assoc.
    rewrite string_of_list_app, string_of_list_ascii_of_string.
    split; [reflexivity|]. unfold digits. cbn. rewrite H1, H2. auto.
Qed.

(** The digits the search returns are those of a natural number. *)
Lemma candidate_nonneg (m : positive) (e p q t s : Z) :
  (0 <= p)%Z -> (0 < q)%Z -> candidate m e p q t = Some s -> (0 <= s)%Z.
Proof.
  intros Hp Hq. unfold candidate, scale10.
  assert (H1 : (0 < 10 ^ Z.max 0 t)%Z) by (apply Z.pow_pos_nonneg; lia).
  assert (H2 : (0 < 10 ^ Z.max 0 (- t))%Z) by (apply Z.pow_pos_nonneg; lia).
  assert (H0 : (0 <= p * 10 ^ Z.max 0 (- t) / (q * 10 ^ Z.max 0 t))%Z).
  { apply Z.div_pos; nia. }
  revert H0. generalize (p * 10 ^ Z.max 0 (- t) / (q * 10 ^ Z.max 0 t))%Z.
  intros s0 H0 H.
  repeat match type of H with
         | context [if ?b then _ else _] => destruct b
         | context [match ?c with Eq => _ | Lt => _ | Gt => _ end] => destruct c
         end; inv H; lia.
Qed.

Lemma shortest_from_nonneg (fuel : nat) (m : positive) (e p q n0 k : Z) :
  (0 <= p)%Z -> (0 < q)%Z ->
  (0 <= fst (shortest_from fuel m e p q n0 k))%Z.
Proof.
  intros Hp Hq. revert k.
  induction fuel as [|fuel IH]; intros k; cbn [shortest_from].
  - cbn [fst]. unfold nearest_scaled, scale10.
    assert (H1 : (0 < 10 ^ Z.max 0 (n0 - k))%Z) by (apply Z.pow_pos_nonneg; lia).
    assert (H2 : (0 < 10 ^ Z.max 0 (- (n0 - k)))%Z)
      by (apply Z.pow_pos_nonneg; lia).
    apply nearest_int_nonneg; nia.
  - destruct (candidate m e p q (n0 - k)) as [s|] eqn:E; [|apply IH].
    cbn [fst]. eapply candidate_nonneg; eauto.
Qed.

Lemma strip_trailing_zeros_nonneg (fuel : nat) (s t : Z) :
  (0 <= s)%Z -> (0 <= fst (strip_trailing_zeros fuel s t))%Z.
Proof.
  revert s t. induction fuel as [|fuel IH]; intros s t Hs;
    cbn [strip_trailing_zeros]; [exact Hs|].
  destruct ((0 <? s)%Z && (s mod 10 =? 0)%Z); [|exact Hs].
  apply IH. apply Z.div_pos; lia.
Qed.

Lemma shortest_nonneg (m : positive) (e : Z) : (0 <= fst (shortest m e))%Z.
Proof.
  unfold shortest.
  destruct (fraction_of_positive m e) as [Hp Hq].
  destruct (fraction_of m e) as [p q]. cbn [fst snd] in *.
  pose proof (shortest_from_nonneg 17 m e p q (ilog10 p q + 1) 1
                ltac:(lia) Hq) as H.
  destruct (shortest_from 17 m e p q (ilog10 p q + 1) 1) as [s t].
  apply strip_trailing_zeros_nonneg. exact H.
Qed.

Lemma decimal_fraction_nonneg (s t : Z) :
  (0 <= s)%Z ->
  (0 <= fst (decimal_fraction s t))%Z /\ (0 < snd (decimal_fraction s t))%Z.
Proof.
  intros Hs. unfold decimal_fraction. cbn [fst snd].
  assert (H1 : (0 < 10 ^ Z.max 0 t)%Z) by (apply Z.pow_pos_nonneg; lia).
  assert (H2 : (0 < 10 ^ Z.max 0 (- t))%Z) by (apply Z.pow_pos_nonneg; lia).
  split; [nia | exact H2].
Qed.

Lemma Intl_grouped_form (a : float) (m : positive) (e : Z) :
  Prim2SF a = S754_finite false m e ->
  grouped_form 2 (Intl_NumberFormat_format a) = true.
Proof.
  intros Ea. unfold Intl_NumberFormat_format. rewrite Ea.
  pose proof (shortest_nonneg m e) as Hs.
  destruct (shortest m e) as [s t]. cbn [fst] in Hs.
  destruct (decimal_fraction_nonneg s t Hs) as [Hp Hq].
  destruct (decimal_fraction s t) as [p q]. cbn [fst snd] in *.
  destruct (ToRawFixed_parts p q Hp Hq) as (int0 & Hi & [-> | (fr & -> & Hf & Hl)]).
  - assert (Hlk : lacks "." int0 = true).
    { apply all_digits_lacks; [reflexivity|].
      unfold digits in Hi. apply andb_true_iff in Hi. tauto. }
    rewrite split_point_none by auto.
    destruct (grouped_integer_group_integer int0 Hi) as [G L].
    cbn [sign_string String.append]. rewrite append_empty_r.
    unfold grouped_form. rewrite split_at_none by auto. exact G.
  - assert (Hlk : lacks "." int0 = true).
    { apply all_digits_lacks; [reflexivity|].
      unfold digits in Hi. apply andb_true_iff in Hi. tauto. }
    rewrite split_point_lacks by auto.
    destruct (grouped_integer_group_integer int0 Hi) as [G L].
    cbn [sign_string String.append].
    unfold grouped_form. rewrite split_at_lacks by auto.
    rewrite G, Hf. cbn [andb]. apply Nat.leb_le. exact Hl.
Qed.

End IntlFacts.

(** ** The branches of [formatAmount] *)

Section AmountRanges.

Local Open Scope float_scope.

Lemma leb_positive (c a : float) :
  (0 <? c) = true -> (c <=? a) = true -> (0 <? a) = true.
Proof.
  rewrite !FloatAxioms.ltb_spec, FloatAxioms.leb_spec.
  change (Prim2SF 0) with (S754_zero false).
  destruct (Prim2SF c) as [sc|sc| |sc mc ec]; try discriminate;
    destruct sc; try discriminate;
    destruct (Prim2SF a) as [sa|sa| |sa ma ea]; try discriminate;
    try destruct sa; try discriminate; reflexivity.
Qed.

Lemma positive_not_zero (a : float) : (0 <? a) = true -> (a =? 0) = false.
Proof.
  rewrite FloatAxioms.ltb_spec, FloatAxioms.eqb_spec.
  change (Prim2SF 0) with (S754_zero false).
  destruct (Prim2SF a) as [sa|sa| |sa ma ea]; try discriminate;
    destruct sa; try discriminate; reflexivity.
Qed.

Lemma leb_not_ltb (c a : float) :
  (0 <? c) = true -> (c <=? a) = true -> (a <? c) = false.
Proof.
  intros Hc H. pose proof (leb_positive c a Hc H) as Ha.
  rewrite leb_rank in H by auto. rewrite ltb_rank by auto.
  apply Z.leb_le in H. apply Z.ltb_ge. exact H.
Qed.

Lemma leb_ltb_trans (c d a : float) :
  (0 <? c) = true -> (c <=? d) = true -> (d <=? a) = true -> (a <? c) = false.
Proof.
  intros Hc Hcd Hda.
  pose proof (leb_positive c d Hc Hcd) as Hd.
  pose proof (leb_positive d a Hd Hda) as Ha.
  rewrite leb_rank in Hcd, Hda by auto. rewrite ltb_rank by auto.
  apply Z.leb_le in Hcd, Hda. apply Z.ltb_ge. lia.
Qed.

(** A positive number below a finite one is finite, and its exact value
    is below that one's. *)
Lemma positive_below (a c : float) :
  (0 <? a) = true -> (0 <? c) = true -> (a <? c) = true ->
  exists (m : positive) (e : Z),
    Prim2SF a = S754_finite false m e
    /\ (-1074 <= e)%Z
    /\ (rank (S754_finite false m e) < rank (Prim2SF c))%Z.
Proof.
  intros Ha Hc H. rewrite ltb_rank in H by auto. apply Z.ltb_lt in H.
  pose proof (Prim2SF_valid a) as Va. pose proof (Prim2SF_valid c) as Vc.
  rewrite FloatAxioms.ltb_spec in Ha, Hc.
  change (Prim2SF 0) with (S754_zero false) in Ha, Hc.
  destruct (Prim2SF a) as [sa|sa| |sa ma ea]; try discriminate;
    destruct sa; try discriminate.
  - exfalso. destruct (Prim2SF c) as [sc|sc| |sc mc ec]; try discriminate;
      destruct sc; try discriminate.
    pose proof (rank_finite_bound mc ec Vc).
    change (rank (S754_infinity false)) with (2 ^ 2100)%Z in H. lia.
  - exists ma, ea. split; [reflexivity|]. split; [|exact H].
    apply bounded_inv in Va. lia.
Qed.

Lemma positive_finite (a : float) :
  (0 <? a) = true -> isFinite a = true ->
  exists (m : positive) (e : Z), Prim2SF a = S754_finite false m e.
Proof.
  unfold isFinite. rewrite FloatAxioms.ltb_spec.
  change (Prim2SF 0) with (S754_zero false).
  destruct (Prim2SF a) as [sa|sa| |sa ma ea]; try discriminate;
    destruct sa; try discriminate. eauto.
Qed.

Lemma nonzero_finite (a : float) :
  (a =? 0) = false -> isFinite a = true ->
  exists (s : bool) (m : positive) (e : Z), Prim2SF a = S754_finite s m e.
Proof.
  unfold isFinite. rewrite FloatAxioms.eqb_spec.
  change (Prim2SF 0) with (S754_zero false).
  destruct (Prim2SF a) as [sa|sa| |sa ma ea]; try discriminate; eauto.
Qed.

Lemma rank_one : rank (Prim2SF 1) = (2 ^ 1074)%Z.
Proof. vm_compute. reflexivity. Qed.

Lemma rank_thousand : rank (Prim2SF 1000) = (1000 * 2 ^ 1074)%Z.
Proof. vm_compute. reflexivity. Qed.

Lemma rank_ten_thousandth : (2 ^ 1074 <= 10 ^ 4 * rank (Prim2SF 0.0001))%Z.
Proof. vm_compute. discriminate. Qed.

End AmountRanges.

Section AmountPolicy.

Local Open Scope float_scope.

Lemma formatAmount_zero (a : float) :
  (a =? 0) = true -> formatAmount a = "0".
Proof. intros H. unfold formatAmount. rewrite H. reflexivity. Qed.

Lemma formatAmount_exponential (a : float) :
  isFinite a = true -> (a =? 0) = false -> (a <? 0.0001) = true ->
  formatAmount a = NumberToString.toExponential a 4
  /\ exponential_form 4 (formatAmount a) = true.
Proof.
  intros Hf Hz Hlt.
  assert (E : formatAmount a = NumberToString.toExponential a 4)
    by (unfold formatAmount; rewrite Hz, Hlt; reflexivity).
  split; [exact E|]. rewrite E.
  destruct (nonzero_finite a Hz Hf) as (s & m & e & Ea).
  apply (toExponential_form a 4 s m e Ea). lia.
Qed.

Lemma formatAmount_precision (a : float) :
  (0.0001 <=? a) = true -> (a <? 1) = true ->
  formatAmount a = NumberToString.toPrecision a 4
  /\ precision_form 4 (formatAmount a) = true.
Proof.
  intros Hge Hlt.
  pose proof (leb_positive 0.0001 a eq_refl Hge) as Hpos.
  assert (E : formatAmount a = NumberToString.toPrecision a 4).
  { unfold formatAmount.
    rewrite (positive_not_zero a Hpos), (leb_not_ltb 0.0001 a eq_refl Hge), Hlt.
    reflexivity. }
  split; [exact E|]. rewrite E.
  destruct (positive_below a 1 Hpos eq_refl Hlt) as (m & e & Ea & He & Hr).
  rewrite rank_one in Hr.
  rewrite leb_rank in Hge by auto. apply Z.leb_le in Hge. rewrite Ea in Hge.
  pose proof rank_ten_thousandth as Hc.
  pose proof (fraction_of_rank false m e He) as Hv.
  destruct (fraction_of_positive m e) as [Hp Hq].
  assert (Ht : (0 < 2 ^ 1074)%Z) by reflexivity.
  apply (toPrecision_form a m e Ea).
  - revert Hv Hr Hp Hq Ht. generalize (rank (S754_finite false m e)) (2 ^ 1074)%Z.
    intros r t. nia.
  - assert (H4 : (10 ^ 4 = 10000)%Z) by reflexivity. rewrite H4 in *.
    revert Hv Hge Hc Hp Hq Ht.
    generalize (rank (S754_finite false m e)) (rank (Prim2SF 0.0001))
      (2 ^ 1074)%Z.
    intros r c t. nia.
Qed.

Lemma formatAmount_fixed (a : float) :
  (1 <=? a) = true -> (a <? 1000) = true ->
  formatAmount a = NumberToString.toFixed a 4
  /\ fixed_form 4 (formatAmount a) = true.
Proof.
  intros Hge Hlt.
  pose proof (leb_positive 1 a eq_refl Hge) as Hpos.
  assert (E : formatAmount a = NumberToString.toFixed a 4).
  { unfold formatAmount.
    rewrite (positive_not_zero a Hpos),
      (leb_ltb_trans 0.0001 1 a eq_refl eq_refl Hge),
      (leb_not_ltb 1 a eq_refl Hge), Hlt.
    reflexivity. }
  split; [exact E|]. rewrite E.
  destruct (positive_below a 1000 Hpos eq_refl Hlt) as (m & e & Ea & He & Hr).
  rewrite rank_thousand in Hr.
  pose proof (fraction_of_rank false m e He) as Hv.
  destruct (fraction_of_positive m e) as [Hp Hq].
  apply (toFixed_fixed_form a 4 false m e Ea); [|lia].
  assert (H21 : (1000 < 10 ^ 21)%Z) by reflexivity.
  assert (Ht : (0 < 2 ^ 1074)%Z) by reflexivity.
  revert Hv Hr Hp Hq H21 Ht.
  generalize (rank (S754_finite false m e)) (2 ^ 1074)%Z (10 ^ 21)%Z.
  intros r t u. nia.
Qed.

Lemma formatAmount_grouped (a : float) :
  isFinite a = true -> (1000 <=? a) = true ->
  formatAmount a = NumberToString.Intl_NumberFormat_format a
  /\ grouped_form 2 (formatAmount a) = true.
Proof.
  intros Hf Hge.
  pose proof (leb_positive 1000 a eq_refl Hge) as Hpos.
  assert (E : formatAmount a = NumberToString.Intl_NumberFormat_format a).
  { unfold formatAmount.
    rewrite (positive_not_zero a Hpos),
      (leb_ltb_trans 0.0001 1000 a eq_refl eq_refl Hge),
      (leb_ltb_trans 1 1000 a eq_refl eq_refl Hge),
      (leb_not_ltb 1000 a eq_refl Hge).
    reflexivity. }
  split; [exact E|]. rewrite E.
  destruct (positive_finite a Hpos Hf) as (m & e & Ea).
  apply (Intl_grouped_form a m e Ea).
Qed.

End AmountPolicy.

(** The magnitude of [-5] is in [[1, 1000)], and [formatAmount(-5)] is not
    in fixed notation: the comparisons of [formatAmount] are on the signed
    amount. *)
Lemma formatAmount_negative_amount :
  ((1 <=? abs (-5)) = true /\ (abs (-5) <? 1000) = true)%float
  /\ formatAmount (-5) = "-5.0000e+0"
  /\ NumberToString.toFixed (-5) 4 = "-5.0000"
  /\ fixed_form 4 (formatAmount (-5)) = false.
Proof. repeat split; vm_compute; reflexivity. Qed.

(** C5, amended. For every finite number [a], [formatAmount(a)] is: the
    literal ["0"] when [a] is zero; exponential notation with 4
    fractional digits when [a < 0.0001] and [a] is not zero, every negative
    [a] included; the 4-significant-digit form of [toPrecision(4)] when
    [0.0001 <= a < 1]; the fixed 4-decimal-place form of [toFixed(4)] when
    [1 <= a < 1000]; the grouped form with at most 2 fractional digits of
    the [en-US] number format when [a >= 1000]. [formatAmount(123.456789)]
    is ["123.4568"] and [formatAmount(0.00005)] is ["5.0000e-5"]. *)
Theorem formatAmount_policy :
  forall a : float,
    isFinite a = true ->
    ((a =? 0)%float = true -> formatAmount a = "0")
    /\ ((a =? 0)%float = false -> (a <? 0.0001)%float = true ->
        formatAmount a = NumberToString.toExponential a 4
        /\ exponential_form 4 (formatAmount a) = true)
    /\ ((0.0001 <=? a)%float = true -> (a <? 1)%float = true ->
        formatAmount a = NumberToString.toPrecision a 4
        /\ precision_form 4 (formatAmount a) = true)
    /\ ((1 <=? a)%float = true -> (a <? 1000)%float = true ->
        formatAmount a = NumberToString.toFixed a 4
        /\ fixed_form 4 (formatAmount a) = true)
    /\ ((1000 <=? a)%float = true ->
        formatAmount a = NumberToString.Intl_NumberFormat_format a
        /\ grouped_form 2 (formatAmount a) = true)
    /\ formatAmount 123.456789 = "123.4568"
    /\ formatAmount 0.00005 = "5.0000e-5".
Proof.
  intros a Hf.
  split; [apply formatAmount_zero|].
  split; [apply formatAmount_exponential; exact Hf|].
  split; [apply formatAmount_precision|].
  split; [apply formatAmount_fixed|].
  split; [apply formatAmount_grouped; exact Hf|].
  split; vm_compute; reflexivity.
Qed.

Lemma formatAmount_policy_witness :
  isFinite 1234.5678 = true
  /\ formatAmount 1234.5678 = NumberToString.Intl_NumberFormat_format 1234.5678
  /\ grouped_form 2 (formatAmount 1234.5678) = true
  /\ formatAmount 1234.5678 = "1,234.57".
Proof.
  split; [reflexivity|].
  destruct (formatAmount_policy 1234.5678 eq_refl)
    as (_ & _ & _ & _ & H & _).
  destruct (H eq_refl) as [H1 H2].
  split; [exact H1|]. split; [exact H2|]. vm_compute. reflexivity.
Defined.
(* ================================================================= *)
(** ** Sessions: the recent list, the requests, the error banner *)

Section Sessions.

Variable key : option string.

Lemma In_firstn {A} (x : A) (n : nat) (l : list A) :
  In x (firstn n l) -> In x l.
Proof.
  revert n. induction l as [|y l IH]; intros [|n]; cbn [firstn In]; try tauto.
  intros [E|E]; [tauto|]. right. apply (IH n). exact E.
Qed.

Lemma NoDup_firstn {A} (n : nat) (l : list A) :
  List.NoDup l -> List.NoDup (firstn n l).
Proof.
  revert n. induction l as [|x l IH]; intros [|n] H; cbn [firstn];
    try constructor.
  - inv H. intros Hin. apply In_firstn in Hin. contradiction.
  - inv H. auto.
Qed.

Lemma Forall_firstn {A} (P : A -> Prop) (n : nat) (l : list A) :
  Forall P l -> Forall P (firstn n l).
Proof.
  intros H. apply List.Forall_forall. intros x Hin.
  apply In_firstn in Hin. revert x Hin. apply List.Forall_forall. exact H.
Qed.

Lemma Forall_filter {A} (P : A -> Prop) (f : A -> bool) (l : list A) :
  Forall P l -> Forall P (List.filter f l).
Proof.
  intros H. apply List.Forall_forall. intros x Hin.
  apply filter_In in Hin as [Hin _]. revert x Hin.
  apply List.Forall_forall. exact H.
Qed.

Lemma recent_list_update (a : string) (l : list string) :
  isValidEthereumAddress a = true ->
  recent_list l -> recent_list (recent_update a l).
Proof.
  intros Ha (Hn & _ & Hv). unfold recent_update. split; [|split].
  - apply NoDup_firstn. constructor.
    + apply notin_filter_neq.
    + apply List.NoDup_filter. exact Hn.
  - rewrite length_firstn. lia.
  - apply Forall_firstn. constructor; [exact Ha|].
    apply Forall_filter. exact Hv.
Qed.

Lemma recent_kept_submit (s : State) :
  recent_kept s -> recent_kept (fst (fetchBalances_submit key s)).
Proof.
  intros [Hr Hs]. unfold fetchBalances_submit.
  destruct (negb (truthy_string (address s))); [split; assumption|].
  destruct (negb (truthy key)); [split; assumption|].
  destruct (isValidEthereumAddress (address s)) eqn:Ev;
    cbn [negb]; [|split; assumption].
  pose proof (recent_list_update (address s) _ Ev Hr) as H.
  split; exact H.
Qed.

Lemma recent_kept_settle (o : Outcome) (s : State) :
  recent_kept s -> recent_kept (fetchBalances_settle o s).
Proof. intros H. destruct o; exact H. Qed.

Lemma recent_kept_step (s s' : State) :
  step key s s' -> recent_kept s -> recent_kept s'.
Proof.
  intros Hstep H. destruct Hstep; try exact H.
  - unfold load_recentAddresses. destruct H as [Hr Hs].
    destruct (localStorage_recentAddresses s) as [saved|] eqn:E;
      [|split; [exact Hr | rewrite E; exact I]].
    split; [exact Hs|].
    cbn [localStorage_recentAddresses setRecentAddresses]. rewrite E. exact Hs.
  - apply recent_kept_submit. exact H.
  - apply recent_kept_settle. exact H.
Qed.

Lemma recent_stored_step (s s' : State) :
  step key s s' -> recent_stored s -> recent_stored s'.
Proof.
  intros Hstep H. destruct Hstep; try exact H.
  - unfold load_recentAddresses.
    destruct (localStorage_recentAddresses s) as [saved|] eqn:E; [|exact H].
    right. cbn [localStorage_recentAddresses recentAddresses setRecentAddresses].
    exact E.
  - unfold fetchBalances_submit.
    destruct (negb (truthy_string (address s))); [exact H|].
    destruct (negb (truthy key)); [exact H|].
    destruct (negb (isValidEthereumAddress (address s))); [exact H|].
    right. reflexivity.
  - destruct o; exact H.
Qed.

Lemma recent_stored_reachable (s : State) :
  reachable key s -> recent_stored s.
Proof.
  induction 1 as [stored|s s' _ IH Hstep].
  - left. reflexivity.
  - eapply recent_stored_step; eauto.
Qed.

Lemma requests_kept_step (s s' : State) :
  step key s s' -> requests_kept key s -> requests_kept key s'.
Proof.
  unfold requests_kept. intros Hstep H. destruct Hstep; try exact H.
  - unfold load_recentAddresses.
    destruct (localStorage_recentAddresses s); exact H.
  - unfold fetchBalances_submit.
    destruct (negb (truthy_string (address s))); [exact H|].
    destruct (truthy key) eqn:Ek; cbn [negb]; [|exact H].
    destruct (isValidEthereumAddress (address s)) eqn:Ev;
      cbn [negb]; [|exact H].
    destruct H as [Hf _]. split; [|discriminate].
    cbn [fst requests moralisApi_get setShowAll setAllBalances setBalances
         setError setLoading addToRecent localStorage_setItem
         setRecentAddresses].
    apply Forall_app. split; [exact Hf|].
    constructor; [|constructor]. exists (address s). auto.
  - destruct o; exact H.
Qed.

End Sessions.

(** X1. The recent list stays a list of at most five distinct accepted
    addresses, and so does what the storage holds, from any state in which
    they are: whatever the events, the keys of the suggestion buttons are
    distinct and an address picked from them passes the validator. *)
Theorem recentAddresses_invariant :
  forall (key : option string) (s0 s : State),
    recent_list (recentAddresses s0) ->
    stored_recent_list (localStorage_recentAddresses s0) ->
    reachable_from key s0 s ->
    List.NoDup (recentAddresses s)
    /\ (length (recentAddresses s) <= 5)%nat
    /\ (forall a : string,
          In a (recentAddresses s) -> isValidEthereumAddress a = true)
    /\ stored_recent_list (localStorage_recentAddresses s).
Proof.
  intros key s0 s Hr Hs Hreach.
  assert (H : recent_kept s).
  { induction Hreach as [|s s' _ IH Hstep]; [split; assumption|].
    eapply recent_kept_step; eauto. }
  destruct H as ((Hn & Hl & Hv) & Hst).
  split; [exact Hn|]. split; [exact Hl|]. split; [|exact Hst].
  intros a Hin. revert a Hin. apply List.Forall_forall. exact Hv.
Qed.

Lemma recentAddresses_invariant_witness :
  List.NoDup
    (recentAddresses (fst (fetchBalances_submit (Some "key") state_with_recent)))
  /\ (length
        (recentAddresses
           (fst (fetchBalances_submit (Some "key") state_with_recent)))
      <= 5)%nat
  /\ (forall a : string,
        In a
          (recentAddresses
             (fst (fetchBalances_submit (Some "key") state_with_recent))) ->
        isValidEthereumAddress a = true)
  /\ stored_recent_list
       (localStorage_recentAddresses
          (fst (fetchBalances_submit (Some "key") state_with_recent))).
Proof.
  assert (Hl : recent_list
                 ["0xde709f2102306220921060314715629080e2fb77";
                  "0x27b1fdb04752bbc536007a920d24acb045561c26"]).
  { split; [|split].
    - constructor; [|constructor; [|constructor]]; cbn [In].
      + intros [H|[]]. discriminate H.
      + intros [].
    - cbn [length]. lia.
    - repeat constructor. }
  apply (recentAddresses_invariant (Some "key") state_with_recent).
  - exact Hl.
  - exact Hl.
  - eapply reachable_from_step; [apply reachable_from_start|].
    apply step_check. reflexivity.
Defined.

(** X2. Once the recent list is not empty it is what [localStorage] holds,
    so that a reload (the first render and the effect that reads the
    storage) gives the same list back. *)
Theorem recentAddresses_restored :
  forall (key : option string) (s : State),
    reachable key s ->
    (recentAddresses s = []
     \/ localStorage_recentAddresses s = Some (recentAddresses s))
    /\ (recentAddresses s <> [] ->
        recentAddresses
          (load_recentAddresses (initial_State (localStorage_recentAddresses s)))
        = recentAddresses s).
Proof.
  intros key s Hr. pose proof (recent_stored_reachable key s Hr) as H.
  split; [exact H|]. intros Hne.
  destruct H as [H|H]; [contradiction|].
  unfold load_recentAddresses.
  cbn [localStorage_recentAddresses initial_State]. rewrite H. reflexivity.
Qed.

Lemma recentAddresses_restored_witness :
  (recentAddresses state_after_fetch = []
   \/ localStorage_recentAddresses state_after_fetch
      = Some (recentAddresses state_after_fetch))
  /\ (recentAddresses state_after_fetch <> [] ->
      recentAddresses
        (load_recentAddresses
           (initial_State (localStorage_recentAddresses state_after_fetch)))
      = recentAddresses state_after_fetch).
Proof.
  apply (recentAddresses_restored (Some "key") state_after_fetch).
  apply state_after_fetch_reachable.
Defined.

(** X3. Every request of a session is for the tokens of an address the
    validator accepts, a submission that passes the guards sends exactly
    one, for the address in the field, and no request is ever sent without
    the API key. *)
Theorem requests_of_a_session :
  forall (key : option string) (s : State),
    reachable key s ->
    (forall url : string,
       In url (requests s) ->
       exists a : string,
         url = "/wallets/" ++ a ++ "/tokens"
         /\ isValidEthereumAddress a = true)
    /\ (truthy key = false -> requests s = [])
    /\ (snd (fetchBalances_submit key s) = true ->
        requests (fst (fetchBalances_submit key s))
        = (requests s ++ [tokens_url (address s)])%list).
Proof.
  intros key s Hr.
  assert (H : requests_kept key s).
  { induction Hr as [stored|s s' _ IH Hstep].
    - split; [constructor | reflexivity].
    - eapply requests_kept_step; eauto. }
  destruct H as [Hf Hk]. split; [|split; [exact Hk|]].
  - intros url Hin. revert url Hin. apply List.Forall_forall. exact Hf.
  - through_guards discriminate. reflexivity.
Qed.

Lemma requests_of_a_session_witness :
  (forall url : string,
     In url (requests state_after_fetch) ->
     exists a : string,
       url = "/wallets/" ++ a ++ "/tokens"
       /\ isValidEthereumAddress a = true)
  /\ (truthy (Some "key") = false -> requests state_after_fetch = [])
  /\ (snd (fetchBalances_submit (Some "key") state_after_fetch) = true ->
      requests (fst (fetchBalances_submit (Some "key") state_after_fetch))
      = (requests state_after_fetch
         ++ [tokens_url (address state_after_fetch)])%list).
Proof.
  apply (requests_of_a_session (Some "key") state_after_fetch).
  apply state_after_fetch_reachable.
Defined.

Section PickedAddress.

Lemma remove_notin (a : string) (l : list string) :
  ~ In a l -> remove string_dec a l = l.
Proof. intros H. apply notin_remove. exact H. Qed.

Lemma remove_member (a : string) (l : list string) :
  List.NoDup l -> In a l ->
  S (length (remove string_dec a l)) = length l
  /\ Permutation (a :: remove string_dec a l) l.
Proof.
  induction 1 as [|x l Hx Hl IH]; intros Hin; [destruct Hin|].
  cbn [remove]. destruct (string_dec a x) as [->|Hne].
  - rewrite remove_notin by exact Hx. split; reflexivity.
  - destruct Hin as [->|Hin]; [congruence|].
    destruct (IH Hin) as [H1 H2]. cbn [length]. split; [lia|].
    rewrite perm_swap. constructor. exact H2.
Qed.

Lemma firstn_whole {A} (n : nat) (l : list A) :
  (length l <= n)%nat -> firstn n l = l.
Proof. apply firstn_all2. Qed.

End PickedAddress.

(** X5. An address picked from the suggestions and checked again passes the
    guards and is requested; in the recent list it moves to the front, and
    no other address leaves the list. *)
Theorem picked_address_checked :
  forall (key : option string) (s : State) (addr : string),
    truthy key = true ->
    recent_list (recentAddresses s) ->
    In addr (recentAddresses s) ->
    snd (fetchBalances_submit key
           (setShowSuggestions false (setAddress addr s))) = true
    /\ requests
         (fst (fetchBalances_submit key
                 (setShowSuggestions false (setAddress addr s))))
       = (requests s ++ [tokens_url addr])%list
    /\ recentAddresses
         (fst (fetchBalances_submit key
                 (setShowSuggestions false (setAddress addr s))))
       = addr :: remove string_dec addr (recentAddresses s)
    /\ Permutation
         (recentAddresses
            (fst (fetchBalances_submit key
                    (setShowSuggestions false (setAddress addr s)))))
         (recentAddresses s).
Proof.
  intros key s addr Hk (Hn & Hl & Hv) Hin.
  assert (Ha : isValidEthereumAddress addr = true).
  { revert addr Hin. apply List.Forall_forall. exact Hv. }
  assert (Hp : snd (fetchBalances_submit key
                      (setShowSuggestions false (setAddress addr s))) = true).
  { apply fetchBalances_submit_passes. split; [exact Hk | exact Ha]. }
  destruct (remove_member addr (recentAddresses s) Hn Hin) as [Hlen Hperm].
  assert (Er : recentAddresses
                 (fst (fetchBalances_submit key
                         (setShowSuggestions false (setAddress addr s))))
               = addr :: remove string_dec addr (recentAddresses s)).
  { revert Hp. through_guards discriminate. intros _.
    cbn [fst recentAddresses moralisApi_get setShowAll setAllBalances
         setBalances setError setLoading addToRecent localStorage_setItem
         setRecentAddresses setShowSuggestions setAddress address].
    rewrite filter_neq_remove. apply firstn_whole. cbn [length]. lia. }
  split; [exact Hp|]. split; [|split; [exact Er|rewrite Er; exact Hperm]].
  revert Hp. through_guards discriminate. intros _. reflexivity.
Qed.

Lemma picked_address_checked_witness :
  snd (fetchBalances_submit (Some "key")
         (setShowSuggestions false
            (setAddress "0x27b1fdb04752bbc536007a920d24acb045561c26"
               state_with_recent))) = true
  /\ recentAddresses
       (fst (fetchBalances_submit (Some "key")
               (setShowSuggestions false
                  (setAddress "0x27b1fdb04752bbc536007a920d24acb045561c26"
                     state_with_recent))))
     = ["0x27b1fdb04752bbc536007a920d24acb045561c26";
        "0xde709f2102306220921060314715629080e2fb77"].
Proof.
  assert (Hl : recent_list (recentAddresses state_with_recent)).
  { split; [|split].
    - constructor; [|constructor; [|constructor]]; cbn [In].
      + intros [H|[]]. discriminate H.
      + intros [].
    - cbn. lia.
    - repeat constructor. }
  destruct (picked_address_checked (Some "key") state_with_recent
              "0x27b1fdb04752bbc536007a920d24acb045561c26" eq_refl Hl)
    as (H1 & _ & H3 & _).
  - right. left. reflexivity.
  - split; [exact H1|]. rewrite H3. reflexivity.
Defined.
(* ================================================================= *)
(** ** The table: equal values, the total, what is shown *)

Section SumFacts.

Local Open Scope float_scope.

Lemma eqb_rank (x y : float) :
  (0 <? x) = true -> (0 <? y) = true ->
  (x =? y) = (rank (Prim2SF x) =? rank (Prim2SF y))%Z.
Proof.
  intros Hx Hy. rewrite FloatAxioms.eqb_spec. unfold SFeqb.
  rewrite SFcompare_rank by (apply Prim2SF_positive; auto).
  destruct (Z.compare_spec (rank (Prim2SF x)) (rank (Prim2SF y)));
    destruct (Z.eqb_spec (rank (Prim2SF x)) (rank (Prim2SF y)));
    try reflexivity; lia.
Qed.

Lemma eqb_positive (x v : float) :
  (0 <? x) = true -> (x =? v) = true -> (0 <? v) = true.
Proof.
  rewrite !FloatAxioms.ltb_spec, FloatAxioms.eqb_spec.
  change (Prim2SF 0) with (S754_zero false).
  destruct (Prim2SF x) as [sx|sx| |sx mx ex]; try discriminate;
    destruct sx; try discriminate;
    destruct (Prim2SF v) as [sv|sv| |sv mv ev]; try discriminate;
    try destruct sv; try discriminate; reflexivity.
Qed.

Lemma ltb_leb_zero (x : float) : (0 <? x) = true -> (0 <=? x) = true.
Proof.
  rewrite FloatAxioms.ltb_spec, FloatAxioms.leb_spec.
  change (Prim2SF 0) with (S754_zero false).
  destruct (Prim2SF x) as [sx|sx| |sx mx ex]; try discriminate;
    destruct sx; try discriminate; reflexivity.
Qed.

(** A sum of a number that is not negative and a positive number is
    positive, an infinity included. *)
Lemma add_positive (x y : float) :
  (0 <=? x) = true -> (0 <? y) = true -> (0 <? x + y) = true.
Proof.
  intros Hx Hy.
  pose proof (Prim2SF_valid x) as VX. pose proof (Prim2SF_valid y) as VY.
  rewrite FloatAxioms.ltb_spec, FloatAxioms.add_spec.
  rewrite FloatAxioms.leb_spec in Hx. rewrite FloatAxioms.ltb_spec in Hy.
  change (Prim2SF 0) with (S754_zero false) in *.
  destruct (Prim2SF y) as [sy|sy| |sy my ey]; try discriminate;
    destruct sy; try discriminate;
    destruct (Prim2SF x) as [sx|sx| |sx mx ex]; try discriminate;
    try (destruct sx; try discriminate; reflexivity).
  destruct sx; try discriminate.
  cbn [valid_binary] in VX, VY.
  apply bounded_inv in VX as (Hex & _). apply bounded_inv in VY as (Hey & _).
  unfold SF64add, SFadd. cbv zeta. unfold cond_Zopp.
  rewrite binary_normalize_sign by lia.
  apply Z.ltb_lt. lia.
Qed.

Lemma fold_add_positive (l : list TokenBalance) :
  Forall valued l ->
  forall acc : float,
    (0 <=? acc) = true -> l <> [] ->
    (0 <? fold_left (fun acc token => acc + usd token) l acc) = true.
Proof.
  induction 1 as [|token l Ht _ IH]; intros acc Hacc Hne; [congruence|].
  cbn [fold_left]. pose proof (add_positive acc (usd token) Hacc Ht) as Hp.
  destruct l as [|token' l]; [exact Hp|].
  apply IH; [apply ltb_leb_zero; exact Hp | discriminate].
Qed.

End SumFacts.

Section StableOrder.

Variable v : float.

Lemma sort_insert_valued_at_other (x : TokenBalance) (l : list TokenBalance) :
  valued_at v x = false ->
  List.filter (valued_at v) (sort_insert by_usd_descending x l)
  = List.filter (valued_at v) l.
Proof.
  intros Hx. induction l as [|y l IH]; cbn [sort_insert List.filter].
  - rewrite Hx. reflexivity.
  - destruct (0 <? SortCompare by_usd_descending x y)%float;
      cbn [List.filter]; [rewrite IH | rewrite Hx]; reflexivity.
Qed.

(** A token is placed behind tokens worth more only: it stays before
    every token of its own value. *)
Lemma sort_insert_valued_at_same (x : TokenBalance) (l : list TokenBalance) :
  valued x -> Forall valued l -> valued_at v x = true ->
  List.filter (valued_at v) (sort_insert by_usd_descending x l)
  = x :: List.filter (valued_at v) l.
Proof.
  intros Hx Hl Hv. induction Hl as [|y l Hy _ IH];
    cbn [sort_insert List.filter].
  - rewrite Hv. reflexivity.
  - destruct (0 <? SortCompare by_usd_descending x y)%float eqn:E;
      cbn [List.filter]; [|rewrite Hv; reflexivity].
    assert (Hy' : valued_at v y = false).
    { unfold valued_at in *. pose proof (eqb_positive _ _ Hx Hv) as Hpos.
      rewrite comparator_positive, ltb_rank in E by auto.
      rewrite eqb_rank in Hv by auto. rewrite eqb_rank by auto.
      apply Z.ltb_lt in E. apply Z.eqb_eq in Hv. apply Z.eqb_neq. lia. }
    rewrite Hy', IH. reflexivity.
Qed.

Lemma Array_sort_valued_at (l : list TokenBalance) :
  Forall valued l ->
  List.filter (valued_at v) (Array_sort by_usd_descending l)
  = List.filter (valued_at v) l.
Proof.
  induction 1 as [|x l Hx Hl IH]; [reflexivity|].
  cbn [Array_sort fold_right List.filter].
  change (fold_right (sort_insert by_usd_descending) [] l)
    with (Array_sort by_usd_descending l).
  assert (Hs : Forall valued (Array_sort by_usd_descending l)).
  { apply List.Forall_forall. intros y Hy. apply Array_sort_In in Hy.
    revert y Hy. apply List.Forall_forall. exact Hl. }
  destruct (valued_at v x) eqn:E.
  - rewrite sort_insert_valued_at_same by auto. rewrite IH. reflexivity.
  - rewrite sort_insert_valued_at_other by auto. exact IH.
Qed.

End StableOrder.

(** X6. The sort is stable: the listed tokens of one and the same
    [usd_value] stand in the list of all balances in the order in which the
    response gave them. *)
Theorem equal_values_keep_order :
  forall (result : list TokenBalance) (s : State) (v : float),
    List.filter (fun token => (usd token =? v)%float)
      (allBalances (fetchBalances_settle (Resolved result) s))
    = List.filter (fun token => (usd token =? v)%float)
        (List.filter
           (fun token => negb (possible_spam token) && (0 <? usd token)%float)
           result).
Proof.
  intros result s v.
  destruct (fetchBalances_settle_Resolved result s) as (-> & _).
  apply (Array_sort_valued_at v), filter_valid_valued.
Qed.

(** X7. The total of a resolved request is the number zero when no token is
    listed and a positive number (which may be the infinity) when one is; it
    is never [NaN]. *)
Theorem totalValue_sign :
  forall (result : list TokenBalance) (s : State),
    (allBalances (fetchBalances_settle (Resolved result) s) = [] ->
     totalValue (fetchBalances_settle (Resolved result) s) = 0%float)
    /\ (allBalances (fetchBalances_settle (Resolved result) s) <> [] ->
        (0 <? totalValue (fetchBalances_settle (Resolved result) s))%float
        = true)
    /\ is_nan (totalValue (fetchBalances_settle (Resolved result) s)) = false.
Proof.
  intros result s.
  destruct (fetchBalances_settle_Resolved result s) as (Ea & _ & ->).
  rewrite Ea.
  assert (Hv : Forall valued
                 (Array_sort by_usd_descending (List.filter is_valid_token result))).
  { apply List.Forall_forall. intros y Hy. apply Array_sort_In in Hy.
    revert y Hy. apply List.Forall_forall. apply filter_valid_valued. }
  assert (Hp : Array_sort by_usd_descending (List.filter is_valid_token result) <> [] ->
               (0 <? sum_usd (Array_sort by_usd_descending
                                (List.filter is_valid_token result)))%float = true).
  { intros Hne. apply fold_add_positive; auto. }
  split; [intros ->; reflexivity|]. split; [exact Hp|].
  destruct (Array_sort by_usd_descending (List.filter is_valid_token result))
    as [|token l] eqn:E; [reflexivity|].
  destruct (is_nan (sum_usd (token :: l))) eqn:En; [|reflexivity].
  rewrite (is_nan_not_positive _ En) in Hp.
  symmetry. apply Hp. discriminate.
Qed.
(* ================================================================= *)
(** ** What the component shows *)

Section Display.

Variable key : option string.

Lemma filter_nil_iff {A} (f : A -> bool) (l : list A) :
  List.filter f l = [] <-> forall x, In x l -> f x = false.
Proof.
  induction l as [|y l IH]; cbn [List.filter In].
  - split; [intros _ x [] | reflexivity].
  - destruct (f y) eqn:E.
    + split; [discriminate|]. intros H. specialize (H y (or_introl eq_refl)).
      congruence.
    + rewrite IH. split.
      * intros H x [<-|Hin]; auto.
      * intros H x Hin. apply H. right. exact Hin.
Qed.

Lemma table_consistent_submit (s : State) :
  table_consistent s -> table_consistent (fst (fetchBalances_submit key s)).
Proof.
  intros H. through_guards ltac:(exact H).
  split; [constructor | intros Hne; contradiction Hne; reflexivity].
Qed.

Lemma table_consistent_settle (o : Outcome) (s : State) :
  loading s = true -> lists_agree s ->
  table_consistent s -> table_consistent (fetchBalances_settle o s).
Proof.
  intros Hl (_ & _ & He) [Hv Ht]. destruct (He Hl) as [Eb Ea].
  destruct o as [result|err].
  - destruct (fetchBalances_settle_Resolved result s) as (E1 & _ & E3).
    split; [|intros _; exact E3]. rewrite E1.
    apply List.Forall_forall. intros token Hin.
    apply Array_sort_In, filter_In in Hin. tauto.
  - split; [exact Hv|].
    cbn [fetchBalances_settle balances setLoading setError]. rewrite Eb.
    intros Hne. contradiction Hne. reflexivity.
Qed.

Lemma table_consistent_step (s s' : State) :
  step key s s' -> lists_agree s -> table_consistent s -> table_consistent s'.
Proof.
  intros Hstep Ha H. destruct Hstep; try exact H.
  - unfold load_recentAddresses.
    destruct (localStorage_recentAddresses s); exact H.
  - apply table_consistent_submit. exact H.
  - apply table_consistent_settle; auto.
Qed.

Lemma table_consistent_reachable (s : State) :
  reachable key s -> table_consistent s.
Proof.
  induction 1 as [stored|s s' Hr IH Hstep].
  - split; [constructor | intros Hne; contradiction Hne; reflexivity].
  - eapply table_consistent_step; eauto using lists_agree_reachable.
Qed.

(** The table of a state in which the lists agree. *)
Lemma table_of_consistent (s : State) (rows : list TokenBalance) (total : float) :
  lists_agree s -> table_consistent s ->
  body (render s) = ShowTable rows total ->
  loading s = false
  /\ rows = (if showAll s then allBalances s
             else List.filter at_least_10 (allBalances s))
  /\ rows <> []
  /\ total = sum_usd (allBalances s)
  /\ StronglySorted descending rows
  /\ (forall token : TokenBalance,
        In token rows ->
        possible_spam token = false /\ (0 <? usd token)%float = true)
  /\ (showAll s = false ->
      forall token : TokenBalance,
        In token rows -> (10 <=? usd token)%float = true).
Proof.
  intros (Eb & Hs & _) [Hv Ht]. unfold render. cbn [body].
  destruct (loading s); [discriminate|].
  destruct (balances s) as [|b bs] eqn:E; [discriminate|].
  intros H. injection H as <- <-.
  assert (Hne : b :: bs <> []) by discriminate.
  assert (Hin : forall token,
             In token (if showAll s then allBalances s else b :: bs) ->
             In token (allBalances s)).
  { intros token. destruct (showAll s); [auto|].
    rewrite Eb, filter_In. tauto. }
  split; [reflexivity|]. split; [rewrite <- Eb; reflexivity|].
  split.
  { destruct (showAll s); [|exact Hne].
    intros Ea. rewrite Ea in Eb. discriminate Eb. }
  split; [apply Ht; exact Hne|].
  split.
  { destruct (showAll s); [exact Hs|].
    rewrite Eb. apply StronglySorted_filter. exact Hs. }
  split.
  - intros token Ht'. apply Hin in Ht'.
    assert (Hvt : is_valid_token token = true).
    { revert token Ht'. apply List.Forall_forall. exact Hv. }
    unfold is_valid_token in Hvt. apply andb_true_iff in Hvt as [H1 H2].
    apply negb_true_iff in H1. auto.
  - intros -> token Ht'. rewrite Eb in Ht'. apply filter_In in Ht'.
    exact (proj2 Ht').
Qed.

End Display.

(** X8. Whenever a table is rendered, between events or in the middle of a
    run of [fetchBalances], no request is awaited, its rows are the list of
    all balances if [showAll] is set and the entries of at least 10 USD
    otherwise, there is at least one row, the rows are in descending order
    of [usd_value], none is flagged as spam or without a positive value, and
    the total under the table is the sum over the list of all balances,
    hidden entries included. *)
Theorem table_shown :
  forall (key : option string) (s : State) (rows : list TokenBalance)
         (total : float),
    rendered key s ->
    body (render s) = ShowTable rows total ->
    loading s = false
    /\ rows = (if showAll s then allBalances s
               else List.filter (fun token => (10 <=? usd token)%float)
                      (allBalances s))
    /\ rows <> []
    /\ total
       = fold_left (fun acc token => (acc + usd token)%float) (allBalances s)
           0%float
    /\ StronglySorted descending rows
    /\ (forall token : TokenBalance,
          In token rows ->
          possible_spam token = false /\ (0 <? usd token)%float = true)
    /\ (showAll s = false ->
        forall token : TokenBalance,
          In token rows -> (10 <=? usd token)%float = true).
Proof.
  intros key s rows total Hr.
  destruct Hr as [s Hr|s applied rest Hr Hl _ E|o s applied rest Hr Hl E].
  - apply table_of_consistent;
      [apply (lists_agree_reachable key) | apply (table_consistent_reachable key)];
      exact Hr.
  - pose proof (lists_agree_reachable key s Hr) as Ha.
    pose proof (table_consistent_reachable key s Hr) as Hc.
    rewrite (applied_firstn _ _ _ E). unfold submit_updates.
    destruct (length applied) as [|[|[|[|[|[|[|[|n]]]]]]]];
      cbn [firstn]; rewrite ?firstn_nil; cbn [apply_all fold_left];
      try (intros H; cbn in H; discriminate H).
    + apply table_of_consistent; assumption.
    + apply table_of_consistent; assumption.
    + apply table_of_consistent; assumption.
  - pose proof (lists_agree_reachable key s Hr) as Ha.
    pose proof (table_consistent_reachable key s Hr) as Hc.
    assert (Hfull : body (render (fetchBalances_settle o s)) = ShowTable rows total ->
                    _) by
      (apply table_of_consistent;
       [apply lists_agree_settle | apply table_consistent_settle]; auto).
    rewrite (applied_firstn _ _ _ E).
    destruct o as [result|err]; unfold settle_updates.
    + destruct (length applied) as [|[|[|[|n]]]];
        cbn [firstn]; rewrite ?firstn_nil; cbn [apply_all fold_left];
        try (intros H; cbn in H; rewrite Hl in H; discriminate H);
        exact Hfull.
    + destruct (length applied) as [|[|n]];
        cbn [firstn]; rewrite ?firstn_nil; cbn [apply_all fold_left];
        try (intros H; cbn in H; rewrite Hl in H; discriminate H);
        exact Hfull.
Qed.

Lemma table_shown_witness :
  loading state_after_fetch = false
  /\ [sample_token "BBB" false (Num 15); sample_token "CCC" false (Num 10)]
     = (if showAll state_after_fetch then allBalances state_after_fetch
        else List.filter (fun token => (10 <=? usd token)%float)
               (allBalances state_after_fetch))
  /\ [sample_token "BBB" false (Num 15); sample_token "CCC" false (Num 10)]
     <> []
  /\ 30%float
     = fold_left (fun acc token => (acc + usd token)%float)
         (allBalances state_after_fetch) 0%float
  /\ StronglySorted descending
       [sample_token "BBB" false (Num 15); sample_token "CCC" false (Num 10)]
  /\ (forall token : TokenBalance,
        In token
          [sample_token "BBB" false (Num 15); sample_token "CCC" false (Num 10)] ->
        possible_spam token = false /\ (0 <? usd token)%float = true)
  /\ (showAll state_after_fetch = false ->
      forall token : TokenBalance,
        In token
          [sample_token "BBB" false (Num 15); sample_token "CCC" false (Num 10)] ->
        (10 <=? usd token)%float = true).
Proof.
  apply (table_shown (Some "key") state_after_fetch).
  - apply rendered_between. apply state_after_fetch_reachable.
  - reflexivity.
Defined.

(** X9. After a resolved request nothing is rendered, neither a table nor a
    message, exactly when no token of the response is listed with at least
    10 USD: tokens below 10 USD are then in the list of all balances, and
    the [Show all] button, which is part of the table, is not there to show
    them. Otherwise the table shows the entries of at least 10 USD and the
    total of all listed tokens. *)
Theorem nothing_shown_below_10 :
  forall (key : option string) (result : list TokenBalance) (s : State),
    snd (fetchBalances_submit key s) = true ->
    (body (render (fetchBalances key (Resolved result) s)) = ShowNothing <->
     forall token : TokenBalance,
       In token result ->
       possible_spam token = false -> (0 <? usd token)%float = true ->
       (10 <=? usd token)%float = false)
    /\ (body (render (fetchBalances key (Resolved result) s)) = ShowNothing ->
        balances (fetchBalances key (Resolved result) s) = []
        /\ showAll (fetchBalances key (Resolved result) s) = false
        /\ banner (render (fetchBalances key (Resolved result) s)) = None
        /\ forall token : TokenBalance,
             In token (allBalances (fetchBalances key (Resolved result) s)) <->
             In token result /\ possible_spam token = false
             /\ (0 <? usd token)%float = true)
    /\ (body (render (fetchBalances key (Resolved result) s)) <> ShowNothing ->
        body (render (fetchBalances key (Resolved result) s))
        = ShowTable
            (List.filter (fun token => (10 <=? usd token)%float)
               (allBalances (fetchBalances key (Resolved result) s)))
            (totalValue (fetchBalances key (Resolved result) s))).
Proof.
  intros key result s Hp. rewrite (fetchBalances_passed key _ s Hp).
  set (s0 := fst (fetchBalances_submit key s)).
  assert (Hs0 : showAll s0 = false /\ error s0 = None).
  { subst s0. revert Hp. through_guards discriminate. intros _. split; reflexivity. }
  destruct (fetchBalances_settle_Resolved result s0) as (Ea & Eb & Et).
  assert (Hall : forall token : TokenBalance,
             In token (allBalances (fetchBalances_settle (Resolved result) s0)) <->
             In token result /\ possible_spam token = false
             /\ (0 <? usd token)%float = true).
  { intros token. rewrite Ea, Array_sort_In, filter_In. unfold is_valid_token.
    rewrite andb_true_iff, negb_true_iff. tauto. }
  assert (Hbody : body (render (fetchBalances_settle (Resolved result) s0))
                  = match balances (fetchBalances_settle (Resolved result) s0) with
                    | _ :: _ =>
                        ShowTable (balances (fetchBalances_settle (Resolved result) s0))
                          (totalValue (fetchBalances_settle (Resolved result) s0))
                    | [] => ShowNothing
                    end).
  { unfold render. cbn [body].
    change (loading (fetchBalances_settle (Resolved result) s0)) with false.
    change (showAll (fetchBalances_settle (Resolved result) s0)) with (showAll s0).
    rewrite (proj1 Hs0). reflexivity. }
  assert (Hnil : balances (fetchBalances_settle (Resolved result) s0) = [] <->
                 forall token : TokenBalance,
                   In token result ->
                   possible_spam token = false -> (0 <? usd token)%float = true ->
                   (10 <=? usd token)%float = false).
  { rewrite Eb, filter_nil_iff. split.
    - intros H token Hin H1 H2. apply (H token). apply Hall. auto.
    - intros H token Hin. apply Hall in Hin as (Hin & H1 & H2).
      apply H; auto. }
  rewrite Hbody.
  split; [|split].
  - rewrite <- Hnil.
    destruct (balances (fetchBalances_settle (Resolved result) s0));
      split; try discriminate; reflexivity.
  - intros H.
    assert (Hb : balances (fetchBalances_settle (Resolved result) s0) = []).
    { destruct (balances (fetchBalances_settle (Resolved result) s0));
        [reflexivity | discriminate]. }
    split; [exact Hb|]. split; [exact (proj1 Hs0)|]. split; [|exact Hall].
    unfold render. cbn [banner].
    change (error (fetchBalances_settle (Resolved result) s0)) with (error s0).
    rewrite (proj2 Hs0). reflexivity.
  - intros H. unfold at_least_10 in Eb. rewrite <- Eb.
    destruct (balances (fetchBalances_settle (Resolved result) s0));
      [contradiction H; reflexivity | reflexivity].
Qed.

Lemma nothing_shown_below_10_witness :
  body
    (render
       (fetchBalances (Some "key")
          (Resolved [sample_token "AAA" false (Num 5);
                     sample_token "BBB" false (Num 9.99)])
          (setAddress "0x52908400098527886E0F7030069857D2E4169EE7"
             (initial_State None))))
  = ShowNothing
  /\ allBalances
       (fetchBalances (Some "key")
          (Resolved [sample_token "AAA" false (Num 5);
                     sample_token "BBB" false (Num 9.99)])
          (setAddress "0x52908400098527886E0F7030069857D2E4169EE7"
             (initial_State None)))
     = [sample_token "BBB" false (Num 9.99); sample_token "AAA" false (Num 5)].
Proof.
  destruct (nothing_shown_below_10 (Some "key")
              [sample_token "AAA" false (Num 5);
               sample_token "BBB" false (Num 9.99)]
              (setAddress "0x52908400098527886E0F7030069857D2E4169EE7"
                 (initial_State None))
              eq_refl) as ((_ & H) & _).
  split; [|vm_compute; reflexivity].
  apply H. intros token [<-|[<-|[]]] _ _; reflexivity.
Defined.
(* ================================================================= *)
(** ** [formatMoney] and the change cells *)

Section MoneyFacts.

Import NumberToString.

(** [ToRawFixed] with exactly two fraction digits. *)
Lemma ToRawFixed_two (p q : Z) :
  (0 <= p)%Z -> (0 < q)%Z ->
  exists int frac : string,
    ToRawFixed p q 2 2 = int ++ "." ++ frac
    /\ digits int = true /\ all_digits frac = true
    /\ String.length frac = 2%nat.
Proof.
  intros Hp Hq. unfold ToRawFixed.
  assert (Hn : (0 <= nearest_int (p * pow10 2) q)%Z).
  { apply nearest_int_nonneg; auto. unfold pow10. simpl. lia. }
  destruct (point_at_parts 2 _ ltac:(lia) (digits_decimal _ Hn))
    as (int & frac & -> & Hi & Hfr & Hl & _).
  exists int, frac. split; [|auto].
  destruct frac as [|f1 [|f2 [|]]]; try discriminate.
  cbn [all_digits] in Hfr.
  apply andb_true_iff in Hfr as [H1 Hfr]. apply andb_true_iff in Hfr as [H2 _].
  change ("." ++ String f1 (String f2 "")) with (String "." (String f1 (String f2 ""))).
  rewrite list_ascii_app. cbn [list_ascii_of_string].
  rewrite rev_app_distr. cbn [rev app Nat.sub strip_zeros_rev strip_point_rev].
  rewrite (digit_not_point f2 H2).
  cbn [rev]. rewrite rev_involutive, <- !app_assoc.
  rewrite string_of_list_app, string_of_list_ascii_of_string.
  reflexivity.
Qed.

Lemma money_form_intro (sg : bool) (int frac : string) :
  digits int = true -> all_digits frac = true -> String.length frac = 2%nat ->
  money_form (sign_string sg ++ "$" ++ group_integer int ++ String "." frac)
  = true.
Proof.
  intros Hi Hf Hl. destruct (grouped_integer_group_integer int Hi) as [G L].
  unfold money_form.
  replace (strip_sign (sign_string sg ++ "$" ++ group_integer int ++ String "." frac))
    with (String "$" (group_integer int ++ String "." frac))
    by (destruct sg; reflexivity).
  rewrite split_at_lacks by exact L.
  rewrite G, Hf, Hl. reflexivity.
Qed.

Lemma formatMoney_finite (a : float) (sg : bool) (m : positive) (e : Z) :
  Prim2SF a = S754_finite sg m e ->
  exists int frac : string,
    formatMoney a
    = sign_string sg ++ "$" ++ group_integer int ++ String "." frac
    /\ digits int = true /\ all_digits frac = true
    /\ String.length frac = 2%nat.
Proof.
  intros Ea. unfold formatMoney. rewrite Ea.
  pose proof (shortest_nonneg m e) as Hs.
  destruct (shortest m e) as [s t]. cbn [fst] in Hs.
  destruct (decimal_fraction_nonneg s t Hs) as [Hp Hq].
  destruct (decimal_fraction s t) as [p q]. cbn [fst snd] in *.
  destruct (ToRawFixed_two p q Hp Hq) as (int & frac & -> & Hi & Hf & Hl).
  assert (Hlk : lacks "." int = true).
  { apply all_digits_lacks; [reflexivity|].
    unfold digits in Hi. apply andb_true_iff in Hi. tauto. }
  change ("." ++ frac) with (String "." frac).
  rewrite split_point_lacks by auto.
  exists int, frac. auto.
Qed.

Lemma formatMoney_zero (a : float) (sg : bool) :
  Prim2SF a = S754_zero sg -> formatMoney a = sign_string sg ++ "$0.00".
Proof. intros Ea. unfold formatMoney. rewrite Ea. reflexivity. Qed.

Lemma unsigned (s : string) : sign_string false ++ s = s.
Proof. reflexivity. Qed.

Lemma first_is_sign (c : ascii) (sg : bool) (s : string) :
  first_is c (sign_string sg ++ s)
  = if sg then Ascii.eqb "-" c else first_is c s.
Proof. destruct sg; reflexivity. Qed.

Lemma starts_with_digit_first (c : ascii) (s : string) :
  is_digit c = false -> starts_with_digit s = true -> first_is c s = false.
Proof.
  destruct s as [|d s]; [discriminate|]. cbn [starts_with_digit first_is].
  intros Hc Hd. destruct (Ascii.eqb_spec d c) as [->|]; [congruence | reflexivity].
Qed.

Lemma starts_with_digit_digits (s : string) :
  digits s = true -> starts_with_digit s = true.
Proof.
  destruct s as [|d s]; [discriminate|]. unfold digits.
  cbn [truthy_string all_digits starts_with_digit andb].
  intros H. apply andb_true_iff in H. tauto.
Qed.

Lemma starts_with_digit_app (a b : string) :
  starts_with_digit a = true -> starts_with_digit (a ++ b) = true.
Proof. destruct a; [discriminate | auto]. Qed.

Lemma starts_with_digit_take (n : nat) (s : string) :
  (0 < n)%nat -> starts_with_digit s = true ->
  starts_with_digit (take n s) = true.
Proof.
  destruct n as [|n]; [lia|]. destruct s; [discriminate | auto].
Qed.

Lemma starts_with_digit_mantissa_part (s : string) :
  starts_with_digit s = true -> starts_with_digit (mantissa_part s) = true.
Proof.
  destruct s as [|d [|d' s]]; auto.
Qed.

(** The digits of [Number::toString] on a positive number begin with a
    digit. *)
Lemma Number_toString_digit (a : float) (m : positive) (e : Z) :
  Prim2SF a = S754_finite false m e ->
  starts_with_digit (Number_toString a) = true.
Proof.
  intros Ea. unfold Number_toString. rewrite Ea.
  pose proof (shortest_nonneg m e) as Hs.
  destruct (shortest m e) as [s t]. cbn [fst] in Hs.
  pose proof (starts_with_digit_digits _ (digits_decimal s Hs)) as Hd.
  rewrite unsigned.
  destruct (_ && _).
  - destruct (Z.leb_spec (Z.of_nat (String.length (decimal s)))
                (t + Z.of_nat (String.length (decimal s)))).
    + apply starts_with_digit_app. exact Hd.
    + destruct (Z.ltb_spec 0 (t + Z.of_nat (String.length (decimal s)))).
      * apply starts_with_digit_app, starts_with_digit_take; [lia | exact Hd].
      * reflexivity.
  - apply starts_with_digit_app, starts_with_digit_mantissa_part. exact Hd.
Qed.

Lemma toFixed_digit (a : float) (f : nat) (m : positive) (e : Z) :
  Prim2SF a = S754_finite false m e ->
  starts_with_digit (toFixed a f) = true.
Proof.
  intros Ea. pose proof (Number_toString_digit a m e Ea) as Hbig.
  unfold toFixed. rewrite Ea.
  destruct (fraction_of_positive m e) as [Hp Hq].
  destruct (fraction_of m e) as [p q]. cbn [fst snd] in *.
  destruct (_ <=? _)%Z; [exact Hbig|].
  assert (Hn : (0 <= nearest_int (p * pow10 f) q)%Z).
  { apply nearest_int_nonneg; auto. unfold pow10.
    assert (0 < 10 ^ Z.of_nat f)%Z by (apply Z.pow_pos_nonneg; lia). nia. }
  rewrite unsigned.
  destruct f as [|f].
  - cbn [point_at]. apply starts_with_digit_digits, digits_decimal. exact Hn.
  - destruct (point_at_parts (S f) _ ltac:(lia) (digits_decimal _ Hn))
      as (int & frac & -> & Hi & _).
    apply starts_with_digit_app, starts_with_digit_digits. exact Hi.
Qed.

End MoneyFacts.

Section Signs.

Local Open Scope float_scope.

Lemma ltb_zero_sign (a : float) :
  (a <? 0)
  = match Prim2SF a with
    | S754_infinity sg | S754_finite sg _ _ => sg
    | _ => false
    end.
Proof.
  rewrite FloatAxioms.ltb_spec. change (Prim2SF 0) with (S754_zero false).
  destruct (Prim2SF a) as [s|s| |s m e]; try reflexivity; destruct s; reflexivity.
Qed.

Lemma zero_ltb_sign (a : float) :
  (0 <? a)
  = match Prim2SF a with
    | S754_infinity sg | S754_finite sg _ _ => negb sg
    | _ => false
    end.
Proof.
  rewrite FloatAxioms.ltb_spec. change (Prim2SF 0) with (S754_zero false).
  destruct (Prim2SF a) as [s|s| |s m e]; try reflexivity; destruct s; reflexivity.
Qed.

(** [toFixed] puts a minus sign before the negative numbers and before
    nothing else, and never a plus sign. *)
Lemma toFixed_first (a : float) (f : nat) :
  first_is "-" (NumberToString.toFixed a f) = (a <? 0)
  /\ first_is "+" (NumberToString.toFixed a f) = false.
Proof.
  rewrite ltb_zero_sign.
  destruct (Prim2SF a) as [s|s| |s m e] eqn:Ea.
  - assert (E : NumberToString.toFixed a f
                = NumberToString.point_at f (NumberToString.decimal 0))
      by (unfold NumberToString.toFixed; rewrite Ea; reflexivity).
    rewrite E. destruct f as [|f]; [split; reflexivity|].
    destruct (point_at_parts (S f) (NumberToString.decimal 0) ltac:(lia) eq_refl)
      as (int & frac & -> & Hi & _).
    split; apply starts_with_digit_first; try reflexivity;
      apply starts_with_digit_app, starts_with_digit_digits; exact Hi.
  - unfold NumberToString.toFixed. rewrite Ea. destruct s; split; reflexivity.
  - unfold NumberToString.toFixed. rewrite Ea. split; reflexivity.
  - destruct s.
    + unfold NumberToString.toFixed, NumberToString.Number_toString. rewrite Ea.
      destruct (NumberToString.fraction_of m e) as [p q].
      destruct (NumberToString.shortest m e) as [s t].
      destruct (_ <=? _)%Z; split; reflexivity.
    + pose proof (toFixed_digit a f m e Ea) as H.
      split; apply starts_with_digit_first; auto.
Qed.

(** [formatMoney] puts a minus sign before the negative numbers and
    before [-0], and never a plus sign. *)
Lemma formatMoney_first (a : float) :
  first_is "-" (formatMoney a) = (a <? 0) || is_negative_zero a
  /\ first_is "+" (formatMoney a) = false.
Proof.
  rewrite ltb_zero_sign. unfold is_negative_zero.
  destruct (Prim2SF a) as [s|s| |s m e] eqn:Ea.
  - rewrite (formatMoney_zero a s Ea). destruct s; split; reflexivity.
  - unfold formatMoney. rewrite Ea. destruct s; split; reflexivity.
  - unfold formatMoney. rewrite Ea. split; reflexivity.
  - destruct (formatMoney_finite a s m e Ea) as (int & frac & -> & _).
    destruct s; split; reflexivity.
Qed.

End Signs.

(** X10. [formatMoney] on a finite number gives a dollar sign, the integer
    digits in groups of three and exactly two fraction digits, with a minus
    sign in front when the number is negative and none when it is positive;
    [formatMoney(1234.5)] is ["$1,234.50"]. *)
Theorem formatMoney_form :
  forall a : float,
    isFinite a = true ->
    money_form (formatMoney a) = true
    /\ ((a <? 0)%float = true -> first_is "-" (formatMoney a) = true)
    /\ ((0 <? a)%float = true -> first_is "$" (formatMoney a) = true)
    /\ formatMoney 1234.5 = "$1,234.50"
    /\ formatMoney 0 = "$0.00".
Proof.
  intros a Hf. unfold isFinite in Hf.
  split; [|split; [|split; [|split; vm_compute; reflexivity]]].
  - destruct (Prim2SF a) as [s|s| |s m e] eqn:Ea; try discriminate.
    + rewrite (formatMoney_zero a s Ea). destruct s; reflexivity.
    + destruct (formatMoney_finite a s m e Ea) as (int & frac & -> & Hi & Hfr & Hl).
      apply money_form_intro; auto.
  - intros H. rewrite (proj1 (formatMoney_first a)), H. reflexivity.
  - rewrite zero_ltb_sign.
    destruct (Prim2SF a) as [s|s| |s m e] eqn:Ea; try discriminate.
    destruct s; [discriminate|]. intros _.
    destruct (formatMoney_finite a false m e Ea) as (int & frac & -> & _).
    reflexivity.
Qed.

Lemma formatMoney_form_witness :
  money_form (formatMoney (-1234.567)) = true
  /\ first_is "-" (formatMoney (-1234.567)) = true
  /\ formatMoney (-1234.567) = "-$1,234.57".
Proof.
  destruct (formatMoney_form (-1234.567) eq_refl) as (H1 & H2 & _).
  split; [exact H1|]. split; [apply H2; reflexivity|].
  vm_compute. reflexivity.
Defined.

(** X11. The sign a change over 24 hours is shown with agrees with its
    colour: the text of the percentage begins with a plus sign exactly when
    the change is positive and the cell is green, with a minus sign exactly
    when it is negative and the cell is red; so does the text of the change
    in USD, except that a change of [-0] is shown as ["-$0.00"] without a
    colour. *)
Theorem change_cells_sign :
  forall token : TokenBalance,
    first_is "+" (text (percent_change_cell token))
    = (0 <? usd_price_24hr_percent_change token)%float
    /\ first_is "-" (text (percent_change_cell token))
       = (usd_price_24hr_percent_change token <? 0)%float
    /\ (className (percent_change_cell token) = "text-green-400" <->
        (0 <? usd_price_24hr_percent_change token)%float = true)
    /\ (className (percent_change_cell token) = "text-red-400" <->
        (usd_price_24hr_percent_change token <? 0)%float = true)
    /\ first_is "+" (text (usd_change_cell token))
       = (0 <? usd_price_24hr_usd_change token)%float
    /\ first_is "-" (text (usd_change_cell token))
       = ((usd_price_24hr_usd_change token <? 0)%float
          || is_negative_zero (usd_price_24hr_usd_change token))
    /\ (className (usd_change_cell token) = "text-sm text-green-400" <->
        (0 <? usd_price_24hr_usd_change token)%float = true)
    /\ (className (usd_change_cell token) = "text-sm text-red-400" <->
        (usd_price_24hr_usd_change token <? 0)%float = true).
Proof.
  intros token. unfold percent_change_cell, usd_change_cell.
  cbn [text className]. unfold change_sign, change_class.
  generalize (usd_price_24hr_percent_change token) (usd_price_24hr_usd_change token).
  intros c d.
  destruct (toFixed_first c 2) as [Hm Hp].
  destruct (formatMoney_first d) as [Hm' Hp'].
  assert (Hc : (0 <? c)%float = true -> (c <? 0)%float = false).
  { rewrite zero_ltb_sign, ltb_zero_sign.
    destruct (Prim2SF c) as [s|s| |s m e]; try discriminate; destruct s;
      try discriminate; reflexivity. }
  assert (Hd : (0 <? d)%float = true ->
               (d <? 0)%float = false /\ is_negative_zero d = false).
  { rewrite zero_ltb_sign, ltb_zero_sign. unfold is_negative_zero.
    destruct (Prim2SF d) as [s|s| |s m e]; try discriminate; destruct s;
      try discriminate; split; reflexivity. }
  repeat split.
  - destruct (0 <? c)%float; [reflexivity|].
    cbn [String.append]. destruct (NumberToString.toFixed c 2) eqn:E; [reflexivity|].
    exact Hp.
  - destruct (0 <? c)%float eqn:E.
    + rewrite (Hc eq_refl). reflexivity.
    + cbn [String.append]. rewrite <- Hm.
      destruct (NumberToString.toFixed c 2); reflexivity.
  - destruct (0 <? c)%float; [reflexivity|].
    destruct (c <? 0)%float; discriminate.
  - destruct (0 <? c)%float; [reflexivity|]. intros H; discriminate H.
  - destruct (0 <? c)%float eqn:E; [discriminate|].
    destruct (c <? 0)%float; [reflexivity | discriminate].
  - destruct (0 <? c)%float eqn:E.
    + intros H. rewrite (Hc eq_refl) in H. discriminate.
    + intros ->. reflexivity.
  - destruct (0 <? d)%float; [reflexivity|]. exact Hp'.
  - destruct (0 <? d)%float eqn:E.
    + destruct (Hd eq_refl) as [-> ->]. reflexivity.
    + exact Hm'.
  - destruct (0 <? d)%float; [reflexivity|].
    destruct (d <? 0)%float; discriminate.
  - destruct (0 <? d)%float; [reflexivity|]. intros H; discriminate H.
  - destruct (0 <? d)%float eqn:E; [discriminate|].
    destruct (d <? 0)%float; [reflexivity | discriminate].
  - destruct (0 <? d)%float eqn:E.
    + intros H. destruct (Hd eq_refl) as [H' _]. rewrite H' in H. discriminate.
    + intros ->. reflexivity.
Qed.
(* ================================================================= *)
(** ** The loading of the market table *)

Section MarketLoadingFacts.

Variable toUpperCase : string -> string.

Lemma pages_up_to_snoc (k : nat) :
  (pages_up_to k ++ [Z.of_nat (S k)])%list = pages_up_to (S k).
Proof. unfold pages_up_to. rewrite seq_S, map_app. reflexivity. Qed.

Lemma market_phase_initial : market_phase initial_Market.
Proof. exists 1%nat. split; [lia|]. split; [reflexivity|]. left. repeat split. Qed.

Lemma market_phase_step (m m' : Market) :
  market_step toUpperCase m m' -> market_phase m -> market_phase m'.
Proof.
  intros Hstep (k & Hk & Ek & H). destruct Hstep as [m Hd|page o m Hin|callback rest m Ht].
  - (* the effect runs *)
    destruct H as [(_ & Hl & Ha & Hti & Hr)
                  |[(Hd' & _)|[(Hd' & _)|[(Hd' & _)|(Hl & Ha & Hti & Hr & E10)]]]];
      try congruence.
    + exists k. split; [exact Hk|]. unfold market_effect. market_fields.
      rewrite Hl, Ek. cbn [andb].
      destruct (Z.leb_spec (Z.of_nat k) 10) as [_|Hgt]; [|lia].
      market_fields. split; [exact Ek|]. right. left.
      rewrite Ha, Hr. repeat split; auto.
      destruct k as [|j]; [lia|].
      replace (S j - 1)%nat with j by lia. apply pages_up_to_snoc.
    + exists k. split; [exact Hk|]. unfold market_effect. market_fields.
      rewrite Hl. cbn [andb]. market_fields. split; [exact Ek|].
      do 4 right. auto.
  - (* a request ends *)
    destruct H as [(_ & _ & Ha & _)
                  |[(Hd & Hl & Ha & Hti & Hr)
                   |[(_ & _ & Ha & _)|[(_ & _ & Ha & _)|(_ & Ha & _)]]]];
      rewrite Ha in Hin; cbn [In] in Hin; try contradiction.
    destruct Hin as [<-|[]].
    exists k. split; [exact Hk|].
    destruct o as [data|]; market_fields; rewrite ?Ha; market_fields;
      rewrite ?Z.eqb_refl.
    + destruct (Z.ltb_spec (Z.of_nat k) 10) as [Hlt|Hge]; market_fields;
        rewrite ?Ha; market_fields; rewrite ?Z.eqb_refl.
      * split; [exact Ek|]. right. right. left.
        rewrite Hti. repeat split; auto. lia.
      * split; [exact Ek|]. do 4 right.
        assert (k = 10%nat) as -> by lia. repeat split; auto.
    + split; [exact Ek|]. right. right. right. left.
      rewrite Hti. repeat split; auto.
  - (* a timer fires *)
    destruct H as [(_ & _ & _ & Hti & _)
                  |[(_ & _ & _ & Hti & _)
                   |[(Hd & Hl & Ha & Hti & Hr & Hlt)
                    |[(Hd & Hl & Ha & Hti & Hr)|(_ & _ & Hti & _)]]]];
      try congruence.
    + rewrite Hti in Ht. injection Ht as <- <-.
      exists (S k). split; [lia|]. market_fields. rewrite Hti. market_fields.
      split; [rewrite Ek; lia|]. left.
      rewrite Hd, Ek.
      destruct (Z.eqb_spec (Z.of_nat k + 1) (Z.of_nat k)) as [Heq|_]; [lia|].
      replace (S k - 1)%nat with k by lia. repeat split; auto.
    + destruct Hti as [Hti|Hti]; [|congruence].
      rewrite Hti in Ht. injection Ht as <- <-.
      exists k. split; [exact Hk|]. market_fields. rewrite Hti. market_fields.
      split; [exact Ek|]. right. right. right. left.
      rewrite Hd, Z.eqb_refl. repeat split; auto.
Qed.

Lemma market_phase_reachable (m : Market) :
  market_reachable toUpperCase m -> market_phase m.
Proof.
  induction 1 as [|m m' _ IH Hstep].
  - apply market_phase_initial.
  - eapply market_phase_step; eauto.
Qed.

Lemma market_halted_step (m0 m m' : Market) :
  market_step toUpperCase m m' -> market_halted m0 m -> market_halted m0 m'.
Proof.
  intros Hstep (Hd & Ha & Hti & H1 & H2 & H3 & H4).
  destruct Hstep as [m Hd'|page o m Hin|callback rest m Ht].
  - congruence.
  - rewrite Ha in Hin. destruct Hin.
  - destruct Hti as [Hti|Hti]; [|congruence].
    rewrite Hti in Ht. injection Ht as <- <-.
    unfold market_halted. market_fields.
    rewrite Hti, Hd, Z.eqb_refl. auto 10.
Qed.

Lemma market_halted_steps (m0 m m' : Market) :
  market_steps toUpperCase m m' -> market_halted m0 m -> market_halted m0 m'.
Proof.
  induction 1 as [|m' m'' _ IH Hstep]; [auto|].
  intros H. eapply market_halted_step; eauto.
Qed.

Lemma market_steps_trans (m1 m2 m3 : Market) :
  market_steps toUpperCase m1 m2 -> market_steps toUpperCase m2 m3 ->
  market_steps toUpperCase m1 m3.
Proof.
  intros H12 H23. induction H23 as [|m3 m4 _ IH Hstep]; [exact H12|].
  eapply market_steps_step; eauto.
Qed.

Lemma market_reachable_steps (m m' : Market) :
  market_reachable toUpperCase m -> market_steps toUpperCase m m' ->
  market_reachable toUpperCase m'.
Proof.
  intros Hr Hs. induction Hs as [|m' m'' _ IH Hstep]; [exact Hr|].
  eapply market_reachable_step; eauto.
Qed.

(** [load_page] is a run of the component. *)
Lemma load_page_steps (m : Market) (data : list MarketRow) :
  market_steps toUpperCase m (load_page toUpperCase m data).
Proof.
  unfold load_page.
  assert (H1 : market_steps toUpperCase m
                 (if effect_due m then market_effect m else m)).
  { destruct (effect_due m) eqn:E; [|constructor].
    eapply market_steps_step; [constructor|]. constructor. exact E. }
  revert H1. generalize (if effect_due m then market_effect m else m).
  intros m1 H1.
  destruct (awaited_pages m1) as [|page rest] eqn:Ea; [exact H1|].
  assert (H2 : market_steps toUpperCase m
                 (fetchMarketData_settle toUpperCase page (PageResolved data)
                    (settled page m1))).
  { eapply market_steps_step; [exact H1|]. constructor.
    rewrite Ea. left. reflexivity. }
  revert H2.
  generalize (fetchMarketData_settle toUpperCase page (PageResolved data)
                (settled page m1)).
  intros m2 H2.
  destruct (timers m2) as [|callback rest'] eqn:Et; [exact H2|].
  eapply market_steps_step; [exact H2|]. econstructor. exact Et.
Qed.

Lemma load_pages_steps (pages : list (list MarketRow)) (m : Market) :
  market_steps toUpperCase m (fold_left (load_page toUpperCase) pages m).
Proof.
  revert m. induction pages as [|data pages IH]; intros m; [constructor|].
  cbn [fold_left]. eapply market_steps_trans; [apply load_page_steps | apply IH].
Qed.

(** Once all pages are there, [load_page] changes nothing but the flag
    of the effect. *)
Lemma load_page_ready (m : Market) (data : list MarketRow) :
  market_ready m ->
  market_ready (load_page toUpperCase m data)
  /\ topTokens (load_page toUpperCase m data) = topTokens m
  /\ page_requests (load_page toUpperCase m data) = page_requests m.
Proof.
  intros (Hl & Ha & Ht). unfold load_page, market_ready.
  destruct (effect_due m).
  - unfold market_effect. market_fields. rewrite Hl. cbn [andb].
    market_fields. rewrite Ha. market_fields. auto.
  - rewrite Ha. auto.
Qed.

Lemma load_pages_ready (pages : list (list MarketRow)) (m : Market) :
  market_ready m ->
  market_ready (fold_left (load_page toUpperCase) pages m)
  /\ topTokens (fold_left (load_page toUpperCase) pages m) = topTokens m
  /\ page_requests (fold_left (load_page toUpperCase) pages m)
     = page_requests m.
Proof.
  revert m. induction pages as [|data pages IH]; intros m Hm; [auto|].
  cbn [fold_left]. destruct (load_page_ready m data Hm) as (H1 & H2 & H3).
  destruct (IH _ H1) as (H4 & H5 & H6). rewrite H5, H6. auto.
Qed.

(** From the state in which the effect is due for page [k]. *)
Lemma load_pages_from (pages : list (list MarketRow)) :
  forall (m : Market) (k : nat),
    (1 <= k <= 10)%nat -> currentPage m = Z.of_nat k ->
    effect_due m = true -> marketDataLoading m = true ->
    awaited_pages m = [] -> timers m = [] ->
    page_requests m = pages_up_to (k - 1) ->
    page_requests (fold_left (load_page toUpperCase) pages m)
    = pages_up_to (Nat.min (k - 1 + length pages) 10)
    /\ topTokens (fold_left (load_page toUpperCase) pages m)
       = fold_left (fun table data => upsertPage toUpperCase data table)
           (firstn (11 - k) pages) (topTokens m)
    /\ marketDataLoading (fold_left (load_page toUpperCase) pages m)
       = (k - 1 + length pages <? 10)%nat.
Proof.
  induction pages as [|data pages IH]; intros m k Hk Ek Hd Hl Ha Ht Hr.
  - cbn [fold_left length]. rewrite Nat.add_0_r, firstn_nil, Hr, Hl.
    rewrite Nat.min_l by lia. split; [reflexivity|]. split; [reflexivity|].
    symmetry. apply Nat.ltb_lt. lia.
  - cbn [fold_left length].
    assert (E1 : load_page toUpperCase m data
                 = let m1 := coingeckoApi_get (Z.of_nat k) (effect_done m) in
                   let m2 := fetchMarketData_settle toUpperCase (Z.of_nat k)
                               (PageResolved data) (settled (Z.of_nat k) m1) in
                   match timers m2 with
                   | callback :: _ => run_timer callback (timer_fired m2)
                   | [] => m2
                   end).
    { unfold load_page. rewrite Hd. unfold market_effect. market_fields.
      rewrite Hl, Ek. cbn [andb].
      destruct (Z.leb_spec (Z.of_nat k) 10) as [_|Hgt]; [|lia].
      market_fields. rewrite Ha. reflexivity. }
    rewrite E1. clear E1. cbv zeta. market_fields.
    destruct (Z.ltb_spec (Z.of_nat k) 10) as [Hlt|Hge]; market_fields;
      rewrite ?Ha, ?Ht; market_fields; rewrite ?Z.eqb_refl; market_fields.
    + set (m' := setCurrentPage _ _).
      assert (S1 : currentPage m' = Z.of_nat (S k))
        by (subst m'; market_fields; rewrite Ek; lia).
      assert (S2 : effect_due m' = true).
      { subst m'. market_fields. rewrite Ek.
        destruct (Z.eqb_spec (Z.of_nat k + 1) (Z.of_nat k)); [lia | reflexivity]. }
      assert (S3 : marketDataLoading m' = true)
        by (subst m'; market_fields; exact Hl).
      assert (S4 : awaited_pages m' = []).
      { subst m'. market_fields. rewrite Ha. market_fields.
        rewrite Z.eqb_refl. reflexivity. }
      assert (S5 : timers m' = [])
        by (subst m'; market_fields; rewrite Ht; reflexivity).
      assert (S6 : page_requests m' = pages_up_to (S k - 1)).
      { subst m'. market_fields. rewrite Hr.
        replace (S k - 1)%nat with k by lia.
        destruct k as [|j]; [lia|].
        replace (S j - 1)%nat with j by lia. apply pages_up_to_snoc. }
      assert (S7 : topTokens m' = upsertPage toUpperCase data (topTokens m))
        by reflexivity.
      destruct (IH m' (S k) ltac:(lia) S1 S2 S3 S4 S5 S6) as (H1 & H2 & H3).
      rewrite H1, H2, H3, S7.
      replace (S k - 1 + length pages)%nat with (k - 1 + S (length pages))%nat
        by lia.
      replace (11 - k)%nat with (S (11 - S k)) by lia.
      split; [reflexivity|]. split; reflexivity.
    + assert (k = 10%nat) as -> by lia.
      set (m' := setMarketDataLoading _ _).
      assert (Hm' : market_ready m').
      { subst m'. unfold market_ready. market_fields. rewrite Ha, Ht.
        market_fields. rewrite Z.eqb_refl. auto. }
      destruct (load_pages_ready pages m' Hm') as ((H0 & _) & H2 & H3).
      rewrite H0, H2, H3. subst m'. market_fields. rewrite Hr.
      split.
      * rewrite Nat.min_r by lia. apply (pages_up_to_snoc 9).
      * split; [reflexivity|]. symmetry. apply Nat.ltb_ge. lia.
Qed.

End MarketLoadingFacts.
(** X12. A rejected page request brings the loading to a halt: the timer it
    sets leaves [currentPage] as it is, no dependency of the effect changes,
    and in every state that follows the pages requested, the table, the page
    counter and the loading flag are what they were; the page is not
    requested again and the table never gets marked as complete. *)
Theorem failed_page_halts :
  forall (toUpperCase : string -> string) (m m' : Market) (page : Z),
    market_reachable toUpperCase m ->
    In page (awaited_pages m) ->
    market_steps toUpperCase
      (fetchMarketData_settle toUpperCase page PageRejected (settled page m))
      m' ->
    page_requests m' = page_requests m
    /\ topTokens m' = topTokens m
    /\ currentPage m' = currentPage m
    /\ marketDataLoading m' = true
    /\ effect_due m' = false
    /\ awaited_pages m' = [].
Proof.
  intros toUpperCase m m' page Hr Hin Hs.
  apply market_phase_reachable in Hr as (k & Hk & Ek & H).
  destruct H as [(_ & _ & Ha & _)
                |[(Hd & Hl & Ha & Hti & Hp)
                 |[(_ & _ & Ha & _)|[(_ & _ & Ha & _)|(_ & Ha & _)]]]];
    rewrite Ha in Hin; cbn [In] in Hin; try contradiction.
  destruct Hin as [<-|[]].
  assert (H0 : market_halted m
                 (fetchMarketData_settle toUpperCase (Z.of_nat k) PageRejected
                    (settled (Z.of_nat k) m))).
  { unfold market_halted. market_fields. rewrite Ha, Hti. market_fields.
    rewrite Z.eqb_refl. auto 10. }
  destruct (market_halted_steps toUpperCase m _ m' Hs H0)
    as (H1 & H2 & _ & H4 & H5 & H6 & H7).
  rewrite H5, Hl. auto 10.
Qed.

Lemma failed_page_halts_witness :
  page_requests
    (run_timer SamePage
       (timer_fired
          (fetchMarketData_settle (fun s => s) 1 PageRejected
             (settled 1 (market_effect initial_Market)))))
  = [1%Z]
  /\ currentPage
       (run_timer SamePage
          (timer_fired
             (fetchMarketData_settle (fun s => s) 1 PageRejected
                (settled 1 (market_effect initial_Market)))))
     = 1%Z
  /\ marketDataLoading
       (run_timer SamePage
          (timer_fired
             (fetchMarketData_settle (fun s => s) 1 PageRejected
                (settled 1 (market_effect initial_Market)))))
     = true
  /\ effect_due
       (run_timer SamePage
          (timer_fired
             (fetchMarketData_settle (fun s => s) 1 PageRejected
                (settled 1 (market_effect initial_Market)))))
     = false.
Proof.
  destruct (failed_page_halts (fun s => s) (market_effect initial_Market)
              (run_timer SamePage
                 (timer_fired
                    (fetchMarketData_settle (fun s => s) 1 PageRejected
                       (settled 1 (market_effect initial_Market)))))
              1%Z)
    as (H1 & _ & H3 & H4 & H5 & _).
  - eapply market_reachable_step; [apply market_reachable_initial|].
    apply market_step_effect. reflexivity.
  - left. reflexivity.
  - eapply market_steps_step; [apply market_steps_refl|].
    apply (market_step_timer (fun s => s) SamePage []). reflexivity.
  - split; [exact H1|]. split; [exact H3|]. split; [exact H4 | exact H5].
Defined.

(** X13. The pages are requested in order, each one once and none beyond the
    tenth: in every state the pages requested so far are [1, ..., n] with
    [n] the page counter or one less, at most one request is in flight, for
    the page the counter shows, and the table is marked as complete only
    after all ten pages have been requested. *)
Theorem market_pages_in_order :
  forall (toUpperCase : string -> string) (m : Market),
    market_reachable toUpperCase m ->
    (1 <= currentPage m <= 10)%Z
    /\ (page_requests m = pages_up_to (Z.to_nat (currentPage m))
        \/ page_requests m = pages_up_to (Z.to_nat (currentPage m) - 1))
    /\ List.NoDup (page_requests m)
    /\ (forall page : Z, In page (page_requests m) -> (1 <= page <= 10)%Z)
    /\ (awaited_pages m = [] \/ awaited_pages m = [currentPage m])
    /\ (marketDataLoading m = false -> page_requests m = pages_up_to 10).
Proof.
  intros toUpperCase m Hr.
  apply market_phase_reachable in Hr as (k & Hk & Ek & H).
  rewrite Ek, Nat2Z.id.
  assert (Hn : exists n : nat, (n <= 10)%nat /\ page_requests m = pages_up_to n).
  { destruct H as [(_ & _ & _ & _ & Hp)
                  |[(_ & _ & _ & _ & Hp)
                   |[(_ & _ & _ & _ & Hp & _)
                    |[(_ & _ & _ & _ & Hp)|(_ & _ & _ & Hp & _)]]]];
      eexists; (split; [|exact Hp]); lia. }
  destruct Hn as (n & Hn & Hp).
  split; [lia|]. split; [|split; [|split; [|split]]].
  - destruct H as [(_ & _ & _ & _ & Hq)
                  |[(_ & _ & _ & _ & Hq)
                   |[(_ & _ & _ & _ & Hq & _)
                    |[(_ & _ & _ & _ & Hq)|(_ & _ & _ & Hq & ->)]]]]; auto.
  - rewrite Hp. unfold pages_up_to. apply Finite.Injective_map_NoDup.
    + intros x y. apply Nat2Z.inj.
    + apply seq_NoDup.
  - intros page. rewrite Hp. unfold pages_up_to.
    rewrite in_map_iff. intros (x & <- & Hx). apply in_seq in Hx. lia.
  - destruct H as [(_ & _ & Ha & _)
                  |[(_ & _ & Ha & _)
                   |[(_ & _ & Ha & _)|[(_ & _ & Ha & _)|(_ & Ha & _)]]]];
      auto.
  - intros Hl.
    destruct H as [(_ & Hl' & _)
                  |[(_ & Hl' & _)
                   |[(_ & Hl' & _)|[(_ & Hl' & _)|(_ & _ & _ & Hq & _)]]]];
      congruence.
Qed.

Lemma market_pages_in_order_witness :
  (1 <= currentPage (load_pages (fun s => s) [[]; []; []]) <= 10)%Z
  /\ (page_requests (load_pages (fun s => s) [[]; []; []])
      = pages_up_to (Z.to_nat (currentPage (load_pages (fun s => s) [[]; []; []])))
      \/ page_requests (load_pages (fun s => s) [[]; []; []])
         = pages_up_to
             (Z.to_nat (currentPage (load_pages (fun s => s) [[]; []; []])) - 1))
  /\ List.NoDup (page_requests (load_pages (fun s => s) [[]; []; []]))
  /\ (forall page : Z,
        In page (page_requests (load_pages (fun s => s) [[]; []; []])) ->
        (1 <= page <= 10)%Z)
  /\ (awaited_pages (load_pages (fun s => s) [[]; []; []]) = []
      \/ awaited_pages (load_pages (fun s => s) [[]; []; []])
         = [currentPage (load_pages (fun s => s) [[]; []; []])])
  /\ (marketDataLoading (load_pages (fun s => s) [[]; []; []]) = false ->
      page_requests (load_pages (fun s => s) [[]; []; []]) = pages_up_to 10).
Proof.
  apply (market_pages_in_order (fun s => s)).
  apply (market_reachable_steps (fun s => s) initial_Market).
  - apply market_reachable_initial.
  - apply load_pages_steps.
Defined.

(** X14. When every request resolves, the pages [1] to [10] are requested
    one after the other and the table holds their rows, written page by page
    (a later page overwrites an id of an earlier one); after the tenth page
    the table is marked as complete and no further page is requested,
    however many responses are on offer. *)
Theorem pages_loaded :
  forall (toUpperCase : string -> string) (pages : list (list MarketRow)),
    market_reachable toUpperCase (load_pages toUpperCase pages)
    /\ page_requests (load_pages toUpperCase pages)
       = pages_up_to (Nat.min (length pages) 10)
    /\ topTokens (load_pages toUpperCase pages)
       = fold_left (fun table data => upsertPage toUpperCase data table)
           (firstn 10 pages) ∅
    /\ marketDataLoading (load_pages toUpperCase pages)
       = (length pages <? 10)%nat.
Proof.
  intros toUpperCase pages. split.
  - apply (market_reachable_steps toUpperCase initial_Market).
    + apply market_reachable_initial.
    + apply load_pages_steps.
  - apply (load_pages_from toUpperCase pages initial_Market 1);
      try reflexivity. lia.
Qed.
(* ================================================================= *)
(** ** The entries of the market table *)

Section UpsertFacts.

Variable toUpperCase : string -> string.




End UpsertFacts.

(* ================================================================= *)
(** ** The digits of the fixed notation read back *)

Section ReadBack.

Import NumberToString.
Local Open Scope Z_scope.

Lemma digit_value_digit_char (d : Z) :
  0 <= d < 10 -> digit_value (digit_char d) = d.
Proof.
  intros H. apply digit_cases in H.
  repeat (destruct H as [->|H]; [reflexivity|]). subst; reflexivity.
Qed.

Lemma read_digits_app (a b : string) :
  forall acc : Z, read_digits acc (a ++ b) = read_digits (read_digits acc a) b.
Proof.
  induction a as [|c a IH]; intros acc; cbn [String.append read_digits];
    [reflexivity | apply IH].
Qed.

Lemma decimal_aux_value (fuel : nat) :
  forall (n : Z) (acc : string),
    0 <= n -> n < 10 ^ Z.of_nat fuel -> (0 < fuel)%nat ->
    exists ds : string,
      decimal_aux fuel n acc = ds ++ acc
      /\ forall a : Z,
           read_digits a ds = a * 10 ^ Z.of_nat (String.length ds) + n.
Proof.
  induction fuel as [|fuel IH]; intros n acc Hn Hlt Hf; [lia|].
  cbn [decimal_aux].
  assert (Hd : 0 <= n mod 10 < 10) by (apply Z.mod_pos_bound; lia).
  pose proof (Z.div_mod n 10 ltac:(lia)) as Hdm.
  destruct (Z.eqb_spec (n / 10) 0) as [Hq|Hq].
  - exists (String (digit_char (n mod 10)) "").
    split; [reflexivity|]. intros a.
    cbn [read_digits String.length].
    rewrite is_digit_digit_char, digit_value_digit_char by auto.
    change (Z.of_nat 1) with 1. rewrite Z.pow_1_r. lia.
  - assert (Hq' : 0 < n / 10) by (pose proof (Z.div_pos n 10); lia).
    assert (Hlt' : n / 10 < 10 ^ Z.of_nat fuel).
    { apply Z.div_lt_upper_bound; [lia|].
      rewrite Nat2Z.inj_succ, Z.pow_succ_r in Hlt by lia. lia. }
    assert (Hf' : (0 < fuel)%nat).
    { destruct fuel; [cbn in Hlt'; lia | lia]. }
    destruct (IH (n / 10) (String (digit_char (n mod 10)) acc)
                ltac:(lia) Hlt' Hf') as (ds & E & Hv).
    exists (ds ++ String (digit_char (n mod 10)) "").
    rewrite E, append_assoc'. split; [reflexivity|]. intros a.
    rewrite read_digits_app, Hv. cbn [read_digits].
    rewrite is_digit_digit_char, digit_value_digit_char by auto.
    rewrite length_app. cbn [String.length].
    replace (Z.of_nat (String.length ds + 1))
      with (Z.succ (Z.of_nat (String.length ds))) by lia.
    rewrite Z.pow_succ_r by lia.
    generalize (10 ^ Z.of_nat (String.length ds)). intros t.
    revert Hdm. generalize (n / 10) (n mod 10). intros u v Hdm. lia.
Qed.

(** The digits of [decimal n] spell [n]. *)
Lemma digits_value_decimal (n : Z) : 0 <= n -> digits_value (decimal n) = n.
Proof.
  intros Hn. unfold decimal, digits_value.
  destruct (decimal_aux_value (S (Z.to_nat (Z.log2 n))) n "" Hn
              (decimal_fuel n Hn) ltac:(lia)) as (ds & E & Hv).
  rewrite E, append_empty_r, Hv. lia.
Qed.

Lemma read_digits_zeros (k : nat) : read_digits 0 (zeros k) = 0.
Proof. induction k as [|k IH]; [reflexivity|]. exact IH. Qed.

Lemma digits_value_point_at (f : nat) (m : string) :
  digits_value (point_at f m) = digits_value m.
Proof.
  destruct f as [|f]; [reflexivity|]. unfold point_at, digits_value.
  set (m' := if (String.length m <=? S f)%nat
             then zeros (S f + 1 - String.length m) ++ m else m).
  assert (Hm' : read_digits 0 m' = read_digits 0 m).
  { unfold m'. destruct (_ <=? _)%nat; [|reflexivity].
    rewrite read_digits_app, read_digits_zeros. reflexivity. }
  rewrite read_digits_app.
  change ("." ++ drop (String.length m' - S f) m')
    with (String "." (drop (String.length m' - S f) m')).
  cbn [read_digits is_digit]. change (is_digit ".") with false. cbv iota.
  rewrite <- read_digits_app, take_drop. exact Hm'.
Qed.

Lemma digits_value_sign (sg : bool) (s : string) :
  digits_value (sign_string sg ++ s) = digits_value s.
Proof. destruct sg; reflexivity. Qed.

(** Below [10^21] the digits of [toFixed(f)] spell the integer nearest to
    the number times [10^f]. *)
Lemma toFixed_value (a : float) (f : nat) (s : bool) (m : positive) (e : Z) :
  Prim2SF a = S754_finite s m e ->
  fst (fraction_of m e) < 10 ^ 21 * snd (fraction_of m e) ->
  digits_value (toFixed a f)
  = nearest_int (fst (fraction_of m e) * pow10 f) (snd (fraction_of m e)).
Proof.
  intros Ea Hlt. unfold toFixed. rewrite Ea.
  destruct (fraction_of_positive m e) as [Hp Hq].
  destruct (fraction_of m e) as [p q]. cbn [fst snd] in *.
  destruct (Z.leb_spec (10 ^ 21 * q) p) as [H|_]; [lia|].
  rewrite digits_value_sign, digits_value_point_at.
  apply digits_value_decimal, nearest_int_nonneg; auto.
  unfold pow10. assert (0 < 10 ^ Z.of_nat f) by (apply Z.pow_pos_nonneg; lia).
  nia.
Qed.

Lemma nearest_int_half (p q : Z) :
  0 < q -> 2 * Z.abs (nearest_int p q * q - p) <= q.
Proof.
  intros Hq. unfold nearest_int.
  pose proof (Z.div_mod (2 * p + q) (2 * q) ltac:(lia)) as Hdm.
  pose proof (Z.mod_pos_bound (2 * p + q) (2 * q) ltac:(lia)) as Hm.
  set (n := (2 * p + q) / (2 * q)) in *. clearbody n.
  assert (Hlo : - q < 2 * (n * q - p)) by nia.
  assert (Hhi : 2 * (n * q - p) <= q) by nia.
  lia.
Qed.

End ReadBack.

Section FixedAmounts.

Local Open Scope float_scope.

(** A number from 1 up to 1000 as a fraction. *)
Lemma below_thousand_fraction (a : float) :
  (1 <=? a) = true -> (a <? 1000) = true ->
  exists (m : positive) (e : Z),
    Prim2SF a = S754_finite false m e
    /\ (fst (NumberToString.fraction_of m e)
        < 10 ^ 21 * snd (NumberToString.fraction_of m e))%Z.
Proof.
  intros Hge Hlt.
  pose proof (leb_positive 1 a eq_refl Hge) as Hpos.
  destruct (positive_below a 1000 Hpos eq_refl Hlt) as (m & e & Ea & He & Hr).
  rewrite rank_thousand in Hr.
  pose proof (fraction_of_rank false m e He) as Hv.
  destruct (fraction_of_positive m e) as [Hp Hq].
  exists m, e. split; [exact Ea|].
  assert (H21 : (1000 < 10 ^ 21)%Z) by reflexivity.
  assert (Ht : (0 < 2 ^ 1074)%Z) by reflexivity.
  revert Hv Hr Hp Hq H21 Ht.
  generalize (rank (S754_finite false m e)) (2 ^ 1074)%Z (10 ^ 21)%Z.
  intros r t u. nia.
Qed.

End FixedAmounts.

(** X16. An amount from 1 up to 1000 is shown to four decimals exactly: the
    digits of [formatAmount(a)], read as an integer [n], make [n / 10^4] the
    multiple of [1 / 10^4] nearest to [a], within half a unit of the last
    digit, and of two nearest ones the larger. *)
Theorem fixed_amount_nearest :
  forall a : float,
    (1 <=? a)%float = true -> (a <? 1000)%float = true ->
    (0 < snd (exact_fraction a))%Z
    /\ (2 * Z.abs (digits_value (formatAmount a) * snd (exact_fraction a)
                   - fst (exact_fraction a) * 10 ^ 4)
        <= snd (exact_fraction a))%Z
    /\ (forall k : Z,
          Z.abs (digits_value (formatAmount a) * snd (exact_fraction a)
                 - fst (exact_fraction a) * 10 ^ 4)
          <= Z.abs (k * snd (exact_fraction a) - fst (exact_fraction a) * 10 ^ 4)
          /\ (Z.abs (k * snd (exact_fraction a) - fst (exact_fraction a) * 10 ^ 4)
              = Z.abs (digits_value (formatAmount a) * snd (exact_fraction a)
                       - fst (exact_fraction a) * 10 ^ 4) ->
              k <= digits_value (formatAmount a)))%Z.
Proof.
  intros a Hge Hlt.
  destruct (formatAmount_fixed a Hge Hlt) as [E _].
  destruct (below_thousand_fraction a Hge Hlt) as (m & e & Ea & Hb).
  rewrite E, (toFixed_value a 4 false m e Ea Hb).
  unfold exact_fraction. rewrite Ea.
  destruct (fraction_of_positive m e) as [Hp Hq].
  change (NumberToString.pow10 4) with (10 ^ 4)%Z.
  split; [exact Hq|]. split.
  - apply nearest_int_half. exact Hq.
  - intros k. apply nearest_int_closest. exact Hq.
Qed.

Lemma fixed_amount_nearest_witness :
  digits_value (formatAmount 123.456789) = 1234568%Z
  /\ (2 * Z.abs (digits_value (formatAmount 123.456789)
                 * snd (exact_fraction 123.456789)
                 - fst (exact_fraction 123.456789) * 10 ^ 4)
      <= snd (exact_fraction 123.456789))%Z.
Proof.
  split; [vm_compute; reflexivity|].
  destruct (fixed_amount_nearest 123.456789 eq_refl eq_refl) as (_ & H & _).
  exact H.
Defined.

(** X17. The price cell of a finite price below [10^21] in magnitude: a
    dollar sign and the price in fixed notation with four decimals, the
    digits spelling the multiple of [1 / 10^4] nearest to the price. *)
Theorem price_cell_nearest :
  forall token : TokenBalance,
    isFinite (usd_price token) = true ->
    (fst (exact_fraction (usd_price token))
     < 10 ^ 21 * snd (exact_fraction (usd_price token)))%Z ->
    (exists number : string,
       price_cell token = String "$" number /\ fixed_form 4 number = true)
    /\ (2 * Z.abs (digits_value (price_cell token)
                   * snd (exact_fraction (usd_price token))
                   - fst (exact_fraction (usd_price token)) * 10 ^ 4)
        <= snd (exact_fraction (usd_price token)))%Z.
Proof.
  intros token. unfold price_cell, isFinite, exact_fraction.
  generalize (usd_price token). intros a.
  destruct (Prim2SF a) as [s|s| |s m e] eqn:Ea; try discriminate; intros _ Hb.
  - assert (E : NumberToString.toFixed a 4 = "0.0000")
      by (unfold NumberToString.toFixed; rewrite Ea; reflexivity).
    rewrite E. split; [|vm_compute; discriminate].
    exists "0.0000". split; reflexivity.
  - split.
    + exists (NumberToString.toFixed a 4). split; [reflexivity|].
      apply (toFixed_fixed_form a 4 s m e Ea Hb). lia.
    + change (digits_value ("$" ++ NumberToString.toFixed a 4))
        with (digits_value (NumberToString.toFixed a 4)).
      rewrite (toFixed_value a 4 s m e Ea Hb).
      destruct (fraction_of_positive m e) as [Hp Hq].
      change (NumberToString.pow10 4) with (10 ^ 4)%Z.
      apply nearest_int_half. exact Hq.
Qed.

Lemma price_cell_nearest_witness :
  (exists number : string,
     price_cell (sample_token "AAA" false (Num 15)) = String "$" number
     /\ fixed_form 4 number = true)
  /\ price_cell (sample_token "AAA" false (Num 15)) = "$1.0000".
Proof.
  destruct (price_cell_nearest (sample_token "AAA" false (Num 15)) eq_refl)
    as [H _].
  - vm_compute. reflexivity.
  - split; [exact H | vm_compute; reflexivity].
Defined.
(* ================================================================= *)
(** ** The banner of a rejected request *)

Section BannerFacts.




End BannerFacts.


(** ** The model on the inputs of the specification's examples *)

Example isValidEthereumAddress_examples :
  isValidEthereumAddress "0x52908400098527886E0F7030069857D2E4169EE7" = true
  /\ isValidEthereumAddress "0xde709f2102306220921060314715629080e2fb77" = true
  /\ isValidEthereumAddress "0x52908400098527886E0F7030069857D2E4169EE" = false
  /\ isValidEthereumAddress "0x52908400098527886E0F7030069857D2E4169EE77" = false
  /\ isValidEthereumAddress "0x52908400098527886E0F7030069857D2E4169EEG" = false
  /\ isValidEthereumAddress "52908400098527886E0F7030069857D2E4169EE7aa" = false
  /\ isValidEthereumAddress "0x" = false
  /\ isValidEthereumAddress "" = false.
Proof. repeat split. Qed.

Example Number_toString_examples :
  NumberToString.Number_toString 0.1 = "0.1"
  /\ NumberToString.Number_toString 123.456789 = "123.456789"
  /\ NumberToString.Number_toString (-1234.5) = "-1234.5"
  /\ NumberToString.Number_toString 0.000001 = "0.000001"
  /\ NumberToString.Number_toString 0.0000001 = "1e-7"
  /\ NumberToString.Number_toString 1e21 = "1e+21"
  /\ NumberToString.Number_toString 123456789012345680000 = "123456789012345680000"
  /\ NumberToString.Number_toString 5e-324 = "5e-324"
  /\ NumberToString.Number_toString 1.7976931348623157e308
     = "1.7976931348623157e+308"
  /\ NumberToString.toFixed 1e21 4 = "1e+21".
Proof. repeat split; vm_compute; reflexivity. Qed.

Example formatAmount_examples :
  formatAmount 0 = "0"
  /\ formatAmount (-0) = "0"
  /\ formatAmount 0.00005 = "5.0000e-5"
  /\ formatAmount 0.0001 = "0.0001000"
  /\ formatAmount 0.5 = "0.5000"
  /\ formatAmount 0.99999 = "1.000"
  /\ formatAmount 1 = "1.0000"
  /\ formatAmount 123.456789 = "123.4568"
  /\ formatAmount 999.99999 = "1000.0000"
  /\ formatAmount 1000 = "1,000"
  /\ formatAmount 1234.5 = "1,234.5"
  /\ formatAmount 1234567 = "1,234,567"
  /\ formatAmount 1e21 = "1,000,000,000,000,000,000,000"
  /\ formatAmount (-1234.5) = "-1.2345e+3"
  /\ formatAmount nan = "NaN"
  /\ formatAmount infinity = "∞"
  /\ formatAmount neg_infinity = "-Infinity".
Proof. repeat split; vm_compute; reflexivity. Qed.

Example errorMessage_examples :
  errorMessage
    {| response := Some {| status := 500; data_message := JNumber 123 |};
       message := JString "Request failed with status code 500" |}
  = "123"
  /\ errorMessage
       {| response := Some {| status := 500; data_message := JBoolean true |};
          message := JString "Request failed with status code 500" |}
     = "true"
  /\ errorMessage
       {| response :=
            Some {| status := 500;
                    data_message :=
                      JArray [JNumber 1; JString "a"; JNull; JArray [JNumber 2.5]] |};
          message := JString "Request failed with status code 500" |}
     = "1,a,,2.5"
  /\ errorMessage
       {| response := Some {| status := 500; data_message := JObject |};
          message := JString "Request failed with status code 500" |}
     = "[object Object]"
  /\ errorMessage
       {| response := Some {| status := 500; data_message := JNull |};
          message := JString "Network Error" |}
     = "Network Error"
  /\ errorMessage {| response := None; message := JUndefined |} = msg_fallback
  /\ errorMessage
       {| response := Some {| status := 429; data_message := JString "slow down" |};
          message := JString "Request failed with status code 429" |}
     = msg_rate_limit.
Proof. repeat split; vm_compute; reflexivity. Qed.

Example addToRecent_examples :
  recentAddresses
    (addToRecent "a" (setRecentAddresses ["b"; "a"; "c"] (initial_State None)))
  = ["a"; "b"; "c"]
  /\ recentAddresses
       (addToRecent "f"
          (setRecentAddresses ["a"; "b"; "c"; "d"; "e"] (initial_State None)))
     = ["f"; "a"; "b"; "c"; "d"]
  /\ recentAddresses
       (addToRecent "A"
          (setRecentAddresses ["a"] (initial_State None)))
     = ["A"; "a"].
Proof. repeat split. Qed.

Example upsertPage_last_write_wins (toUpperCase : string -> string) :
  upsertPage toUpperCase
    [ {| row_id := "bitcoin"; row_symbol := "btc"; row_name := "Bitcoin";
         row_image := ""; row_current_price := Num 1 |};
      {| row_id := "bitcoin"; row_symbol := "btc"; row_name := "Bitcoin";
         row_image := ""; row_current_price := Null |} ] ∅
  !! "bitcoin"
  = Some {| top_id := "bitcoin"; top_symbol := toUpperCase "btc";
            top_name := "Bitcoin"; top_image := "";
            top_current_price := 0%float |}.
Proof.
  rewrite upsertPage_lookup. reflexivity.
Qed.
